(** * Siddiqah voice assistant: the speech-interaction layer

    A shallow embedding of the event handlers of [src/App.tsx] (landing,
    surah and dua screens), of the quiz screen component
    ([components/QuizScreen]) and of the serverless proxy [src/tts.js],
    together with the properties the specification states about them.

    Conventions.
    - A JavaScript string is the list of its UTF-16 code units.
    - A React callback is a function of the values its closure captured at
      render time (the snapshot) and of the mutable world: refs, browser
      objects and the state cell the [setX] calls write to.  A handler reads
      React state from the snapshot only, as the source does.
    - A closure stored in a browser object ([audio.onended], a timer, a
      recognizer's [onresult]) is a constructor of a [Callback] type that
      carries its snapshot, and is interpreted when the event fires. *)

From Stdlib Require Import List String Ascii NArith ZArith Bool Lia Arith.
From Stdlib Require Import Permutation Sorted DecimalString.
From Stdlib Require Floats.SpecFloat.
Import ListNotations.

Set Implicit Arguments.

(* ================================================================== *)
(** * JavaScript strings *)

Module JS.

Definition jsstring := list N.

(** Decoder from the UTF-8 bytes of a Rocq string literal to UTF-16 code
    units, so that literals are written as in the source. [need] counts the
    continuation bytes still expected and [acc] holds the code point bits
    read so far. *)
Definition emit (cp : N) : jsstring :=
  if (cp <? 65536)%N then [cp]
  else [(55296 + (cp - 65536) / 1024)%N; (56320 + (cp - 65536) mod 1024)%N].

Fixpoint utf16 (s : string) (need : nat) (acc : N) : jsstring :=
  match s with
  | EmptyString => []
  | String c t =>
      let b := N_of_ascii c in
      match need with
      | O =>
          if (b <? 128)%N then b :: utf16 t 0 0%N
          else if (b <? 224)%N then utf16 t 1 (b - 192)%N
          else if (b <? 240)%N then utf16 t 2 (b - 224)%N
          else utf16 t 3 (b - 240)%N
      | S n =>
          let acc' := (acc * 64 + (b - 128))%N in
          match n with
          | O => emit acc' ++ utf16 t 0 0%N
          | S _ => utf16 t n acc'
          end
      end
  end.

Definition js (s : string) : jsstring := utf16 s 0 0%N.

(** [a === b] on strings. *)
Definition str_eqb (a b : jsstring) : bool :=
  if list_eq_dec N.eq_dec a b then true else false.

(** [hay.startsWith(needle)] and [hay.includes(needle)]. *)
Fixpoint starts_with (needle hay : jsstring) : bool :=
  match needle, hay with
  | [], _ => true
  | _ :: _, [] => false
  | n :: ns, h :: hs => N.eqb n h && starts_with ns hs
  end.

Fixpoint includes (hay needle : jsstring) : bool :=
  starts_with needle hay ||
  match hay with
  | [] => false
  | _ :: t => includes t needle
  end.

(** [s.replace(/[.,?]/g, '')]: '.' is 46, ',' is 44, '?' is 63. *)
Definition is_punct (c : N) : bool :=
  N.eqb c 46 || N.eqb c 44 || N.eqb c 63.

Definition strip_punct (s : jsstring) : jsstring :=
  filter (fun c => negb (is_punct c)) s.

(** [s.replace(/-/g, ' ')]. *)
Definition hyphens_to_spaces (s : jsstring) : jsstring :=
  map (fun c => if N.eqb c 45 then 32%N else c) s.

(** ECMAScript WhiteSpace and LineTerminator code units, as removed by
    [String.prototype.trim]. *)
Definition is_white_space (c : N) : bool :=
  ((9 <=? c) && (c <=? 13) || N.eqb c 32 || N.eqb c 160 || N.eqb c 5760
   || (8192 <=? c) && (c <=? 8202) || N.eqb c 8232 || N.eqb c 8233
   || N.eqb c 8239 || N.eqb c 8287 || N.eqb c 12288 || N.eqb c 65279)%N.

Fixpoint drop_ws (s : jsstring) : jsstring :=
  match s with
  | [] => []
  | c :: t => if is_white_space c then drop_ws t else s
  end.

Definition trim (s : jsstring) : jsstring :=
  rev (drop_ws (rev (drop_ws s))).

(** [toLowerCase] on the Basic Latin letters; every other code unit is
    kept.  It agrees with the built-in on text made of Basic Latin and
    Tamil characters (Tamil has no case), which is where the examples of
    this development live.  The general theorems below do not use it: they
    hold for an arbitrary lowering function. *)
Definition lower_unit (c : N) : N :=
  if ((65 <=? c) && (c <=? 90))%N then (c + 32)%N else c.

Definition ascii_lower (s : jsstring) : jsstring := map lower_unit s.

(** A value in a boolean context: the empty string is falsy. *)
Definition truthy_str (s : jsstring) : bool :=
  match s with [] => false | _ :: _ => true end.

End JS.

(* ================================================================== *)
(** * The serverless text-to-speech proxy ([src/tts.js]) *)

Module Tts.
Import JS.

(** A value of [req.query]: a string, or an array when the parameter is
    repeated. *)
Inductive QueryValue :=
| QStr (s : jsstring)
| QArr (l : list jsstring).

Record Request := { q_text : option QueryValue; q_lang : option QueryValue }.

(** [!text] is false for every array and every non-empty string. *)
Definition truthy (v : option QueryValue) : bool :=
  match v with
  | None => false
  | Some (QStr s) => truthy_str s
  | Some (QArr _) => true
  end.

(** String conversion inside a template literal; an array joins with ','. *)
Fixpoint join_comma (l : list jsstring) : jsstring :=
  match l with
  | [] => []
  | [s] => s
  | s :: t => s ++ js "," ++ join_comma t
  end.

Definition to_string (v : QueryValue) : jsstring :=
  match v with QStr s => s | QArr l => join_comma l end.

(** What the upstream request does: [fetch] rejects, or it resolves to a
    response with a status whose body read either rejects ([None]) or
    yields the bytes. *)
Inductive FetchOutcome :=
| FetchThrows
| FetchResponse (status : N) (body : option (list Byte.byte)).

(** [Response.ok]: the status is in the range 200-299. *)
Definition ok (status : N) : bool := ((200 <=? status) && (status <=? 299))%N.

Inductive HeaderValue := HStr (s : jsstring) | HNum (n : N).
Inductive Body := Text (s : jsstring) | Bytes (b : list Byte.byte).

Record Response := {
  status : N;
  headers : list (jsstring * HeaderValue);
  body : Body
}.

Section Handler.

(** [encodeURIComponent], and the upstream service as a function of the
    requested URL. *)
Variable encodeURIComponent : jsstring -> jsstring.
Variable fetch : jsstring -> FetchOutcome.

Definition lang_of (req : Request) : QueryValue :=
  match q_lang req with
  | None => QStr (js "ta")
  | Some l => l
  end.

Definition ttsUrl (text lang : QueryValue) : jsstring :=
  js "https://translate.google.com/translate_tts?ie=UTF-8&q="
  ++ encodeURIComponent (to_string text)
  ++ js "&tl=" ++ to_string lang ++ js "&client=tw-ob".

Definition bad_request : Response :=
  {| status := 400; headers := [];
     body := Text (js "Text query parameter is required") |}.

Definition internal_error : Response :=
  {| status := 500; headers := [];
     body := Text (js "Internal Server Error") |}.

Definition upstream_failed (s : N) : Response :=
  {| status := s; headers := [];
     body := Text (js "Failed to fetch TTS from Google") |}.

Definition audio_response (b : list Byte.byte) : Response :=
  {| status := 200;
     headers := [(js "Content-Type", HStr (js "audio/mpeg"));
                 (js "Content-Length", HNum (N.of_nat (List.length b)))];
     body := Bytes b |}.

Definition handler (req : Request) : Response :=
  let lang := lang_of req in
  match q_text req with
  | Some text =>
      if negb (truthy (Some text)) then bad_request
      else
        match fetch (ttsUrl text lang) with
        | FetchThrows => internal_error
        | FetchResponse s b =>
            if negb (ok s) then upstream_failed s
            else
              match b with
              | None => internal_error
              | Some bytes => audio_response bytes
              end
        end
  | None => bad_request
  end.

End Handler.


End Tts.

(* ================================================================== *)
(** * The application shell ([src/App.tsx]) *)

Module App.
Import JS.

(** ** Data ([src/types.ts]) *)

Record Surah := { s_name : jsstring; s_number : N; s_audio : jsstring }.

Record Dua := {
  d_name : jsstring;
  d_arabic : jsstring;
  d_translationTamil : jsstring;
  d_keywords : list jsstring
}.

(** The values [currentScreen] takes. *)
Inductive Screen :=
| initial | welcome | landing | surah | quizRules | quiz | duaList | duaPlayer.

Definition screen_eqb (a b : Screen) : bool :=
  match a, b with
  | initial, initial | welcome, welcome | landing, landing | surah, surah
  | quizRules, quizRules | quiz, quiz | duaList, duaList
  | duaPlayer, duaPlayer => true
  | _, _ => false
  end.

(** ** React state: the [useState] cells of [App] *)

Record State := {
  currentScreen : Screen;
  isListening : bool;
  transcription : jsstring;
  isPlaying : bool;
  currentSurah : jsstring;
  message : jsstring;
  currentDua : option Dua;
  duaMessage : jsstring;
  failedRecognitionAttempts : N
}.

(** ** Browser objects *)

(** What [audio.src] points to: nothing, a file, or the translate_tts URL
    built from a text and a language code. *)
Inductive Src :=
| NoSrc
| File (url : jsstring)
| Speech (text lang : jsstring).

(** The closures the handlers store in browser objects, with the state
    their enclosing callback captured. *)
Inductive Callback :=
| CbListenAgain (shouldListenAgain : bool) (snap : State)
    (* handleLandingCommand: () => { if (shouldListenAgain) startListening(); } *)
| CbSetPlaying
    (* playSurah: () => setIsPlaying(true) *)
| CbPostRecitationFailed (snap : State)
    (* handlePlaybackEnd: the catch of the post-recitation play() *)
| CbSurahAudioFailed
    (* playSurah: the catch of play() *)
| CbPlaybackTimeout (snap : State)
    (* playSurah: the 60000 ms timer *)
| CbAnnounceSurah (s : Surah).
    (* playSurah: the 500 ms timer *)

Record AudioEl := {
  paused : bool;
  currentTime : N;
  src : Src;
  onended : option Callback;
  onerror : option Callback;
  onplaying : option Callback;
  play_catch : option Callback   (* rejection handler of the last play() *)
}.

Record Recognizer := { lang : jsstring; listening : bool }.

(** Refs, timers and [window.speechSynthesis] ([None]: not in [window];
    [Some b]: [b] tells whether utterances are queued). Timer ids are
    positive, so a stored id is always truthy. *)
Record World := {
  state : State;
  audioRef : option AudioEl;
  recognitionRef : option Recognizer;
  isWelcomeSequencePlaying : bool;
  postRecitationActionInProgress : bool;
  playbackTimerRef : option positive;
  timers : list (positive * Callback);
  nextTimer : positive;
  speechSynthesis : option bool
}.

(** ** Field updates *)

Definition setCurrentScreen v (w : World) : World :=
  let s := state w in
  {| state := {| currentScreen := v; isListening := isListening s;
       transcription := transcription s; isPlaying := isPlaying s;
       currentSurah := currentSurah s; message := message s;
       currentDua := currentDua s; duaMessage := duaMessage s;
       failedRecognitionAttempts := failedRecognitionAttempts s |};
     audioRef := audioRef w; recognitionRef := recognitionRef w;
     isWelcomeSequencePlaying := isWelcomeSequencePlaying w;
     postRecitationActionInProgress := postRecitationActionInProgress w;
     playbackTimerRef := playbackTimerRef w; timers := timers w;
     nextTimer := nextTimer w; speechSynthesis := speechSynthesis w |}.

Definition setIsListening v (w : World) : World :=
  let s := state w in
  {| state := {| currentScreen := currentScreen s; isListening := v;
       transcription := transcription s; isPlaying := isPlaying s;
       currentSurah := currentSurah s; message := message s;
       currentDua := currentDua s; duaMessage := duaMessage s;
       failedRecognitionAttempts := failedRecognitionAttempts s |};
     audioRef := audioRef w; recognitionRef := recognitionRef w;
     isWelcomeSequencePlaying := isWelcomeSequencePlaying w;
     postRecitationActionInProgress := postRecitationActionInProgress w;
     playbackTimerRef := playbackTimerRef w; timers := timers w;
     nextTimer := nextTimer w; speechSynthesis := speechSynthesis w |}.

Definition setTranscription v (w : World) : World :=
  let s := state w in
  {| state := {| currentScreen := currentScreen s; isListening := isListening s;
       transcription := v; isPlaying := isPlaying s;
       currentSurah := currentSurah s; message := message s;
       currentDua := currentDua s; duaMessage := duaMessage s;
       failedRecognitionAttempts := failedRecognitionAttempts s |};
     audioRef := audioRef w; recognitionRef := recognitionRef w;
     isWelcomeSequencePlaying := isWelcomeSequencePlaying w;
     postRecitationActionInProgress := postRecitationActionInProgress w;
     playbackTimerRef := playbackTimerRef w; timers := timers w;
     nextTimer := nextTimer w; speechSynthesis := speechSynthesis w |}.

Definition setIsPlaying v (w : World) : World :=
  let s := state w in
  {| state := {| currentScreen := currentScreen s; isListening := isListening s;
       transcription := transcription s; isPlaying := v;
       currentSurah := currentSurah s; message := message s;
       currentDua := currentDua s; duaMessage := duaMessage s;
       failedRecognitionAttempts := failedRecognitionAttempts s |};
     audioRef := audioRef w; recognitionRef := recognitionRef w;
     isWelcomeSequencePlaying := isWelcomeSequencePlaying w;
     postRecitationActionInProgress := postRecitationActionInProgress w;
     playbackTimerRef := playbackTimerRef w; timers := timers w;
     nextTimer := nextTimer w; speechSynthesis := speechSynthesis w |}.

Definition setCurrentSurah v (w : World) : World :=
  let s := state w in
  {| state := {| currentScreen := currentScreen s; isListening := isListening s;
       transcription := transcription s; isPlaying := isPlaying s;
       currentSurah := v; message := message s;
       currentDua := currentDua s; duaMessage := duaMessage s;
       failedRecognitionAttempts := failedRecognitionAttempts s |};
     audioRef := audioRef w; recognitionRef := recognitionRef w;
     isWelcomeSequencePlaying := isWelcomeSequencePlaying w;
     postRecitationActionInProgress := postRecitationActionInProgress w;
     playbackTimerRef := playbackTimerRef w; timers := timers w;
     nextTimer := nextTimer w; speechSynthesis := speechSynthesis w |}.

Definition setMessage v (w : World) : World :=
  let s := state w in
  {| state := {| currentScreen := currentScreen s; isListening := isListening s;
       transcription := transcription s; isPlaying := isPlaying s;
       currentSurah := currentSurah s; message := v;
       currentDua := currentDua s; duaMessage := duaMessage s;
       failedRecognitionAttempts := failedRecognitionAttempts s |};
     audioRef := audioRef w; recognitionRef := recognitionRef w;
     isWelcomeSequencePlaying := isWelcomeSequencePlaying w;
     postRecitationActionInProgress := postRecitationActionInProgress w;
     playbackTimerRef := playbackTimerRef w; timers := timers w;
     nextTimer := nextTimer w; speechSynthesis := speechSynthesis w |}.

Definition setCurrentDua v (w : World) : World :=
  let s := state w in
  {| state := {| currentScreen := currentScreen s; isListening := isListening s;
       transcription := transcription s; isPlaying := isPlaying s;
       currentSurah := currentSurah s; message := message s;
       currentDua := v; duaMessage := duaMessage s;
       failedRecognitionAttempts := failedRecognitionAttempts s |};
     audioRef := audioRef w; recognitionRef := recognitionRef w;
     isWelcomeSequencePlaying := isWelcomeSequencePlaying w;
     postRecitationActionInProgress := postRecitationActionInProgress w;
     playbackTimerRef := playbackTimerRef w; timers := timers w;
     nextTimer := nextTimer w; speechSynthesis := speechSynthesis w |}.

Definition setDuaMessage v (w : World) : World :=
  let s := state w in
  {| state := {| currentScreen := currentScreen s; isListening := isListening s;
       transcription := transcription s; isPlaying := isPlaying s;
       currentSurah := currentSurah s; message := message s;
       currentDua := currentDua s; duaMessage := v;
       failedRecognitionAttempts := failedRecognitionAttempts s |};
     audioRef := audioRef w; recognitionRef := recognitionRef w;
     isWelcomeSequencePlaying := isWelcomeSequencePlaying w;
     postRecitationActionInProgress := postRecitationActionInProgress w;
     playbackTimerRef := playbackTimerRef w; timers := timers w;
     nextTimer := nextTimer w; speechSynthesis := speechSynthesis w |}.

Definition setFailedRecognitionAttempts v (w : World) : World :=
  let s := state w in
  {| state := {| currentScreen := currentScreen s; isListening := isListening s;
       transcription := transcription s; isPlaying := isPlaying s;
       currentSurah := currentSurah s; message := message s;
       currentDua := currentDua s; duaMessage := duaMessage s;
       failedRecognitionAttempts := v |};
     audioRef := audioRef w; recognitionRef := recognitionRef w;
     isWelcomeSequencePlaying := isWelcomeSequencePlaying w;
     postRecitationActionInProgress := postRecitationActionInProgress w;
     playbackTimerRef := playbackTimerRef w; timers := timers w;
     nextTimer := nextTimer w; speechSynthesis := speechSynthesis w |}.

Definition set_audioRef v (w : World) : World :=
  {| state := state w; audioRef := v; recognitionRef := recognitionRef w;
     isWelcomeSequencePlaying := isWelcomeSequencePlaying w;
     postRecitationActionInProgress := postRecitationActionInProgress w;
     playbackTimerRef := playbackTimerRef w; timers := timers w;
     nextTimer := nextTimer w; speechSynthesis := speechSynthesis w |}.

Definition set_recognitionRef v (w : World) : World :=
  {| state := state w; audioRef := audioRef w; recognitionRef := v;
     isWelcomeSequencePlaying := isWelcomeSequencePlaying w;
     postRecitationActionInProgress := postRecitationActionInProgress w;
     playbackTimerRef := playbackTimerRef w; timers := timers w;
     nextTimer := nextTimer w; speechSynthesis := speechSynthesis w |}.

Definition set_postRecitationActionInProgress v (w : World) : World :=
  {| state := state w; audioRef := audioRef w;
     recognitionRef := recognitionRef w;
     isWelcomeSequencePlaying := isWelcomeSequencePlaying w;
     postRecitationActionInProgress := v;
     playbackTimerRef := playbackTimerRef w; timers := timers w;
     nextTimer := nextTimer w; speechSynthesis := speechSynthesis w |}.

Definition set_playbackTimerRef v (w : World) : World :=
  {| state := state w; audioRef := audioRef w;
     recognitionRef := recognitionRef w;
     isWelcomeSequencePlaying := isWelcomeSequencePlaying w;
     postRecitationActionInProgress := postRecitationActionInProgress w;
     playbackTimerRef := v; timers := timers w;
     nextTimer := nextTimer w; speechSynthesis := speechSynthesis w |}.

Definition set_timers v n (w : World) : World :=
  {| state := state w; audioRef := audioRef w;
     recognitionRef := recognitionRef w;
     isWelcomeSequencePlaying := isWelcomeSequencePlaying w;
     postRecitationActionInProgress := postRecitationActionInProgress w;
     playbackTimerRef := playbackTimerRef w; timers := v;
     nextTimer := n; speechSynthesis := speechSynthesis w |}.

Definition set_speechSynthesis v (w : World) : World :=
  {| state := state w; audioRef := audioRef w;
     recognitionRef := recognitionRef w;
     isWelcomeSequencePlaying := isWelcomeSequencePlaying w;
     postRecitationActionInProgress := postRecitationActionInProgress w;
     playbackTimerRef := playbackTimerRef w; timers := timers w;
     nextTimer := nextTimer w; speechSynthesis := v |}.

(** ** Browser primitives *)

(** [setTimeout(cb, _)]: the new id and the world with the timer pending. *)
Definition setTimeout (cb : Callback) (w : World) : positive * World :=
  (nextTimer w, set_timers (timers w ++ [(nextTimer w, cb)]) (Pos.succ (nextTimer w)) w).

Definition clearTimeout (id : positive) (w : World) : World :=
  set_timers (filter (fun t => negb (Pos.eqb (fst t) id)) (timers w)) (nextTimer w) w.

(** [audio.pause(); audio.currentTime = 0; audio.onended = null;
    audio.onerror = null]. *)
Definition silence (a : AudioEl) : AudioEl :=
  {| paused := true; currentTime := 0; src := src a; onended := None;
     onerror := None; onplaying := onplaying a; play_catch := play_catch a |}.

(** [audio.src = u; audio.play().catch(h)]: loading a new source rewinds
    the element, and [play] clears [paused]. *)
Definition load_and_play (u : Src) (h : Callback) (a : AudioEl) : AudioEl :=
  {| paused := false; currentTime := 0; src := u; onended := onended a;
     onerror := onerror a; onplaying := onplaying a; play_catch := Some h |}.

Definition with_onended (cb : option Callback) (a : AudioEl) : AudioEl :=
  {| paused := paused a; currentTime := currentTime a; src := src a;
     onended := cb; onerror := onerror a; onplaying := onplaying a;
     play_catch := play_catch a |}.

Definition with_onplaying (cb : option Callback) (a : AudioEl) : AudioEl :=
  {| paused := paused a; currentTime := currentTime a; src := src a;
     onended := onended a; onerror := onerror a; onplaying := cb;
     play_catch := play_catch a |}.

(** Playback reached the end of the media: the element is paused again. *)
Definition finished (a : AudioEl) : AudioEl :=
  {| paused := true; currentTime := currentTime a; src := src a;
     onended := onended a; onerror := onerror a; onplaying := onplaying a;
     play_catch := None |}.

(** [recognition.start()] throws when recognition is already active; the
    caller catches it and only logs a warning. *)
Definition rec_start (l : jsstring) (r : Recognizer) : Recognizer :=
  {| lang := l; listening := true |}.

Definition rec_stop (r : Recognizer) : Recognizer :=
  {| lang := lang r; listening := false |}.

(** ** Messages *)

Definition listeningMsg : jsstring := js "கேட்கிறது...".
Definition stoppedMsg : jsstring :=
  js "ஓதுதல் நிறுத்தப்பட்டது. மீண்டும் கேட்க, மைக்ரோஃபோனை அழுத்தவும்.".
Definition postRecitationMessage : jsstring :=
  js "ஓதுதல் முடிந்தது. அடுத்த சூராவின் பெயரைச் சொல்லுங்கள்.".
Definition surahNotFoundMsg : jsstring :=
  js "மன்னிக்கவும், அந்த சூராவை கண்டுபிடிக்க முடியவில்லை. மீண்டும் முயற்சிக்கவும்.".
Definition audioMissingMsg : jsstring :=
  js "ஆடியோ கோப்பு கிடைக்கவில்லை. தயவுசெய்து ஆடியோ கோப்பைச் சேர்க்கவும்.".
Definition duaNotFoundMsg : jsstring :=
  js "மன்னிக்கவும், அந்த துவாவைக் கண்டுபிடிக்க முடியவில்லை. மீண்டும் முயற்சிக்கவும்.".
Definition retryMsg : jsstring :=
  js "மன்னிக்கவும், எனக்குப் புரியவில்லை. மீண்டும் முயற்சிக்கவும்.".
Definition useButtonsMsg : jsstring :=
  js "மன்னிக்கவும், உங்கள் குரலை என்னால் கண்டறிய முடியவில்லை. திரையில் உள்ள பொத்தான்களைப் பயன்படுத்தவும்.".
Definition networkErrorMsg : jsstring :=
  js "ஒரு நெட்வொர்க் பிழை ஏற்பட்டது. உங்கள் இணைய இணைப்பைச் சரிபார்க்கவும்.".
Definition noSpeechMsg : jsstring :=
  js "நான் எதுவும் கேட்கவில்லை. தயவுசெய்து மீண்டும் பேச முயற்சிக்கவும்.".
Definition micDeniedMsg : jsstring :=
  js "மைக்ரோஃபோன் அணுகல் மறுக்கப்பட்டது. உங்கள் உலாவி அமைப்புகளில் அதை இயக்கவும்.".

Definition decimal (n : N) : jsstring := js (NilZero.string_of_uint (N.to_uint n)).

Definition recitingMsg (s : Surah) : jsstring :=
  js "ஓதப்படுகிறது: சூரா " ++ s_name s ++ js "...".
Definition nowRecitingMsg (s : Surah) : jsstring :=
  js "இப்போது ஓதப்படுவது: சூரா " ++ s_name s ++ js " (அத்தியாயம் "
  ++ decimal (s_number s) ++ js ")".

(** ** Playback and listening primitives *)

(** [stopListening], lines 62-66. *)
Definition stopListening (w : World) : World :=
  match recognitionRef w with
  | Some r => set_recognitionRef (Some (rec_stop r)) w
  | None => w
  end.

(** [stopPlayback], lines 68-93. [snap] is the state captured by the
    callback ([currentScreen] is its only dependency). *)
Definition stopPlayback (snap : State) (clearState : bool) (w : World) : World :=
  let w :=
    match playbackTimerRef w with
    | Some id => set_playbackTimerRef None (clearTimeout id w)
    | None => w
    end in
  let w :=
    match audioRef w with
    | Some a => set_audioRef (Some (silence a)) w
    | None => w
    end in
  let w :=
    match speechSynthesis w with
    | Some _ => set_speechSynthesis (Some false) w
    | None => w
    end in
  let w := setIsPlaying false w in
  if clearState then
    let w :=
      if negb (screen_eqb (currentScreen snap) duaPlayer)
      then setCurrentDua None w else w in
    if negb (screen_eqb (currentScreen snap) surah)
    then setCurrentSurah [] w else w
  else w.

Definition audio_is_playing (w : World) : bool :=
  match audioRef w with
  | Some a => negb (paused a)
  | None => false
  end.

(** [startListening], lines 95-120. *)
Definition startListening (snap : State) (force : bool) (w : World) : World :=
  if negb force && audio_is_playing w && negb (isWelcomeSequencePlaying w) then w
  else
    match recognitionRef w with
    | Some r =>
        let l :=
          if screen_eqb (currentScreen snap) landing
             || screen_eqb (currentScreen snap) duaList
          then js "ta-IN" else js "en-US" in
        let w := setTranscription [] w in
        let w :=
          if screen_eqb (currentScreen snap) duaList
          then setDuaMessage listeningMsg w
          else if negb (screen_eqb (currentScreen snap) welcome)
                  && negb (screen_eqb (currentScreen snap) landing)
          then setMessage listeningMsg w
          else w in
        let w := setIsListening true w in
        set_recognitionRef (Some (rec_start l r)) w
    | None => w
    end.

(** [goBackToDuaList], lines 122-129. *)
Definition goBackToDuaList (snap : State) (w : World) : World :=
  let w := stopPlayback snap true w in
  let w := stopListening w in
  let w := setCurrentDua None w in
  let w := setCurrentScreen duaList w in
  let w := setTranscription [] w in
  setDuaMessage [] w.

(** [handlePlaybackEnd], lines 131-177. *)
Definition handlePlaybackEnd (snap : State) (isManualStop : bool) (w : World) : World :=
  if postRecitationActionInProgress w then
    startListening snap true (set_postRecitationActionInProgress false w)
  else if isWelcomeSequencePlaying w then w
  else
    let wasPlayingSurah := truthy_str (currentSurah snap) in
    let wasPlayingDua := match currentDua snap with Some _ => true | None => false end in
    if isManualStop then
      let w := stopPlayback snap true w in
      let w :=
        if screen_eqb (currentScreen snap) surah then setMessage stoppedMsg w
        else if screen_eqb (currentScreen snap) duaPlayer then goBackToDuaList snap w
        else w in
      setTranscription [] w
    else if screen_eqb (currentScreen snap) surah && wasPlayingSurah then
      let w := stopPlayback snap true w in
      let w := set_postRecitationActionInProgress true w in
      let w := setMessage postRecitationMessage w in
      match audioRef w with
      | Some a =>
          set_audioRef
            (Some (load_and_play (Speech postRecitationMessage (js "ta"))
                     (CbPostRecitationFailed snap) a)) w
      | None =>
          startListening snap true (set_postRecitationActionInProgress false w)
      end
    else if screen_eqb (currentScreen snap) duaPlayer && wasPlayingDua then
      goBackToDuaList snap (stopPlayback snap true w)
    else w.

Section Content.

(** The built-in [toLowerCase], and the two static catalogues (imported
    from modules that are not part of the sources at hand) as the lists of
    their entries in [Object.keys] order. *)
Variable toLowerCase : jsstring -> jsstring.
Variable surahDatabase : list (jsstring * Surah).
Variable duaDatabase : list (jsstring * Dua).

(** [surahDatabase[key]]. *)
Fixpoint lookup_surah (key : jsstring) (db : list (jsstring * Surah)) : option Surah :=
  match db with
  | [] => None
  | (k, s) :: t => if str_eqb k key then Some s else lookup_surah key t
  end.

(** [playSurah], lines 179-207. *)
Definition playSurah (snap : State) (surahKey : jsstring) (w : World) : World :=
  match lookup_surah surahKey surahDatabase with
  | Some s =>
      let w := stopPlayback snap true w in
      let w := setCurrentSurah (s_name s) w in
      let w := setMessage (recitingMsg s) w in
      let w :=
        match audioRef w with
        | Some a =>
            let a := load_and_play (File (s_audio s)) CbSurahAudioFailed a in
            let a := with_onplaying (Some CbSetPlaying) a in
            let w := set_audioRef (Some a) w in
            let (id, w) := setTimeout (CbPlaybackTimeout snap) w in
            set_playbackTimerRef (Some id) w
        | None => w
        end in
      snd (setTimeout (CbAnnounceSurah s) w)
  | None => setMessage surahNotFoundMsg w
  end.

(** [keys.sort((a, b) => b.length - a.length)]: the sort is stable, so a
    key stays ahead of the later keys of the same length. *)
Fixpoint insert_key (x : jsstring) (l : list jsstring) : list jsstring :=
  match l with
  | [] => [x]
  | y :: t =>
      if (List.length x <? List.length y)%nat then y :: insert_key x t
      else x :: y :: t
  end.

Fixpoint sort_keys (l : list jsstring) : list jsstring :=
  match l with
  | [] => []
  | x :: t => insert_key x (sort_keys t)
  end.

Definition surahKeys : list jsstring := sort_keys (map fst surahDatabase).

(** The test of the [for] loop, lines 220-225. *)
Definition key_occurs (command key : jsstring) : bool :=
  includes (toLowerCase command) key
  || includes (toLowerCase command) (hyphens_to_spaces key).

(** [handleVoiceCommand], lines 215-231. *)
Definition handleVoiceCommand (snap : State) (command : jsstring) (w : World) : World :=
  if negb (truthy_str command) then w
  else
    match find (key_occurs command) surahKeys with
    | Some key =>
        if truthy_str key then playSurah snap key w
        else setMessage surahNotFoundMsg w
    | None => setMessage surahNotFoundMsg w
    end.

(** [selectDuaAndPlay], lines 251-254. *)
Definition selectDuaAndPlay (dua : Dua) (w : World) : World :=
  setCurrentScreen duaPlayer (setCurrentDua (Some dua) w).

Definition dua_matches (transcript : jsstring) (dua : Dua) : bool :=
  existsb (fun keyword => includes (toLowerCase transcript) (toLowerCase keyword))
    (d_keywords dua).

(** [handleDuaRequest], lines 256-266. *)
Definition handleDuaRequest (transcript : jsstring) (w : World) : World :=
  match find (dua_matches transcript) (map snd duaDatabase) with
  | Some dua => selectDuaAndPlay dua w
  | None => setDuaMessage duaNotFoundMsg w
  end.

Definition surahKeywords : list jsstring := [js "சூரா"; js "சுரா"; js "surah"].
Definition quizKeywords : list jsstring := [js "வினாடி வினா"; js "quiz"; js "vinadi vina"].
Definition duaKeywords : list jsstring := [js "துஆ"; js "துவா"; js "dua"].

Definition lowerCommand (command : jsstring) : jsstring :=
  trim (strip_punct (toLowerCase command)).

Definition navigate (screen : Screen) (w : World) : World :=
  setCurrentScreen screen (setFailedRecognitionAttempts 0 w).

(** [handleLandingCommand], lines 268-318. *)
Definition handleLandingCommand (snap : State) (command : jsstring) (w : World) : World :=
  let lc := lowerCommand command in
  if existsb (includes lc) surahKeywords then navigate surah w
  else if existsb (includes lc) quizKeywords then navigate quizRules w
  else if existsb (includes lc) duaKeywords then navigate duaList w
  else
    let newAttemptCount := (failedRecognitionAttempts snap + 1)%N in
    let w := setFailedRecognitionAttempts newAttemptCount w in
    let w := stopListening w in
    let errorMsg := if (newAttemptCount <? 3)%N then retryMsg else useButtonsMsg in
    let shouldListenAgain := (newAttemptCount <? 3)%N in
    match audioRef w with
    | Some a =>
        let a := load_and_play (Speech errorMsg (js "ta"))
                   (CbListenAgain shouldListenAgain snap) a in
        let a := with_onended (Some (CbListenAgain shouldListenAgain snap)) a in
        set_audioRef (Some a) w
    | None =>
        if shouldListenAgain then startListening snap false w else w
    end.

(** [handleWelcomeCommand], lines 209-213. *)
Definition handleWelcomeCommand (command : jsstring) (w : World) : World :=
  if includes (toLowerCase command) (js "continue") then setCurrentScreen landing w
  else w.

(** ** The recognizer's handlers, lines 571-609 *)

Inductive RecognitionError :=
| no_speech | audio_capture | network | not_allowed | service_not_allowed
| aborted | other_error.

(** [onresult]: [heard] is [event.results[0][0].transcript]. *)
Definition recognition_onresult (snap : State) (heard : jsstring) (w : World) : World :=
  let transcript := trim (toLowerCase heard) in
  let w := setTranscription transcript w in
  match currentScreen snap with
  | welcome => handleWelcomeCommand transcript w
  | surah => handleVoiceCommand snap transcript w
  | duaList => handleDuaRequest transcript w
  | landing => handleLandingCommand snap transcript w
  | _ => w
  end.

Definition recognition_onerror (snap : State) (e : RecognitionError) (w : World) : World :=
  let w := setIsListening false w in
  let retry :=
    match currentScreen snap, e with
    | landing, no_speech | landing, audio_capture => true
    | _, _ => false
    end in
  if retry then handleLandingCommand snap [] w
  else
    let errorMessage :=
      match e with
      | network => networkErrorMsg
      | no_speech => noSpeechMsg
      | not_allowed | service_not_allowed => micDeniedMsg
      | _ => retryMsg
      end in
    match currentScreen snap with
    | duaList => setDuaMessage errorMessage w
    | surah => setMessage errorMessage w
    | _ => w
    end.

Definition recognition_onend (w : World) : World := setIsListening false w.

(** ** Events *)

(** Running a stored closure. *)
Definition run_callback (cb : Callback) (w : World) : World :=
  match cb with
  | CbListenAgain again snap => if again then startListening snap false w else w
  | CbSetPlaying => setIsPlaying true w
  | CbPostRecitationFailed snap =>
      startListening snap true (set_postRecitationActionInProgress false w)
  | CbSurahAudioFailed => setMessage audioMissingMsg w
  | CbPlaybackTimeout snap =>
      if audio_is_playing w then handlePlaybackEnd snap false w else w
  | CbAnnounceSurah s => setMessage (nowRecitingMsg s) w
  end.

(** The audio element fires [ended]: playback is over, the [onEnded] prop
    of the element (line 946, the closure of the current render) runs, then
    whatever [audio.onended] holds at that point. *)
Definition audio_ended (w : World) : World :=
  match audioRef w with
  | Some a =>
      let w := set_audioRef (Some (finished a)) w in
      let w := handlePlaybackEnd (state w) false w in
      match audioRef w with
      | Some a' =>
          match onended a' with
          | Some cb => run_callback cb w
          | None => w
          end
      | None => w
      end
  | None => w
  end.

(** The audio element fires [playing]. *)
Definition audio_playing (w : World) : World :=
  match audioRef w with
  | Some a =>
      match onplaying a with
      | Some cb => run_callback cb w
      | None => w
      end
  | None => w
  end.

(** A click on a surah button (line 775) and on the round button of the
    surah screen (line 790). *)
Definition click_surah (key : jsstring) (w : World) : World :=
  playSurah (state w) key w.

Definition click_round_button (w : World) : World :=
  if isPlaying (state w) then handlePlaybackEnd (state w) true w
  else startListening (state w) true w.

End Content.

(** ** Going back to the landing screen *)

(** [goBack], lines 618-627; [snap] is the state [stopPlayback] captured. *)
Definition goBack (snap : State) (w : World) : World :=
  let w := stopPlayback snap true w in
  let w := stopListening w in
  let w := setCurrentScreen landing w in
  let w := setTranscription [] w in
  let w := setMessage [] w in
  let w := setDuaMessage [] w in
  let w := setCurrentDua None w in
  setIsListening false w.

(** ** The buttons of the surah screen *)

Section SurahList.

Variable surahDatabase : list (jsstring * Surah).

(** The loop of lines 632-637: an entry whose number is not in
    [seenNumbers] is kept, as [{ ...surah, key }], and its number joins
    the set. *)
Fixpoint first_of_each_number (seenNumbers : list N)
  (entries : list (jsstring * Surah)) : list (jsstring * Surah) :=
  match entries with
  | [] => []
  | (key, s) :: rest =>
      if existsb (N.eqb (s_number s)) seenNumbers
      then first_of_each_number seenNumbers rest
      else (key, s) :: first_of_each_number (s_number s :: seenNumbers) rest
  end.

(** [result.sort((a, b) => a.number - b.number)]: ascending, and stable. *)
Fixpoint insert_by_number (x : jsstring * Surah) (l : list (jsstring * Surah)) :
  list (jsstring * Surah) :=
  match l with
  | [] => [x]
  | y :: t =>
      if (s_number (snd y) <? s_number (snd x))%N then y :: insert_by_number x t
      else x :: y :: t
  end.

Fixpoint sort_by_number (l : list (jsstring * Surah)) : list (jsstring * Surah) :=
  match l with
  | [] => []
  | x :: t => insert_by_number x (sort_by_number t)
  end.

(** [uniqueSurahs], lines 629-639. *)
Definition uniqueSurahs : list (jsstring * Surah) :=
  sort_by_number (first_of_each_number [] surahDatabase).

End SurahList.

(** ** The effect that owns the recognizer, lines 551-616 *)

(** A [new SpeechRecognition()]: not started, [lang] still empty. *)
Definition new_recognizer : Recognizer := {| lang := []; listening := false |}.

(** The body of the effect for a render that captured [snap];
    [supported] tells whether the browser has [SpeechRecognition] or
    [webkitSpeechRecognition].  The handlers it assigns are the closures
    of that render: [recognition_onresult snap] and the like. *)
Definition recognition_effect (snap : State) (supported : bool) (w : World) : World :=
  match currentScreen snap with
  | quiz | initial => set_recognitionRef None (stopListening w)
  | quizRules | duaPlayer => stopListening w
  | _ =>
      if supported then
        match recognitionRef w with
        | Some _ => w
        | None => set_recognitionRef (Some new_recognizer) w
        end
      else w
  end.

(** The cleanup the effect returned; the early [return] of line 560
    returns none. *)
Definition recognition_cleanup (snap : State) (w : World) : World :=
  match currentScreen snap with
  | quiz | quizRules | initial | duaPlayer => w
  | _ =>
      let w := stopListening w in
      match speechSynthesis w with
      | Some _ => set_speechSynthesis (Some false) w
      | None => w
      end
  end.


End App.

(* ================================================================== *)
(** * The quiz screen ([components/QuizScreen]) *)

Module Quiz.
Import JS.

(** ** Data and React state *)

Record QuizQuestion := {
  question : jsstring;
  options : list jsstring;
  correctAnswer : Z
}.

Inductive GameState := playing | finished.
Inductive Status := idle | listening | speaking.
Inductive FeedbackType := correct | incorrect | final_incorrect.

(** The [useState] cells, lines 35-45.  [sessionQuestions] holds an array:
    [questionsArray] is the identity of that object, which is what React
    compares when it looks whether the state or a dependency changed. *)
Record State := {
  gameState : GameState;
  sessionQuestions : list QuizQuestion;
  currentQuestionIndex : nat;
  selectedAnswer : option Z;
  isCorrect : option bool;
  score : Z;
  attemptsLeft : Z;
  isScored : bool;
  status : Status;
  transcript : jsstring;
  questionTrigger : nat;
  questionsArray : nat
}.

Definition initial_state : State :=
  {| gameState := playing; sessionQuestions := []; currentQuestionIndex := 0;
     selectedAnswer := None; isCorrect := None; score := 0; attemptsLeft := 3;
     isScored := false; status := idle; transcript := []; questionTrigger := 0;
     questionsArray := 0 |}.

Definition State_eq_dec (a b : State) : {a = b} + {a <> b}.
Proof. repeat decide equality. Defined.

Definition state_eqb (a b : State) : bool :=
  if State_eq_dec a b then true else false.

Definition status_eqb (a b : Status) : bool :=
  match a, b with
  | idle, idle | listening, listening | speaking, speaking => true
  | _, _ => false
  end.

Definition is_null {A} (o : option A) : bool :=
  match o with None => true | Some _ => false end.

(** ** Browser objects *)

(** The closures the component stores in the audio element ([onended],
    [onerror] and the catch of [play()]) and those it hands to
    [setTimeout].  A constructor carries the state captured by the
    callback that built the closure, when the closure reads any. *)
Inductive AudioCallback :=
| CbFeedbackEnd (type : FeedbackType) (snap : State)
    (* onAudioEnd of playFeedbackAudio, lines 121-140 *)
| CbQuestionEnd
    (* onAudioEnd of playQuestionAudio, lines 190-200 *)
| CbFailureEnd
    (* onAudioEnd of handleRecognitionFailure, lines 228-238 *)
| CbInvalidEnd
    (* onAudioEnd of playInvalidAnswerFeedback, lines 337-347 *)
| CbScoreEnd.
    (* onAudioEnd of the scorecard effect, lines 299-303 *)

Inductive TimerCallback :=
| CbListen
    (* () => { if (isMountedRef.current && startListeningRef.current)
                 startListeningRef.current(); } *)
| CbProceedToNext (snap : State)
    (* proceedToNext handed to setTimeout, lines 127 and 138 *)
| CbPlayScore.
    (* the 200 ms timer of the scorecard effect, lines 314-318 *)

Inductive Src :=
| NoSrc
| Speech (text lang : jsstring).

Record AudioEl := {
  paused : bool;
  src : Src;
  onended : option AudioCallback;
  onerror : option AudioCallback;
  play_catch : option AudioCallback   (* rejection handler of the last play() *)
}.

(** A [SpeechRecognition] object: idle, listening, or stopped with its
    [end] event still to come.  [handlers] is the state captured by the
    [onresult], [onend] and [onerror] closures assigned to it. *)
Inductive Activity := rec_idle | rec_active | rec_ending.

Record Recognizer := { activity : Activity; handlers : State }.

(** The component instance: its state cells ([state], what the [setX]
    calls write), the state seen by the last render ([rendered], what the
    closures of that render captured), its refs, every recognizer object
    created so far and the pending timers. *)
Record World := {
  state : State;
  rendered : State;
  audioRef : option AudioEl;
  recognitionRef : option nat;
  recognizers : list Recognizer;
  timeoutRef : option positive;
  timers : list (positive * TimerCallback);
  nextTimer : positive;
  isMountedRef : bool;
  startListeningRef : option State;
  resultProcessedRef : bool;
  playbackTimeout : option positive;
  hasSpeechRecognition : bool
}.

(** ** Field updates *)

Definition on_state (f : State -> State) (w : World) : World :=
  {| state := f (state w); rendered := rendered w; audioRef := audioRef w;
     recognitionRef := recognitionRef w; recognizers := recognizers w;
     timeoutRef := timeoutRef w; timers := timers w; nextTimer := nextTimer w;
     isMountedRef := isMountedRef w; startListeningRef := startListeningRef w;
     resultProcessedRef := resultProcessedRef w;
     playbackTimeout := playbackTimeout w;
     hasSpeechRecognition := hasSpeechRecognition w |}.

Definition setGameState v : World -> World :=
  on_state (fun s =>
    {| gameState := v; sessionQuestions := sessionQuestions s;
       currentQuestionIndex := currentQuestionIndex s;
       selectedAnswer := selectedAnswer s; isCorrect := isCorrect s;
       score := score s; attemptsLeft := attemptsLeft s; isScored := isScored s;
       status := status s; transcript := transcript s;
       questionTrigger := questionTrigger s;
       questionsArray := questionsArray s |}).

(** [setSessionQuestions], given an array made for the call, as
    [shuffled.slice(0, 5)] of line 257 is: an object that is none of those
    the cell has held. *)
Definition setSessionQuestions v : World -> World :=
  on_state (fun s =>
    {| gameState := gameState s; sessionQuestions := v;
       currentQuestionIndex := currentQuestionIndex s;
       selectedAnswer := selectedAnswer s; isCorrect := isCorrect s;
       score := score s; attemptsLeft := attemptsLeft s; isScored := isScored s;
       status := status s; transcript := transcript s;
       questionTrigger := questionTrigger s;
       questionsArray := S (questionsArray s) |}).

(** [setCurrentQuestionIndex], given the updater function. *)
Definition setCurrentQuestionIndex (f : nat -> nat) : World -> World :=
  on_state (fun s =>
    {| gameState := gameState s; sessionQuestions := sessionQuestions s;
       currentQuestionIndex := f (currentQuestionIndex s);
       selectedAnswer := selectedAnswer s; isCorrect := isCorrect s;
       score := score s; attemptsLeft := attemptsLeft s; isScored := isScored s;
       status := status s; transcript := transcript s;
       questionTrigger := questionTrigger s;
       questionsArray := questionsArray s |}).

Definition setSelectedAnswer v : World -> World :=
  on_state (fun s =>
    {| gameState := gameState s; sessionQuestions := sessionQuestions s;
       currentQuestionIndex := currentQuestionIndex s;
       selectedAnswer := v; isCorrect := isCorrect s;
       score := score s; attemptsLeft := attemptsLeft s; isScored := isScored s;
       status := status s; transcript := transcript s;
       questionTrigger := questionTrigger s;
       questionsArray := questionsArray s |}).

Definition setIsCorrect v : World -> World :=
  on_state (fun s =>
    {| gameState := gameState s; sessionQuestions := sessionQuestions s;
       currentQuestionIndex := currentQuestionIndex s;
       selectedAnswer := selectedAnswer s; isCorrect := v;
       score := score s; attemptsLeft := attemptsLeft s; isScored := isScored s;
       status := status s; transcript := transcript s;
       questionTrigger := questionTrigger s;
       questionsArray := questionsArray s |}).

(** [setScore], given the updater function. *)
Definition setScore (f : Z -> Z) : World -> World :=
  on_state (fun s =>
    {| gameState := gameState s; sessionQuestions := sessionQuestions s;
       currentQuestionIndex := currentQuestionIndex s;
       selectedAnswer := selectedAnswer s; isCorrect := isCorrect s;
       score := f (score s); attemptsLeft := attemptsLeft s;
       isScored := isScored s; status := status s; transcript := transcript s;
       questionTrigger := questionTrigger s;
       questionsArray := questionsArray s |}).

Definition setAttemptsLeft v : World -> World :=
  on_state (fun s =>
    {| gameState := gameState s; sessionQuestions := sessionQuestions s;
       currentQuestionIndex := currentQuestionIndex s;
       selectedAnswer := selectedAnswer s; isCorrect := isCorrect s;
       score := score s; attemptsLeft := v; isScored := isScored s;
       status := status s; transcript := transcript s;
       questionTrigger := questionTrigger s;
       questionsArray := questionsArray s |}).

Definition setIsScored v : World -> World :=
  on_state (fun s =>
    {| gameState := gameState s; sessionQuestions := sessionQuestions s;
       currentQuestionIndex := currentQuestionIndex s;
       selectedAnswer := selectedAnswer s; isCorrect := isCorrect s;
       score := score s; attemptsLeft := attemptsLeft s; isScored := v;
       status := status s; transcript := transcript s;
       questionTrigger := questionTrigger s;
       questionsArray := questionsArray s |}).

Definition setStatus v : World -> World :=
  on_state (fun s =>
    {| gameState := gameState s; sessionQuestions := sessionQuestions s;
       currentQuestionIndex := currentQuestionIndex s;
       selectedAnswer := selectedAnswer s; isCorrect := isCorrect s;
       score := score s; attemptsLeft := attemptsLeft s; isScored := isScored s;
       status := v; transcript := transcript s;
       questionTrigger := questionTrigger s;
       questionsArray := questionsArray s |}).

Definition setTranscript v : World -> World :=
  on_state (fun s =>
    {| gameState := gameState s; sessionQuestions := sessionQuestions s;
       currentQuestionIndex := currentQuestionIndex s;
       selectedAnswer := selectedAnswer s; isCorrect := isCorrect s;
       score := score s; attemptsLeft := attemptsLeft s; isScored := isScored s;
       status := status s; transcript := v;
       questionTrigger := questionTrigger s;
       questionsArray := questionsArray s |}).

(** [setQuestionTrigger], given the updater function. *)
Definition setQuestionTrigger (f : nat -> nat) : World -> World :=
  on_state (fun s =>
    {| gameState := gameState s; sessionQuestions := sessionQuestions s;
       currentQuestionIndex := currentQuestionIndex s;
       selectedAnswer := selectedAnswer s; isCorrect := isCorrect s;
       score := score s; attemptsLeft := attemptsLeft s; isScored := isScored s;
       status := status s; transcript := transcript s;
       questionTrigger := f (questionTrigger s);
       questionsArray := questionsArray s |}).

Definition set_rendered v (w : World) : World :=
  {| state := state w; rendered := v; audioRef := audioRef w;
     recognitionRef := recognitionRef w; recognizers := recognizers w;
     timeoutRef := timeoutRef w; timers := timers w; nextTimer := nextTimer w;
     isMountedRef := isMountedRef w; startListeningRef := startListeningRef w;
     resultProcessedRef := resultProcessedRef w;
     playbackTimeout := playbackTimeout w;
     hasSpeechRecognition := hasSpeechRecognition w |}.

Definition set_audioRef v (w : World) : World :=
  {| state := state w; rendered := rendered w; audioRef := v;
     recognitionRef := recognitionRef w; recognizers := recognizers w;
     timeoutRef := timeoutRef w; timers := timers w; nextTimer := nextTimer w;
     isMountedRef := isMountedRef w; startListeningRef := startListeningRef w;
     resultProcessedRef := resultProcessedRef w;
     playbackTimeout := playbackTimeout w;
     hasSpeechRecognition := hasSpeechRecognition w |}.

Definition set_recognition ref rs (w : World) : World :=
  {| state := state w; rendered := rendered w; audioRef := audioRef w;
     recognitionRef := ref; recognizers := rs;
     timeoutRef := timeoutRef w; timers := timers w; nextTimer := nextTimer w;
     isMountedRef := isMountedRef w; startListeningRef := startListeningRef w;
     resultProcessedRef := resultProcessedRef w;
     playbackTimeout := playbackTimeout w;
     hasSpeechRecognition := hasSpeechRecognition w |}.

Definition set_timeoutRef v (w : World) : World :=
  {| state := state w; rendered := rendered w; audioRef := audioRef w;
     recognitionRef := recognitionRef w; recognizers := recognizers w;
     timeoutRef := v; timers := timers w; nextTimer := nextTimer w;
     isMountedRef := isMountedRef w; startListeningRef := startListeningRef w;
     resultProcessedRef := resultProcessedRef w;
     playbackTimeout := playbackTimeout w;
     hasSpeechRecognition := hasSpeechRecognition w |}.

Definition set_timers v n (w : World) : World :=
  {| state := state w; rendered := rendered w; audioRef := audioRef w;
     recognitionRef := recognitionRef w; recognizers := recognizers w;
     timeoutRef := timeoutRef w; timers := v; nextTimer := n;
     isMountedRef := isMountedRef w; startListeningRef := startListeningRef w;
     resultProcessedRef := resultProcessedRef w;
     playbackTimeout := playbackTimeout w;
     hasSpeechRecognition := hasSpeechRecognition w |}.

Definition set_isMountedRef v (w : World) : World :=
  {| state := state w; rendered := rendered w; audioRef := audioRef w;
     recognitionRef := recognitionRef w; recognizers := recognizers w;
     timeoutRef := timeoutRef w; timers := timers w; nextTimer := nextTimer w;
     isMountedRef := v; startListeningRef := startListeningRef w;
     resultProcessedRef := resultProcessedRef w;
     playbackTimeout := playbackTimeout w;
     hasSpeechRecognition := hasSpeechRecognition w |}.

Definition set_startListeningRef v (w : World) : World :=
  {| state := state w; rendered := rendered w; audioRef := audioRef w;
     recognitionRef := recognitionRef w; recognizers := recognizers w;
     timeoutRef := timeoutRef w; timers := timers w; nextTimer := nextTimer w;
     isMountedRef := isMountedRef w; startListeningRef := v;
     resultProcessedRef := resultProcessedRef w;
     playbackTimeout := playbackTimeout w;
     hasSpeechRecognition := hasSpeechRecognition w |}.

Definition set_resultProcessedRef v (w : World) : World :=
  {| state := state w; rendered := rendered w; audioRef := audioRef w;
     recognitionRef := recognitionRef w; recognizers := recognizers w;
     timeoutRef := timeoutRef w; timers := timers w; nextTimer := nextTimer w;
     isMountedRef := isMountedRef w; startListeningRef := startListeningRef w;
     resultProcessedRef := v;
     playbackTimeout := playbackTimeout w;
     hasSpeechRecognition := hasSpeechRecognition w |}.

Definition set_playbackTimeout v (w : World) : World :=
  {| state := state w; rendered := rendered w; audioRef := audioRef w;
     recognitionRef := recognitionRef w; recognizers := recognizers w;
     timeoutRef := timeoutRef w; timers := timers w; nextTimer := nextTimer w;
     isMountedRef := isMountedRef w; startListeningRef := startListeningRef w;
     resultProcessedRef := resultProcessedRef w;
     playbackTimeout := v;
     hasSpeechRecognition := hasSpeechRecognition w |}.

(** ** Browser primitives *)

Definition setTimeout (cb : TimerCallback) (w : World) : positive * World :=
  (nextTimer w,
   set_timers (timers w ++ [(nextTimer w, cb)]) (Pos.succ (nextTimer w)) w).

Definition clearTimeout (id : positive) (w : World) : World :=
  set_timers (filter (fun t => negb (Pos.eqb (fst t) id)) (timers w))
    (nextTimer w) w.

(** [timeoutRef.current = setTimeout(cb, _)]. *)
Definition setTrackedTimeout (cb : TimerCallback) (w : World) : World :=
  let (id, w) := setTimeout cb w in set_timeoutRef (Some id) w.

(** [audio.src = u; audio.onended = cb; audio.onerror = (log, then cb);
    audio.play().catch(log, then cb)]. *)
Definition speak (u : Src) (cb : AudioCallback) (a : AudioEl) : AudioEl :=
  {| paused := false; src := u; onended := Some cb; onerror := Some cb;
     play_catch := Some cb |}.

(** [audio.pause(); audio.onended = null; audio.onerror = null;
    audio.src = '']. *)
Definition hush (a : AudioEl) : AudioEl :=
  {| paused := true; src := NoSrc; onended := None; onerror := None;
     play_catch := play_catch a |}.

(** [audio.onended = null; audio.onerror = null]. *)
Definition detach (a : AudioEl) : AudioEl :=
  {| paused := paused a; src := src a; onended := None; onerror := None;
     play_catch := play_catch a |}.

Definition fresh_audio : AudioEl :=
  {| paused := true; src := NoSrc; onended := None; onerror := None;
     play_catch := None |}.

Fixpoint update_nth {A} (n : nat) (f : A -> A) (l : list A) : list A :=
  match l, n with
  | [], _ => []
  | x :: t, O => f x :: t
  | x :: t, S m => x :: update_nth m f t
  end.

Definition with_activity (a : Activity) (r : Recognizer) : Recognizer :=
  {| activity := a; handlers := handlers r |}.

(** [recognition.abort()]: an idle recognizer stays idle; a listening one
    stops and owes its [end] event. *)
Definition abort (r : Recognizer) : Recognizer :=
  match activity r with
  | rec_idle => r
  | _ => with_activity rec_ending r
  end.

Definition tts (text : jsstring) : Src := Speech text (js "ta").

(** ** Spoken texts *)

Definition correctLastMsg : jsstring := js "சரியான பதில்".
Definition correctNextMsg : jsstring :=
  js "சரியான பதில். அடுத்த கேள்விக்கு தயாராகுங்கள்".
Definition incorrectMsg : jsstring := js "தவறான பதில், மீண்டும் முயற்சிக்கவும்".
Definition finalIncorrectMsg (correctOptionText : jsstring) : jsstring :=
  js "தவறான பதில். சரியான பதில், " ++ correctOptionText.
Definition notHeardMsg : jsstring :=
  js "மன்னிக்கவும், எனக்கு சரியாக கேட்கவில்லை. மீண்டும் முயற்சிக்கவும்.".
Definition invalidAnswerMsg : jsstring :=
  js "பதிலளிக்க 'ஆப்ஷன் ஒன்று' அல்லது 'ஆப்ஷன் 1' என்பது போன்று கூறவும்.".
Definition youSaid (recognizedText : jsstring) : jsstring :=
  js "நீங்கள் கூறியது: " ++ recognizedText.

Definition decimal (n : Z) : jsstring :=
  js (NilZero.string_of_int (Z.to_int n)).

Definition scoreMsg (scorePercent : Z) : jsstring :=
  js "நீங்கள் " ++ decimal scorePercent
  ++ js " சதவீதம் மதிப்பெண் பெற்றுள்ளீர்கள். வாழ்த்துக்கள்!".


(** ** Callbacks of the component *)

Definition current_question (s : State) : option QuizQuestion :=
  nth_error (sessionQuestions s) (currentQuestionIndex s).

(** [question.options[question.correctAnswer]]; an index outside the
    array yields [undefined], which a template literal prints as such. *)
Definition correct_option_text (q : QuizQuestion) : jsstring :=
  if (correctAnswer q <? 0)%Z then js "undefined"
  else nth (Z.to_nat (correctAnswer q)) (options q) (js "undefined").

(** [stopAllActivity], lines 54-68. *)
Definition stopAllActivity (w : World) : World :=
  let w :=
    match timeoutRef w with
    | Some id => clearTimeout id w
    | None => w
    end in
  let w :=
    match recognitionRef w with
    | Some k => set_recognition (Some k) (update_nth k abort (recognizers w)) w
    | None => w
    end in
  let w :=
    match audioRef w with
    | Some a => if negb (paused a) then set_audioRef (Some (hush a)) w else w
    | None => w
    end in
  if isMountedRef w then setStatus idle w else w.

(** [proceedToNext], lines 70-78. *)
Definition proceedToNext (snap : State) (w : World) : World :=
  let w := stopAllActivity w in
  if (Z.of_nat (currentQuestionIndex snap)
      <? Z.of_nat (List.length (sessionQuestions snap)) - 1)%Z
  then setQuestionTrigger S (setCurrentQuestionIndex S w)
  else if isMountedRef w then setGameState finished w else w.

(** [startListening], lines 80-90.  [start()] throws on a recognizer that
    is not idle; the catch puts the status back to 'idle'. *)
Definition startListening (snap : State) (w : World) : World :=
  if negb (isMountedRef w) || is_null (recognitionRef w)
     || negb (status_eqb (status snap) idle)
     || negb (is_null (selectedAnswer snap))
  then w
  else
    let w := set_resultProcessedRef false w in
    let w := setTranscript [] w in
    let w := setStatus listening w in
    match recognitionRef w with
    | Some k =>
        match nth_error (recognizers w) k with
        | Some r =>
            match activity r with
            | rec_idle =>
                set_recognition (Some k)
                  (update_nth k (with_activity rec_active) (recognizers w)) w
            | _ => if isMountedRef w then setStatus idle w else w
            end
        | None => w
        end
    | None => w
    end.

Definition say (text : jsstring) (cb : AudioCallback) (w : World) : World :=
  match audioRef w with
  | Some a => set_audioRef (Some (speak (tts text) cb a)) w
  | None => w
  end.

(** [playFeedbackAudio], lines 96-152.  With no current question the read
    of [currentQ.options] throws and the callback ends there. *)
Definition playFeedbackAudio (snap : State) (type : FeedbackType) (w : World) : World :=
  match audioRef w with
  | None => w
  | Some _ =>
      let w := stopAllActivity w in
      let w := setStatus speaking w in
      match current_question snap with
      | None => w
      | Some currentQ =>
          let text :=
            match type with
            | correct =>
                if (Z.of_nat (currentQuestionIndex snap)
                    =? Z.of_nat (List.length (sessionQuestions snap)) - 1)%Z
                then correctLastMsg else correctNextMsg
            | incorrect => incorrectMsg
            | final_incorrect => finalIncorrectMsg (correct_option_text currentQ)
            end in
          say text (CbFeedbackEnd type snap) w
      end
  end.

(** [handleSelectAnswer], lines 154-178. *)
Definition handleSelectAnswer (snap : State) (index : Z) (w : World) : World :=
  if negb (is_null (selectedAnswer snap)) then w
  else
    let w := stopAllActivity w in
    let w := setSelectedAnswer (Some index) w in
    match current_question snap with
    | None => w
    | Some question =>
        let isAnswerCorrect := (index =? correctAnswer question)%Z in
        let w := setIsCorrect (Some isAnswerCorrect) w in
        if isAnswerCorrect then
          let w :=
            if negb (isScored snap)
            then setIsScored true (setScore (fun s => s + 1)%Z w)
            else w in
          playFeedbackAudio snap correct w
        else
          let newAttemptsLeft := (attemptsLeft snap - 1)%Z in
          let w := setAttemptsLeft newAttemptsLeft w in
          if (0 <? newAttemptsLeft)%Z
          then playFeedbackAudio snap incorrect w
          else playFeedbackAudio snap final_incorrect w
    end.

(** [playQuestionAudio], lines 180-211. *)
Definition playQuestionAudio (q : QuizQuestion) (w : World) : World :=
  match audioRef w with
  | None => w
  | Some _ =>
      let w := stopAllActivity w in
      let w := setStatus speaking w in
      say (question q) CbQuestionEnd w
  end.

(** [handleRecognitionFailure], lines 213-252. *)
Definition handleRecognitionFailure (snap : State) (w : World) : World :=
  if negb (is_null (selectedAnswer snap)) || negb (isMountedRef w) then w
  else
    let w := stopAllActivity w in
    let newAttemptsLeft := (attemptsLeft snap - 1)%Z in
    let w := setAttemptsLeft newAttemptsLeft w in
    if (0 <? newAttemptsLeft)%Z then
      match audioRef w with
      | None => w
      | Some _ => say notHeardMsg CbFailureEnd (setStatus speaking w)
      end
    else playFeedbackAudio snap final_incorrect w.

(** [startNewQuiz], lines 254-262.  [shuffled] is the outcome of the
    randomly ordered sort of the question bank. *)
Definition startNewQuiz (shuffled : list QuizQuestion) (w : World) : World :=
  let w := stopAllActivity w in
  let w := setSessionQuestions (firstn 5 shuffled) w in
  let w := setCurrentQuestionIndex (fun _ => O) w in
  let w := setQuestionTrigger (fun _ => O) w in
  let w := setScore (fun _ => 0%Z) w in
  setGameState playing w.

(** [playInvalidAnswerFeedback], lines 326-359. *)
Definition playInvalidAnswerFeedback (w : World) : World :=
  match audioRef w with
  | None => w
  | Some _ =>
      let w := stopAllActivity w in
      let w := setStatus speaking w in
      say invalidAnswerMsg CbInvalidEnd w
  end.

(** JavaScript numbers are IEEE 754 doubles: 53 bits of precision, every
    operation rounded to the nearest double, ties to even. *)
Definition double (z : Z) : SpecFloat.spec_float :=
  SpecFloat.binary_normalize 53 1024 z 0 false.

Definition double_div (x y : SpecFloat.spec_float) : SpecFloat.spec_float :=
  SpecFloat.SFdiv 53 1024 x y.

Definition double_mul (x y : SpecFloat.spec_float) : SpecFloat.spec_float :=
  SpecFloat.SFmul 53 1024 x y.

(** [Math.round]: the integer nearest to the double [(-1)^s * m * 2^e],
    halves going up, that is the floor of [x + 1/2] taken exactly.  NaN
    and the infinities are no integers; they stand as 0 here, and
    [round_percent] meets them only for a length of 0 or a score beyond
    10^300. *)
Definition Math_round (x : SpecFloat.spec_float) : Z :=
  match x with
  | SpecFloat.S754_finite s m e =>
      let n := if s then Zneg m else Zpos m in
      match e with
      | Zneg k => ((2 * n + 2 ^ Zpos k) / (2 * 2 ^ Zpos k))%Z
      | _ => (n * 2 ^ e)%Z
      end
  | _ => 0%Z
  end.

(** [Math.round((score / length) * 100)], lines 293 and 439: the quotient
    is rounded to a double before it is multiplied. *)
Definition round_percent (score length : Z) : Z :=
  Math_round (double_mul (double_div (double score) (double length)) (double 100)).

(** [scorePercent], line 439. *)
Definition scorePercent (s : State) : Z :=
  if (0 <? List.length (sessionQuestions s))%nat
  then round_percent (score s) (Z.of_nat (List.length (sessionQuestions s)))
  else 0%Z.

Section Recognition.

Variable toLowerCase : jsstring -> jsstring.

(** The option named by a transcript, lines 387-402; -1 when none is. *)
Definition answer_index (cleanTranscript : jsstring) : Z :=
  let lowerCleanTranscript := toLowerCase cleanTranscript in
  let hasOne := includes lowerCleanTranscript (js "one")
                || includes cleanTranscript (js "ஒன்று")
                || includes cleanTranscript (js "1") in
  let hasTwo := includes lowerCleanTranscript (js "two")
                || includes cleanTranscript (js "இரண்டு")
                || includes cleanTranscript (js "2") in
  let hasThree := includes lowerCleanTranscript (js "three")
                  || includes cleanTranscript (js "மூன்று")
                  || includes cleanTranscript (js "3") in
  let hasFour := includes lowerCleanTranscript (js "four")
                 || includes cleanTranscript (js "நான்கு")
                 || includes cleanTranscript (js "4") in
  if hasOne then 0%Z
  else if hasTwo then 1%Z
  else if hasThree then 2%Z
  else if hasFour then 3%Z
  else (-1)%Z.

(** [onresult], lines 370-409; [snap] is the state captured when the
    effect assigned the handler. *)
Definition recognition_onresult (snap : State) (recognizedText : jsstring)
  (w : World) : World :=
  if negb (isMountedRef w) || negb (is_null (selectedAnswer snap)) then w
  else
    let w := set_resultProcessedRef true w in
    let w := setTranscript (youSaid recognizedText) w in
    let cleanTranscript := strip_punct (trim recognizedText) in
    let lowerCleanTranscript := toLowerCase cleanTranscript in
    if str_eqb lowerCleanTranscript (js "option")
       || str_eqb cleanTranscript (js "ஆப்ஷன்")
    then handleRecognitionFailure snap w
    else
      match current_question snap with
      | None => w
      | Some _ =>
          let answerIndex := answer_index cleanTranscript in
          if (-1 <? answerIndex)%Z then handleSelectAnswer snap answerIndex w
          else playInvalidAnswerFeedback w
      end.

(** [onend], lines 411-423. *)
Definition recognition_onend (snap : State) (w : World) : World :=
  if isMountedRef w && status_eqb (status snap) listening then
    if negb (resultProcessedRef w) then handleRecognitionFailure snap w
    else setStatus idle w
  else w.

(** [onerror], lines 425-433: it logs. *)
Definition recognition_onerror (snap : State) (w : World) : World := w.

(** ** Stored closures *)

Definition detach_handlers (w : World) : World :=
  match audioRef w with
  | Some a => set_audioRef (Some (detach a)) w
  | None => w
  end.

Definition run_audio_callback (cb : AudioCallback) (w : World) : World :=
  match cb with
  | CbFeedbackEnd type snap =>
      let w := detach_handlers w in
      if negb (isMountedRef w) then w
      else
        match type with
        | correct => setTrackedTimeout (CbProceedToNext snap) w
        | incorrect =>
            let w := setSelectedAnswer None w in
            let w := setIsCorrect None w in
            let w := setStatus idle w in
            setTrackedTimeout CbListen w
        | final_incorrect => setTrackedTimeout (CbProceedToNext snap) w
        end
  | CbQuestionEnd =>
      let w := detach_handlers w in
      if negb (isMountedRef w) then w
      else snd (setTimeout CbListen (setStatus idle w))
  | CbFailureEnd | CbInvalidEnd =>
      let w := detach_handlers w in
      if negb (isMountedRef w) then w
      else setTrackedTimeout CbListen (setStatus idle w)
  | CbScoreEnd =>
      let w := if isMountedRef w then setStatus idle w else w in
      detach_handlers w
  end.

Definition run_timer_callback (cb : TimerCallback) (w : World) : World :=
  match cb with
  | CbListen =>
      if isMountedRef w then
        match startListeningRef w with
        | Some snap => startListening snap w
        | None => w
        end
      else w
  | CbProceedToNext snap => proceedToNext snap w
  | CbPlayScore =>
      if isMountedRef w then
        match audioRef w with
        | Some a =>
            set_audioRef
              (Some {| paused := false; src := src a; onended := onended a;
                       onerror := onerror a; play_catch := onerror a |}) w
        | None => w
        end
      else w
  end.

(** ** Effects *)

(** The question view (lines 466-546) is the only one that renders the
    audio element; the loading view and the scorecard do not. *)
Definition shows_question (s : State) : bool :=
  match gameState s with
  | playing => negb (is_null (current_question s))
  | finished => false
  end.

(** The effect of lines 274-286. *)
Definition question_effect (snap : State) (w : World) : World :=
  match gameState snap with
  | playing =>
      if (0 <? List.length (sessionQuestions snap))%nat then
        match current_question snap with
        | Some q =>
            let w := setSelectedAnswer None w in
            let w := setIsCorrect None w in
            let w := setTranscript [] w in
            let w := setAttemptsLeft 3%Z w in
            let w := setIsScored false w in
            playQuestionAudio q w
        | None => w
        end
      else w
  | finished => w
  end.

(** The effect of lines 288-324. *)
Definition scorecard_effect (snap : State) (w : World) : World :=
  match gameState snap, audioRef w with
  | finished, Some _ =>
      if (0 <? List.length (sessionQuestions snap))%nat then
        let w := stopAllActivity w in
        let w := setStatus speaking w in
        let percent :=
          round_percent (score snap)
            (Z.of_nat (List.length (sessionQuestions snap))) in
        let w :=
          match audioRef w with
          | Some a =>
              set_audioRef
                (Some {| paused := paused a; src := tts (scoreMsg percent);
                         onended := Some CbScoreEnd; onerror := Some CbScoreEnd;
                         play_catch := play_catch a |}) w
          | None => w
          end in
        let (id, w) := setTimeout CbPlayScore w in
        set_playbackTimeout (Some id) w
      else w
  | _, _ => w
  end.

Definition scorecard_cleanup (w : World) : World :=
  match playbackTimeout w with
  | Some id => set_playbackTimeout None (clearTimeout id w)
  | None => w
  end.

(** The effect of lines 361-435: a new recognizer replaces the one in
    [recognitionRef]; the effect returns no cleanup, so the replaced
    object is left as it is. *)
Definition recognition_effect (snap : State) (w : World) : World :=
  if hasSpeechRecognition w then
    set_recognition (Some (List.length (recognizers w)))
      (recognizers w ++ [{| activity := rec_idle; handlers := snap |}]) w
  else w.

(** Which dependency arrays differ between two renders.  A callback made
    by [useCallback] changes when one of its own dependencies does; the
    arrays are spelled out down to state cells.  React compares with
    [Object.is]: numbers, strings and booleans by value, the array of
    [sessionQuestions] by identity. *)
Definition same_questions (a b : State) : bool :=
  Nat.eqb (questionsArray a) (questionsArray b).

Definition same_answer (a b : State) : bool :=
  match selectedAnswer a, selectedAnswer b with
  | None, None => true
  | Some x, Some y => (x =? y)%Z
  | _, _ => false
  end.

Definition same_game (a b : State) : bool :=
  match gameState a, gameState b with
  | playing, playing | finished, finished => true
  | _, _ => false
  end.

(* startListening: [status, selectedAnswer] *)
Definition listen_deps_changed (a b : State) : bool :=
  negb (status_eqb (status a) (status b) && same_answer a b).

(* [gameState, currentQuestionIndex, questionTrigger, sessionQuestions,
    playQuestionAudio] *)
Definition question_deps_changed (a b : State) : bool :=
  negb (same_game a b
        && Nat.eqb (currentQuestionIndex a) (currentQuestionIndex b)
        && Nat.eqb (questionTrigger a) (questionTrigger b)
        && same_questions a b).

(* [gameState, score, sessionQuestions, stopAllActivity] *)
Definition score_deps_changed (a b : State) : bool :=
  negb (same_game a b && (score a =? score b)%Z && same_questions a b).

(* [handleSelectAnswer, selectedAnswer, status, sessionQuestions,
    currentQuestionIndex, playInvalidAnswerFeedback,
    handleRecognitionFailure] *)
Definition recognition_deps_changed (a b : State) : bool :=
  negb (same_answer a b && status_eqb (status a) (status b)
        && same_questions a b
        && Nat.eqb (currentQuestionIndex a) (currentQuestionIndex b)
        && Bool.eqb (isScored a) (isScored b)
        && (attemptsLeft a =? attemptsLeft b)%Z).

(** One render and commit: the component renders with the state written
    so far, the audio element is attached or removed with its view, and
    the effects whose dependencies changed run in source order (cleanups
    first), each with the rendered state as its snapshot. *)
Definition commit_once (w : World) : World :=
  let old := rendered w in
  let new := state w in
  let w := set_rendered new w in
  let w :=
    if shows_question new then
      match audioRef w with
      | None => set_audioRef (Some fresh_audio) w
      | Some _ => w
      end
    else set_audioRef None w in
  let w := if score_deps_changed old new then scorecard_cleanup w else w in
  let w := if listen_deps_changed old new
           then set_startListeningRef (Some new) w else w in
  let w := if question_deps_changed old new then question_effect new w else w in
  let w := if score_deps_changed old new then scorecard_effect new w else w in
  if recognition_deps_changed old new then recognition_effect new w else w.

(** React renders again as long as an effect wrote a different state. *)
Fixpoint commit (fuel : nat) (w : World) : World :=
  match fuel with
  | O => w
  | S n => if state_eqb (rendered w) (state w) then w else commit n (commit_once w)
  end.

Definition settled (w : World) : bool := state_eqb (rendered w) (state w).

(** Mounting: first render with the initial state (the loading view), then
    every effect once, in source order. *)
Definition mount (speech : bool) (shuffled : list QuizQuestion) : World :=
  let w :=
    {| state := initial_state; rendered := initial_state; audioRef := None;
       recognitionRef := None; recognizers := []; timeoutRef := None;
       timers := []; nextTimer := 1; isMountedRef := true;
       startListeningRef := None; resultProcessedRef := false;
       playbackTimeout := None; hasSpeechRecognition := speech |} in
  let w := set_startListeningRef (Some initial_state) w in
  let w := startNewQuiz shuffled (set_isMountedRef true w) in
  let w := question_effect initial_state w in
  let w := scorecard_effect initial_state w in
  let w := recognition_effect initial_state w in
  commit 8 w.

(** Unmounting (lines 267-270 and 320-322). *)
Definition unmount (w : World) : World :=
  let w := stopAllActivity (set_isMountedRef false w) in
  let w := scorecard_cleanup w in
  set_audioRef None w.

(** ** Events *)

Inductive Event :=
| ClickOption (index : nat)
| ClickMic
| ClickPlayAgain (shuffled : list QuizQuestion)
| ClickHome
| AudioEnded
| AudioFailed
| TimerFires (id : positive)
| Heard (k : nat) (recognizedText : jsstring)
| RecognitionError (k : nat)
| RecognitionEnd (k : nat).

Fixpoint timer_callback (id : positive) (l : list (positive * TimerCallback)) :
  option TimerCallback :=
  match l with
  | [] => None
  | (i, cb) :: t => if Pos.eqb i id then Some cb else timer_callback id t
  end.

Definition run_option (cb : option AudioCallback) (w : World) : World :=
  match cb with
  | Some c => run_audio_callback c w
  | None => w
  end.

Definition set_activity (k : nat) (a : Activity) (w : World) : World :=
  set_recognition (recognitionRef w)
    (update_nth k (with_activity a) (recognizers w)) w.

(** What an event does when it can happen; [None] when it cannot: a
    button that is not shown or is disabled, an audio element that is not
    playing, a timer that is not pending, a recognizer that is not
    listening. *)
Definition fire (e : Event) (w : World) : option World :=
  match e with
  | ClickOption index =>
      match current_question (rendered w) with
      | Some q =>
          if isMountedRef w && shows_question (rendered w)
             && is_null (selectedAnswer (rendered w))
             && (index <? List.length (options q))%nat
          then Some (handleSelectAnswer (rendered w) (Z.of_nat index) w)
          else None
      | None => None
      end
  | ClickMic =>
      if isMountedRef w && shows_question (rendered w)
         && is_null (selectedAnswer (rendered w))
         && status_eqb (status (rendered w)) idle
      then Some (startListening (rendered w) w)
      else None
  | ClickPlayAgain shuffled =>
      match gameState (rendered w) with
      | finished => if isMountedRef w then Some (startNewQuiz shuffled w) else None
      | playing => None
      end
  | ClickHome =>
      if isMountedRef w then Some (unmount (stopAllActivity w)) else None
  | AudioEnded =>
      match audioRef w with
      | Some a =>
          if paused a then None
          else
            let w :=
              set_audioRef
                (Some {| paused := true; src := src a; onended := onended a;
                         onerror := onerror a; play_catch := None |}) w in
            Some (run_option (onended a) w)
      | None => None
      end
  | AudioFailed =>
      match audioRef w with
      | Some a =>
          if paused a then None
          else
            let w :=
              set_audioRef
                (Some {| paused := true; src := src a; onended := onended a;
                         onerror := onerror a; play_catch := None |}) w in
            Some (run_option (play_catch a) (run_option (onerror a) w))
      | None => None
      end
  | TimerFires id =>
      match timer_callback id (timers w) with
      | Some cb => Some (run_timer_callback cb (clearTimeout id w))
      | None => None
      end
  | Heard k recognizedText =>
      match nth_error (recognizers w) k with
      | Some r =>
          match activity r with
          | rec_active =>
              Some (recognition_onresult (handlers r) recognizedText
                      (set_activity k rec_ending w))
          | _ => None
          end
      | None => None
      end
  | RecognitionError k =>
      match nth_error (recognizers w) k with
      | Some r =>
          match activity r with
          | rec_active =>
              Some (recognition_onerror (handlers r) (set_activity k rec_ending w))
          | _ => None
          end
      | None => None
      end
  | RecognitionEnd k =>
      match nth_error (recognizers w) k with
      | Some r =>
          match activity r with
          | rec_idle => None
          | _ => Some (recognition_onend (handlers r) (set_activity k rec_idle w))
          end
      | None => None
      end
  end.

(** An event, then rendering until the state is settled. *)
Definition step (e : Event) (w : World) : option World :=
  match fire e w with
  | Some w' => if settled (commit 8 w') then Some (commit 8 w') else None
  | None => None
  end.

Fixpoint run (trace : list Event) (w : World) : option World :=
  match trace with
  | [] => Some w
  | e :: rest =>
      match step e w with
      | Some w' => run rest w'
      | None => None
      end
  end.

(** Observations. *)
Definition recognizer_listening (w : World) : bool :=
  existsb (fun r => match activity r with rec_active => true | _ => false end)
    (recognizers w).

Definition audio_playing (w : World) : bool :=
  match audioRef w with
  | Some a => negb (paused a)
  | None => false
  end.

Definition audio_src (w : World) : Src :=
  match audioRef w with
  | Some a => src a
  | None => NoSrc
  end.

End Recognition.


End Quiz.

(* ================================================================== *)
(** * The application as a whole: renders, effects and events of [App] *)

(** The callbacks of [App] are modelled above one by one.  This part puts
    them in their component: the render that makes the closures, the six
    effects of lines 320-616 with their dependency arrays and cleanups,
    the listeners the effects add to the audio element, and the events of
    the user, of the audio element, of the timers and of the recognizer.

    React: a state change is followed by a render and by the effects
    whose dependencies changed, first the cleanups of their last runs and
    then their bodies, both in source order; the state changes of one
    event are rendered together, after the event.

    The audio element, as the HTML standard has it: at the end of playback
    the element is paused and [ended] is fired; a source that cannot be
    loaded fires [error], leaves [paused] as it is and rejects the pending
    promise of [play()]; [pause()] rejects a pending promise in a later
    task.  The handler of the [onEnded] prop was added when the element
    was made and runs first, then the listeners in the order
    [addEventListener] added them.  The handler in [onended] or [onerror]
    runs after them here (its place is that of its first assignment); the
    sequences below never have both.  An [await] or a [then] continues as
    soon as the listener that settled the promise returns. *)

Module Shell.
Import JS App.

(** ** Texts the effects speak *)

Definition arabicGreeting : jsstring :=
  js "ٱلسَّلَامُ عَلَيْكُمْ".
Definition tamilIntro : jsstring :=
  js "நான் சித்திக்கா - உங்கள் இஸ்லாமிய ரோபோ தோழி. நாம் தொடங்கலாமா?".
Definition tamilGreeting : jsstring :=
  js "இன்று நீங்கள் என்ன செய்ய விரும்புகிறீர்கள்?".
Definition tamilChoice : jsstring :=
  js "சூரா, வினாடி வினா, அல்லது துஆ?".
Definition rulesTitle : jsstring :=
  js "வினாடி வினா விதிகள்.".

(** The four rules, lines 453-458; 34 is the code unit of the quotation
    mark around the spoken example of the fourth. *)
Definition rules : list jsstring :=
  [js "ஒன்று: 5 கேள்விகள் கேட்கப்படும் மற்றும் ஒவ்வொன்றிற்கும் ஒரு சரியான பதில் உள்ளது.";
   js "இரண்டு: எந்தவொரு கேள்விக்கும் உங்களுக்கு அதிகபட்சம் மூன்று முயற்சிகள் வழங்கப்படும்.";
   js "மூன்று: 5வது கேள்விக்குப் பிறகு மதிப்பெண் அட்டை வழங்கப்படும்.";
   js "நான்கு: நீங்கள் விருப்பத்தை கிளிக் செய்யலாம் அல்லது " ++ [34%N] ++ js "ஆப்ஷன் 1" ++ [34%N]
   ++ js " என்று கூறலாம்."].

Definition audioQueue : list jsstring := rulesTitle :: rules.

Definition surahInstruction : jsstring :=
  js "நீங்கள் கேட்க விரும்பும் சூராவின் பெயரைச் சொல்லுங்கள்".
Definition duaInstruction : jsstring :=
  js "நீங்கள் கேட்க விரும்பும் துஆவைத் தேர்ந்தெடுக்கவும் அல்லது அதன் பெயரைச் சொல்லவும்".
Definition duaPlaybackFailedMsg : jsstring :=
  js "ஆடியோவை இயக்க முடியவில்லை. பிணைய இணைப்பைச் சரிபார்க்கவும்.".

(** ** Closures the effects leave behind *)

(** Where a spoken sequence stands: the utterance whose end its listeners
    wait for. *)
Inductive Stage :=
| greeting            (* welcome: playAudio(arabicGreeting, 'ar') *)
| intro               (* welcome: playAudio(tamilIntro, 'ta', true) *)
| landing_greeting    (* landing: playAudio(tamilGreeting, 'ta') *)
| landing_choice      (* landing: playAudio(tamilChoice, 'ta') *)
| rules_chunk (rest : list jsstring)
                      (* quiz rules: one text of the queue; [rest] follows *)
| instruction_text.   (* the instruction of the surah screen or dua list *)

(** The pair [onEnded], [onError] that one utterance adds to the audio
    element with [addEventListener]: [l_run] names the effect run, that is
    its [cancelled] variable, and [l_snap] is the state that run captured. *)
Record Listener := {
  l_id : nat;
  l_run : nat;
  l_stage : Stage;
  l_snap : State
}.

(** The rejection handler of a [play()] call made by an effect or by
    [playDua].  The world keeps the handler of the last call; a call made
    while the promise of the one before is pending takes its place. *)
Inductive Rejection :=
| RejectUtterance (l : Listener)   (* play().catch(onError) *)
| RejectDua (snap : State).        (* the catch of playDua, lines 241-246 *)

(** The timers of the effects. *)
Inductive Delay :=
| LandingDelay (run : nat) (snap : State)
                                   (* the 500 ms pause, line 425 *)
| DuaReturn (snap : State).        (* () => goBackToDuaList(), line 245 *)

(** The cleanup functions the effects return. *)
Inductive Cleanup :=
| CleanWelcome (run : nat) (snap : State)                    (* lines 380-385 *)
| CleanLanding (run : nat) (snap : State)                    (* lines 441-444 *)
| CleanRules (run : nat) (snap : State)                      (* lines 498-501 *)
| CleanInstruction (run : nat) (snap : State) (ttsUrl : Src) (* lines 535-540 *)
| CleanRecognizer (snap : State).                            (* lines 612-615 *)

(** ** The component instance *)

(** [app] holds the state cells, refs and browser objects as before;
    [rendered] is the state the last render saw; [handlers] is the state
    captured by the [onresult], [onerror] and [onend] closures of the
    recognizer; [cancelled] holds the [cancelled] variable of every effect
    run so far; [listeners] are the listener pairs on the audio element,
    in the order they were added; [rejection] is the catch of the last
    [play()] when an effect or [playDua] made it; [cleanups] are the
    cleanups of the last effect runs, in source order. *)
Record World := {
  app : App.World;
  rendered : State;
  hasSpeechRecognition : bool;
  handlers : option State;
  cancelled : list bool;
  listeners : list Listener;
  nextListener : nat;
  rejection : option Rejection;
  delays : list (positive * Delay);
  cleanups : list Cleanup
}.

Definition set_app v (sh : World) : World :=
  {| app := v; rendered := rendered sh;
     hasSpeechRecognition := hasSpeechRecognition sh; handlers := handlers sh;
     cancelled := cancelled sh; listeners := listeners sh;
     nextListener := nextListener sh; rejection := rejection sh;
     delays := delays sh; cleanups := cleanups sh |}.

Definition set_rendered v (sh : World) : World :=
  {| app := app sh; rendered := v;
     hasSpeechRecognition := hasSpeechRecognition sh; handlers := handlers sh;
     cancelled := cancelled sh; listeners := listeners sh;
     nextListener := nextListener sh; rejection := rejection sh;
     delays := delays sh; cleanups := cleanups sh |}.

Definition set_handlers v (sh : World) : World :=
  {| app := app sh; rendered := rendered sh;
     hasSpeechRecognition := hasSpeechRecognition sh; handlers := v;
     cancelled := cancelled sh; listeners := listeners sh;
     nextListener := nextListener sh; rejection := rejection sh;
     delays := delays sh; cleanups := cleanups sh |}.

Definition set_cancelled v (sh : World) : World :=
  {| app := app sh; rendered := rendered sh;
     hasSpeechRecognition := hasSpeechRecognition sh; handlers := handlers sh;
     cancelled := v; listeners := listeners sh;
     nextListener := nextListener sh; rejection := rejection sh;
     delays := delays sh; cleanups := cleanups sh |}.

Definition set_listeners v n (sh : World) : World :=
  {| app := app sh; rendered := rendered sh;
     hasSpeechRecognition := hasSpeechRecognition sh; handlers := handlers sh;
     cancelled := cancelled sh; listeners := v;
     nextListener := n; rejection := rejection sh;
     delays := delays sh; cleanups := cleanups sh |}.

Definition set_rejection v (sh : World) : World :=
  {| app := app sh; rendered := rendered sh;
     hasSpeechRecognition := hasSpeechRecognition sh; handlers := handlers sh;
     cancelled := cancelled sh; listeners := listeners sh;
     nextListener := nextListener sh; rejection := v;
     delays := delays sh; cleanups := cleanups sh |}.

Definition set_delays v (sh : World) : World :=
  {| app := app sh; rendered := rendered sh;
     hasSpeechRecognition := hasSpeechRecognition sh; handlers := handlers sh;
     cancelled := cancelled sh; listeners := listeners sh;
     nextListener := nextListener sh; rejection := rejection sh;
     delays := v; cleanups := cleanups sh |}.

Definition set_cleanups v (sh : World) : World :=
  {| app := app sh; rendered := rendered sh;
     hasSpeechRecognition := hasSpeechRecognition sh; handlers := handlers sh;
     cancelled := cancelled sh; listeners := listeners sh;
     nextListener := nextListener sh; rejection := rejection sh;
     delays := delays sh; cleanups := v |}.

(** A callback of [App] run on the world it acts on. *)
Definition lift (f : App.World -> App.World) (sh : World) : World :=
  set_app (f (app sh)) sh.

Definition set_isWelcomeSequencePlaying v (w : App.World) : App.World :=
  {| state := state w; audioRef := audioRef w;
     recognitionRef := recognitionRef w;
     isWelcomeSequencePlaying := v;
     postRecitationActionInProgress := postRecitationActionInProgress w;
     playbackTimerRef := playbackTimerRef w; timers := timers w;
     nextTimer := nextTimer w; speechSynthesis := speechSynthesis w |}.

(** ** The [cancelled] variables *)

Definition is_cancelled (run : nat) (sh : World) : bool :=
  nth run (cancelled sh) false.

(** [let cancelled = false] of a new effect run. *)
Definition new_run (sh : World) : nat * World :=
  (List.length (cancelled sh), set_cancelled (cancelled sh ++ [false]) sh).

Fixpoint mark (run : nat) (l : list bool) : list bool :=
  match l, run with
  | [], _ => []
  | _ :: t, O => true :: t
  | b :: t, S n => b :: mark n t
  end.

(** [cancelled = true]. *)
Definition cancel (run : nat) (sh : World) : World :=
  set_cancelled (mark run (cancelled sh)) sh.

(** ** Playing an utterance *)

(** [audio.src = u; audio.play()], the catch being kept in [rejection]. *)
Definition play_src (u : Src) (a : AudioEl) : AudioEl :=
  {| paused := false; currentTime := 0; src := u; onended := onended a;
     onerror := onerror a; onplaying := onplaying a; play_catch := None |}.

(** [audio.removeEventListener('ended', onEnded);
    audio.removeEventListener('error', onError)]. *)
Definition remove_listener (l : Listener) (sh : World) : World :=
  set_listeners
    (filter (fun x => negb (Nat.eqb (l_id x) (l_id l))) (listeners sh))
    (nextListener sh) sh.

(** The executor of a promise that speaks (lines 334-358, 400-417 and
    470-487): set the source, add the two listeners, play with [onError] as
    catch. *)
Definition attach (run : nat) (stage : Stage) (snap : State)
  (text lang : jsstring) (a : AudioEl) (sh : World) : World :=
  let l := {| l_id := nextListener sh; l_run := run; l_stage := stage;
              l_snap := snap |} in
  let sh := lift (set_audioRef (Some (play_src (Speech text lang) a))) sh in
  let sh := set_listeners (listeners sh ++ [l]) (S (nextListener sh)) sh in
  set_rejection (Some (RejectUtterance l)) sh.

(** [playAudio], lines 329-360 and 395-419; [None] when the promise is
    rejected at once. *)
Definition playAudio (run : nat) (stage : Stage) (snap : State)
  (text lang : jsstring) (sh : World) : option World :=
  if is_cancelled run sh then None
  else
    match audioRef (app sh) with
    | None => None
    | Some a => Some (attach run stage snap text lang a sh)
    end.

(** The [finally] of the welcome sequence, lines 371-375. *)
Definition welcome_finally (run : nat) (sh : World) : World :=
  if is_cancelled run sh then sh
  else lift (set_isWelcomeSequencePlaying false) sh.

(** One turn of the loop of [playQueue], lines 467-489, over the texts
    still to be spoken.  The loop uses the element it read from [audioRef]
    when it began, which is the one element [App] renders. *)
Definition play_chunk (run : nat) (snap : State) (queue : list jsstring)
  (sh : World) : World :=
  match queue with
  | [] => sh
  | text :: rest =>
      if is_cancelled run sh then sh
      else
        match audioRef (app sh) with
        | Some a => attach run (rules_chunk rest) snap text (js "ta") a sh
        | None => sh
        end
  end.

(** [onEnded] of a listener pair, together with what the sequence does
    once its promise is resolved. *)
Definition onEnded (l : Listener) (sh : World) : World :=
  let sh := remove_listener l sh in
  let run := l_run l in
  let snap := l_snap l in
  match l_stage l with
  | greeting =>
      if is_cancelled run sh then sh
      else
        match playAudio run intro snap tamilIntro (js "ta") sh with
        | Some sh' => sh'
        | None => welcome_finally run sh
        end
  | intro =>
      let sh := lift (startListening snap true) sh in
      welcome_finally run sh
  | landing_greeting =>
      if is_cancelled run sh then sh
      else
        match playAudio run landing_choice snap tamilChoice (js "ta") sh with
        | Some sh' => sh'
        | None => sh
        end
  | landing_choice =>
      if is_cancelled run sh then sh
      else lift (startListening snap false) sh
  | rules_chunk rest =>
      if is_cancelled run sh then sh else play_chunk run snap rest sh
  | instruction_text =>
      if is_cancelled run sh then sh
      else lift (startListening snap true) sh
  end.

(** [onError] of a listener pair, together with what the sequence does
    once its promise is rejected. *)
Definition onError (l : Listener) (sh : World) : World :=
  let sh := remove_listener l sh in
  let run := l_run l in
  let snap := l_snap l in
  match l_stage l with
  | greeting => welcome_finally run sh
  | intro => welcome_finally run (lift (startListening snap true) sh)
  | landing_greeting | landing_choice | rules_chunk _ => sh
  | instruction_text =>
      if is_cancelled run sh then sh
      else lift (startListening snap true) sh
  end.

(** [setTimeout] for a closure of an effect; the ids are those of the
    other timers. *)
Definition set_delay (d : Delay) (sh : World) : World :=
  let id := nextTimer (app sh) in
  let sh := set_delays (delays sh ++ [(id, d)]) sh in
  lift (fun w => set_timers (timers w) (Pos.succ (nextTimer w)) w) sh.

(** [playDua], lines 233-249. *)
Definition playDua (snap : State) (dua : Dua) (sh : World) : World :=
  let sh := lift (stopPlayback snap true) sh in
  let sh := lift stopListening sh in
  match audioRef (app sh) with
  | Some a =>
      let a := play_src (Speech (d_arabic dua) (js "ar")) a in
      let a := with_onplaying (Some CbSetPlaying) a in
      set_rejection (Some (RejectDua snap)) (lift (set_audioRef (Some a)) sh)
  | None => sh
  end.

Definition run_rejection (r : Rejection) (sh : World) : World :=
  match r with
  | RejectUtterance l => onError l sh
  | RejectDua snap =>
      let sh := lift (setDuaMessage duaPlaybackFailedMsg) sh in
      let sh := lift (setIsPlaying false) sh in
      set_delay (DuaReturn snap) sh
  end.

Definition run_delay (d : Delay) (sh : World) : World :=
  match d with
  | LandingDelay run snap =>
      if is_cancelled run sh then sh
      else
        match playAudio run landing_greeting snap tamilGreeting (js "ta") sh with
        | Some sh' => sh'
        | None => sh
        end
  | DuaReturn snap => lift (goBackToDuaList snap) sh
  end.

(** ** The effects, in source order *)

Definition add_cleanup (c : Cleanup) (sh : World) : World :=
  set_cleanups (cleanups sh ++ [c]) sh.

(** Lines 320-387. *)
Definition welcome_effect (snap : State) (sh : World) : World :=
  match currentScreen snap with
  | welcome =>
      let sh := lift (stopPlayback snap true) sh in
      let (run, sh) := new_run sh in
      let sh := lift (set_isWelcomeSequencePlaying true) sh in
      let sh :=
        match playAudio run greeting snap arabicGreeting (js "ar") sh with
        | Some sh' => sh'
        | None => welcome_finally run sh
        end in
      add_cleanup (CleanWelcome run snap) sh
  | _ => sh
  end.

(** Lines 389-446. *)
Definition landing_effect (snap : State) (sh : World) : World :=
  match currentScreen snap with
  | landing =>
      let (run, sh) := new_run sh in
      let sh := lift (stopPlayback snap true) sh in
      let sh := lift (setFailedRecognitionAttempts 0) sh in
      let sh := set_delay (LandingDelay run snap) sh in
      add_cleanup (CleanLanding run snap) sh
  | _ => sh
  end.

(** Lines 448-503. *)
Definition rules_effect (snap : State) (sh : World) : World :=
  match currentScreen snap with
  | quizRules =>
      let sh := lift (stopPlayback snap true) sh in
      let (run, sh) := new_run sh in
      let sh :=
        match audioRef (app sh) with
        | Some _ => play_chunk run snap audioQueue sh
        | None => sh
        end in
      add_cleanup (CleanRules run snap) sh
  | _ => sh
  end.

(** Lines 505-542. *)
Definition instruction_effect (snap : State) (sh : World) : World :=
  match currentScreen snap with
  | surah | duaList =>
      let (run, sh) := new_run sh in
      let sh := lift (stopPlayback snap true) sh in
      let instructionText :=
        match currentScreen snap with
        | surah => surahInstruction
        | _ => duaInstruction
        end in
      let sh :=
        match audioRef (app sh) with
        | Some a => attach run instruction_text snap instructionText (js "ta") a sh
        | None => sh
        end in
      add_cleanup (CleanInstruction run snap (Speech instructionText (js "ta"))) sh
  | _ => sh
  end.

(** Lines 544-548. *)
Definition dua_effect (snap : State) (sh : World) : World :=
  match currentScreen snap, currentDua snap with
  | duaPlayer, Some dua => playDua snap dua sh
  | _, _ => sh
  end.

Definition listens_on (s : Screen) : bool :=
  match s with
  | quiz | quizRules | initial | duaPlayer => false
  | _ => true
  end.

(** Lines 551-616: the recognizer, its handlers and the cleanup. *)
Definition recognizer_effect (snap : State) (sh : World) : World :=
  let sh := lift (recognition_effect snap (hasSpeechRecognition sh)) sh in
  if listens_on (currentScreen snap) then
    let sh := if hasSpeechRecognition sh then set_handlers (Some snap) sh else sh in
    add_cleanup (CleanRecognizer snap) sh
  else sh.

Definition src_eqb (a b : Src) : bool :=
  match a, b with
  | NoSrc, NoSrc => true
  | File x, File y => str_eqb x y
  | Speech t l, Speech t' l' => str_eqb t t' && str_eqb l l'
  | _, _ => false
  end.

Definition run_cleanup (c : Cleanup) (sh : World) : World :=
  match c with
  | CleanWelcome run snap =>
      let sh := cancel run sh in
      let sh := lift (set_isWelcomeSequencePlaying false) sh in
      let sh := lift (stopPlayback snap true) sh in
      lift stopListening sh
  | CleanLanding run snap => lift (stopPlayback snap true) (cancel run sh)
  | CleanRules run snap => lift (stopPlayback snap false) (cancel run sh)
  | CleanInstruction run snap ttsUrl =>
      let sh := cancel run sh in
      match audioRef (app sh) with
      | Some a =>
          if src_eqb (src a) ttsUrl then lift (stopPlayback snap false) sh
          else sh
      | None => sh
      end
  | CleanRecognizer snap => lift (recognition_cleanup snap) sh
  end.

(** ** Rendering *)

Definition State_eq_dec (a b : State) : {a = b} + {a <> b}.
Proof. repeat decide equality. Defined.

Definition state_eqb (a b : State) : bool :=
  if State_eq_dec a b then true else false.

Definition Dua_eq_dec (a b : option Dua) : {a = b} + {a <> b}.
Proof. repeat decide equality. Defined.

(** The dependency arrays, spelled out down to state cells: every
    callback in them is made by [useCallback] and changes with its own
    dependencies. *)
Definition screen_changed (old new : State) : bool :=
  negb (screen_eqb (currentScreen old) (currentScreen new)).

Definition dua_changed (old new : State) : bool :=
  if Dua_eq_dec (currentDua old) (currentDua new) then false else true.

(* [currentScreen, handleVoiceCommand, handleDuaRequest,
    handleLandingCommand, handleWelcomeCommand] *)
Definition recognizer_deps_changed (old new : State) : bool :=
  screen_changed old new
  || negb (str_eqb (currentSurah old) (currentSurah new))
  || dua_changed old new
  || negb (N.eqb (failedRecognitionAttempts old) (failedRecognitionAttempts new)).

Definition cleanup_due (old new : State) (c : Cleanup) : bool :=
  match c with
  | CleanRecognizer _ => recognizer_deps_changed old new
  | _ => screen_changed old new
  end.

(** One render and commit: the cleanups of the effects that run again,
    then the bodies of these effects, all in source order. *)
Definition commit_once (sh : World) : World :=
  let old := rendered sh in
  let new := state (app sh) in
  let sh := set_rendered new sh in
  let due := filter (cleanup_due old new) (cleanups sh) in
  let sh :=
    set_cleanups
      (filter (fun c => negb (cleanup_due old new c)) (cleanups sh)) sh in
  let sh := fold_left (fun sh c => run_cleanup c sh) due sh in
  let sh := if screen_changed old new then welcome_effect new sh else sh in
  let sh := if screen_changed old new then landing_effect new sh else sh in
  let sh := if screen_changed old new then rules_effect new sh else sh in
  let sh := if screen_changed old new then instruction_effect new sh else sh in
  let sh := if screen_changed old new || dua_changed old new
            then dua_effect new sh else sh in
  if recognizer_deps_changed old new then recognizer_effect new sh else sh.

Fixpoint commit (fuel : nat) (sh : World) : World :=
  match fuel with
  | O => sh
  | S n =>
      if state_eqb (rendered sh) (state (app sh)) then sh
      else commit n (commit_once sh)
  end.

Definition settled (sh : World) : bool :=
  state_eqb (rendered sh) (state (app sh)).

Definition initial_state : State :=
  {| currentScreen := initial; isListening := false; transcription := [];
     isPlaying := false; currentSurah := []; message := [];
     currentDua := None; duaMessage := []; failedRecognitionAttempts := 0 |}.

Definition new_audio : AudioEl :=
  {| paused := true; currentTime := 0; src := NoSrc; onended := None;
     onerror := None; onplaying := None; play_catch := None |}.

(** Mounting: the first render, with the audio element of line 946, and
    every effect once. *)
Definition mount (speech synthesis : bool) : World :=
  let w :=
    {| state := initial_state; audioRef := Some new_audio;
       recognitionRef := None; isWelcomeSequencePlaying := false;
       postRecitationActionInProgress := false; playbackTimerRef := None;
       timers := []; nextTimer := 1;
       speechSynthesis := if synthesis then Some false else None |} in
  let sh :=
    {| app := w; rendered := initial_state; hasSpeechRecognition := speech;
       handlers := None; cancelled := []; listeners := []; nextListener := 0;
       rejection := None; delays := []; cleanups := [] |} in
  let sh := welcome_effect initial_state sh in
  let sh := landing_effect initial_state sh in
  let sh := rules_effect initial_state sh in
  let sh := instruction_effect initial_state sh in
  let sh := dua_effect initial_state sh in
  let sh := recognizer_effect initial_state sh in
  commit 8 sh.

(** ** Events *)

Section Events.

Variable toLowerCase : jsstring -> jsstring.
Variable surahDatabase : list (jsstring * Surah).
Variable duaDatabase : list (jsstring * Dua).

Inductive Event :=
| Press (target : Screen)
    (* a button that only calls setCurrentScreen: Start, Continue, Back
       on the landing screen, the three tiles, the start of the quiz *)
| Back                 (* goBack: surah screen, dua list, quiz rules, quiz *)
| BackToList           (* goBackToDuaList: dua player *)
| SurahButton (key : jsstring)
| RoundButton          (* surah screen: microphone or stop *)
| DuaButton (dua : Dua)
| MicButton            (* dua list *)
| StopButton           (* dua player *)
| Ended                (* the audio element: playback reached the end *)
| Playing              (* playback has begun: the play() promise resolves *)
| AudioError           (* the source failed: the error event, then the
                          rejection of the pending play() promise; the
                          element stays as it is, [paused] included *)
| PlayRejected         (* pause() has interrupted a play() whose promise
                          was pending: the promise rejects *)
| Timer (id : positive)
| Heard (transcript : jsstring)
| RecognitionFailed (e : RecognitionError)
| RecognitionEnded.

(** The buttons of lines 646, 682, 694, 710, 722, 734 and 911. *)
Definition has_button (on target : Screen) : bool :=
  match on, target with
  | initial, welcome | welcome, landing | landing, welcome
  | landing, surah | landing, quizRules | landing, duaList
  | quizRules, quiz => true
  | _, _ => false
  end.

Fixpoint lookup {A} (id : positive) (l : list (positive * A)) : option A :=
  match l with
  | [] => None
  | (i, x) :: t => if Pos.eqb i id then Some x else lookup id t
  end.

Definition is_registered (l : Listener) (sh : World) : bool :=
  existsb (fun x => Nat.eqb (l_id x) (l_id l)) (listeners sh).

(** The listeners that were on the element when the event was fired run
    in the order they were added; one that has been removed meanwhile
    does not run. *)
Definition dispatch (handler : Listener -> World -> World) (sh : World) : World :=
  fold_left
    (fun sh l => if is_registered l sh then handler l sh else sh)
    (listeners sh) sh.

Definition run_option (cb : option Callback) (sh : World) : World :=
  match cb with
  | Some c => lift (run_callback c) sh
  | None => sh
  end.

Definition pending_rejection (sh : World) : bool :=
  match audioRef (app sh) with
  | Some a =>
      match play_catch a, rejection sh with
      | None, None => false
      | _, _ => true
      end
  | None => false
  end.

Definition resolved (a : AudioEl) : AudioEl :=
  {| paused := paused a; currentTime := currentTime a; src := src a;
     onended := onended a; onerror := onerror a; onplaying := onplaying a;
     play_catch := None |}.

(** The catch of the last [play()]: the one a callback of [App] gave, or
    else the one an effect gave. *)
Definition reject_play (sh : World) : World :=
  match audioRef (app sh) with
  | Some a =>
      match play_catch a with
      | Some cb =>
          let sh := lift (set_audioRef (Some (resolved a))) sh in
          lift (run_callback cb) (set_rejection None sh)
      | None =>
          match rejection sh with
          | Some r => run_rejection r (set_rejection None sh)
          | None => sh
          end
      end
  | None => sh
  end.

Definition set_listening (b : bool) (w : App.World) : App.World :=
  match recognitionRef w with
  | Some r => set_recognitionRef (Some {| lang := lang r; listening := b |}) w
  | None => w
  end.

(** What an event does when it can happen, [None] when it cannot.  A
    handler of the user interface is the closure of the last render; a
    handler of the recognizer is the closure the effect assigned. *)
Definition fire (e : Event) (sh : World) : option World :=
  let snap := rendered sh in
  match e with
  | Press target =>
      if has_button (currentScreen snap) target
      then Some (lift (setCurrentScreen target) sh) else None
  | Back =>
      match currentScreen snap with
      | surah | duaList | quizRules | quiz => Some (lift (goBack snap) sh)
      | _ => None
      end
  | BackToList =>
      match currentScreen snap, currentDua snap with
      | duaPlayer, Some _ => Some (lift (goBackToDuaList snap) sh)
      | _, _ => None
      end
  | SurahButton key =>
      match currentScreen snap with
      | surah =>
          if existsb (fun e => str_eqb (fst e) key) (uniqueSurahs surahDatabase)
          then Some (lift (playSurah surahDatabase snap key) sh) else None
      | _ => None
      end
  | RoundButton =>
      match currentScreen snap with
      | surah =>
          Some (lift (if isPlaying snap then handlePlaybackEnd snap true
                      else startListening snap true) sh)
      | _ => None
      end
  | DuaButton dua =>
      match currentScreen snap with
      | duaList =>
          if existsb (fun d => if Dua_eq_dec (Some d) (Some dua) then true else false)
               (map snd duaDatabase)
          then Some (lift (selectDuaAndPlay dua) sh) else None
      | _ => None
      end
  | MicButton =>
      match currentScreen snap with
      | duaList => Some (lift (startListening snap true) sh)
      | _ => None
      end
  | StopButton =>
      match currentScreen snap, currentDua snap with
      | duaPlayer, Some _ => Some (lift (handlePlaybackEnd snap true) sh)
      | _, _ => None
      end
  | Ended =>
      match audioRef (app sh) with
      | Some a =>
          if paused a then None
          else
            let sh := lift (set_audioRef (Some (finished a))) sh in
            let sh := set_rejection None sh in
            let sh := lift (handlePlaybackEnd snap false) sh in
            let sh := dispatch onEnded sh in
            match audioRef (app sh) with
            | Some a' => Some (run_option (onended a') sh)
            | None => Some sh
            end
      | None => None
      end
  | Playing =>
      match audioRef (app sh) with
      | Some a =>
          if negb (paused a) && pending_rejection sh then
            let sh := lift (set_audioRef (Some (resolved a))) sh in
            let sh := set_rejection None sh in
            Some (run_option (onplaying a) sh)
          else None
      | None => None
      end
  | AudioError =>
      match audioRef (app sh) with
      | Some a =>
          if paused a then None
          else
            let sh := dispatch onError sh in
            let sh :=
              match audioRef (app sh) with
              | Some a' => run_option (onerror a') sh
              | None => sh
              end in
            Some (reject_play sh)
      | None => None
      end
  | PlayRejected =>
      match audioRef (app sh) with
      | Some a =>
          if paused a && pending_rejection sh then Some (reject_play sh)
          else None
      | None => None
      end
  | Timer id =>
      match lookup id (timers (app sh)) with
      | Some cb => Some (lift (run_callback cb) (lift (clearTimeout id) sh))
      | None =>
          match lookup id (delays sh) with
          | Some d =>
              let sh :=
                set_delays
                  (filter (fun t => negb (Pos.eqb (fst t) id)) (delays sh)) sh in
              Some (run_delay d sh)
          | None => None
          end
      end
  | Heard transcript =>
      match handlers sh, recognitionRef (app sh) with
      | Some h, Some r =>
          if listening r then
            Some (lift (recognition_onresult toLowerCase surahDatabase
                          duaDatabase h transcript)
                    (lift (set_listening false) sh))
          else None
      | _, _ => None
      end
  | RecognitionFailed e =>
      match handlers sh, recognitionRef (app sh) with
      | Some h, Some r =>
          if listening r then
            Some (lift (recognition_onerror toLowerCase h e)
                    (lift (set_listening false) sh))
          else None
      | _, _ => None
      end
  | RecognitionEnded =>
      match handlers sh, recognitionRef (app sh) with
      | Some _, Some r =>
          if negb (listening r) && isListening (state (app sh))
          then Some (lift recognition_onend sh) else None
      | _, _ => None
      end
  end.

(** An event, then rendering until the state is settled. *)
Definition step (e : Event) (sh : World) : option World :=
  match fire e sh with
  | Some sh' => if settled (commit 8 sh') then Some (commit 8 sh') else None
  | None => None
  end.

Fixpoint run (trace : list Event) (sh : World) : option World :=
  match trace with
  | [] => Some sh
  | e :: rest =>
      match step e sh with
      | Some sh' => run rest sh'
      | None => None
      end
  end.

End Events.

(** ** Observations *)

Definition speaking (sh : World) : option Src :=
  match audioRef (app sh) with
  | Some a => if paused a then None else Some (src a)
  | None => None
  end.

Definition listening_in (sh : World) : option jsstring :=
  match recognitionRef (app sh) with
  | Some r => if listening r then Some (lang r) else None
  | None => None
  end.

Definition screen (sh : World) : Screen := currentScreen (state (app sh)).

End Shell.

(* ================================================================== *)
(** * Properties *)

Module JSFacts.
Import JS.

Lemma str_eqb_eq a b : str_eqb a b = true <-> a = b.
Proof.
  unfold str_eqb. destruct (list_eq_dec N.eq_dec a b); split; congruence.
Qed.



Lemma starts_with_spec needle hay :
  starts_with needle hay = true <-> exists post, hay = needle ++ post.
Proof.
  revert hay. induction needle as [|n ns IH]; intros hay; simpl.
  - split; [intros _; now exists hay | reflexivity].
  - destruct hay as [|h hs].
    + split; [discriminate | intros [post H]; discriminate].
    + rewrite andb_true_iff, N.eqb_eq, IH. split.
      * intros [-> [post ->]]. now exists post.
      * intros [post H]. injection H as -> ->. split; [reflexivity | now exists post].
Qed.

Lemma includes_spec hay needle :
  includes hay needle = true <-> exists pre post, hay = pre ++ needle ++ post.
Proof.
  induction hay as [|h hs IH].
  - simpl. rewrite orb_false_r, starts_with_spec. split.
    + intros [post H]. now exists [], post.
    + intros [pre [post H]]. destruct pre; simpl in H.
      * now exists post.
      * discriminate.
  - cbn [includes]. rewrite orb_true_iff, starts_with_spec, IH. split.
    + intros [[post H] | [pre [post H]]].
      * now exists [], post.
      * exists (h :: pre), post. simpl. now rewrite H.
    + intros [pre [post H]]. destruct pre as [|p pre]; simpl in H.
      * left. now exists post.
      * right. injection H as _ H. now exists pre, post.
Qed.

Lemma includes_rev hay needle :
  includes (rev hay) (rev needle) = includes hay needle.
Proof.
  apply eq_true_iff_eq. rewrite !includes_spec. split.
  - intros [pre [post H]]. exists (rev post), (rev pre).
    apply (f_equal (@rev N)) in H.
    rewrite rev_involutive, !rev_app_distr, rev_involutive in H.
    now rewrite H, app_assoc.
  - intros [pre [post H]]. exists (rev post), (rev pre).
    now rewrite H, !rev_app_distr, app_assoc.
Qed.

Lemma includes_drop_ws hay n ns :
  is_white_space n = false ->
  includes (drop_ws hay) (n :: ns) = includes hay (n :: ns).
Proof.
  intros Hn. induction hay as [|h hs IH]; [reflexivity|].
  cbn [drop_ws]. destruct (is_white_space h) eqn:Hh; [|reflexivity].
  rewrite IH. cbn [includes starts_with].
  destruct (N.eqb_spec n h) as [->|_]; [congruence | reflexivity].
Qed.

(** Trimming cannot create or destroy an occurrence of a word whose first
    and last code units are not white space. *)
Lemma includes_trim hay needle :
  needle <> [] ->
  is_white_space (hd 0%N needle) = false ->
  is_white_space (hd 0%N (rev needle)) = false ->
  includes (trim hay) needle = includes hay needle.
Proof.
  intros Hne Hfirst Hlast. unfold trim.
  rewrite <- (rev_involutive needle) at 1. rewrite includes_rev.
  destruct (rev needle) as [|r rs] eqn:Hr.
  - apply (f_equal (@rev N)) in Hr. rewrite rev_involutive in Hr. contradiction.
  - rewrite includes_drop_ws by exact Hlast.
    rewrite <- Hr, includes_rev.
    destruct needle as [|n ns]; [contradiction|].
    now apply includes_drop_ws.
Qed.

End JSFacts.

Module TtsSpec.
Import JS Tts.

Definition text_missing (req : Request) : bool := negb (truthy (q_text req)).




(** The address every upstream request starts with. *)
Definition endpoint : jsstring :=
  js "https://translate.google.com/translate_tts?ie=UTF-8&q=".

Definition requested_url (enc : jsstring -> jsstring) (req : Request) : jsstring :=
  ttsUrl enc (match q_text req with Some t => t | None => QStr [] end)
    (lang_of req).

(** The proxy is no open relay.  Whatever the query holds, it asks the
    upstream service for at most one URL, and this URL starts with the
    translate_tts address: two upstream services that answer this one URL
    alike get the same response out of the proxy, and with the text
    missing the response does not depend on the upstream service at
    all. *)
Theorem proxy_asks_only_translate_tts
  (enc : jsstring -> jsstring) (fetch1 fetch2 : jsstring -> FetchOutcome)
  (req : Request) :
  let url := requested_url enc req in
  starts_with endpoint url = true
  /\ (fetch1 url = fetch2 url ->
      handler enc fetch1 req = handler enc fetch2 req)
  /\ (text_missing req = true ->
      handler enc fetch1 req = handler enc fetch2 req).
Proof.
  cbv zeta. unfold requested_url. split; [|split].
  - apply JSFacts.starts_with_spec. unfold ttsUrl, endpoint. eexists. reflexivity.
  - intros Hf. unfold handler.
    destruct (q_text req) as [text|]; [|reflexivity].
    destruct (negb (truthy (Some text))); [reflexivity|]. now rewrite Hf.
  - unfold text_missing, handler.
    destruct (q_text req) as [text|]; [|reflexivity].
    intros ->. reflexivity.
Qed.

End TtsSpec.


Module AppSpec.
Import JS JSFacts App.

(** C7. [stopPlayback] cleans up whatever was going on: the playback timer
    it tracks is cleared, the audio element is paused, rewound to 0 and its
    [onended] and [onerror] handlers are detached, speech synthesis is
    cancelled and [isPlaying] becomes false.  With [clearState] true,
    [currentDua] is cleared unless the screen (as captured by the callback)
    is 'duaPlayer' and [currentSurah] is cleared unless it is 'surah'; with
    [clearState] false both are kept.  Nothing else changes. *)
Theorem stopPlayback_cleanup (snap : State) (clearState : bool) (w : World) :
  let w' := stopPlayback snap clearState w in
  playbackTimerRef w' = None
  /\ match playbackTimerRef w with
     | Some id => ~ In id (map fst (timers w'))
     | None => timers w' = timers w
     end
  /\ match audioRef w with
     | Some a =>
         exists a', audioRef w' = Some a' /\ paused a' = true
           /\ currentTime a' = 0%N /\ onended a' = None /\ onerror a' = None
           /\ src a' = src a
     | None => audioRef w' = None
     end
  /\ match speechSynthesis w with
     | Some _ => speechSynthesis w' = Some false
     | None => speechSynthesis w' = None
     end
  /\ isPlaying (state w') = false
  /\ currentDua (state w') =
       (if clearState && negb (screen_eqb (currentScreen snap) duaPlayer)
        then None else currentDua (state w))
  /\ currentSurah (state w') =
       (if clearState && negb (screen_eqb (currentScreen snap) surah)
        then [] else currentSurah (state w))
  /\ currentScreen (state w') = currentScreen (state w)
  /\ message (state w') = message (state w)
  /\ duaMessage (state w') = duaMessage (state w)
  /\ transcription (state w') = transcription (state w)
  /\ isListening (state w') = isListening (state w)
  /\ failedRecognitionAttempts (state w') = failedRecognitionAttempts (state w)
  /\ recognitionRef w' = recognitionRef w
  /\ postRecitationActionInProgress w' = postRecitationActionInProgress w
  /\ isWelcomeSequencePlaying w' = isWelcomeSequencePlaying w.
Proof.
  assert (Hfilter : forall id tm,
             ~ In id (map fst (filter (fun t : positive * Callback =>
                                          negb (Pos.eqb (fst t) id)) tm))).
  { intros id tm Hin. apply in_map_iff in Hin. destruct Hin as [[i cb] [Hi Hf]].
    apply filter_In in Hf. destruct Hf as [_ Hf]. cbn in Hi, Hf. subst i.
    now rewrite Pos.eqb_refl in Hf. }
  destruct w as [s a r wl pr pt tm nt sy].
  destruct pt as [id|], a as [au|], sy as [b|], clearState;
    destruct snap as [[] ? ? ? ? ? ? ? ?];
    vm_compute; repeat split; try exact (Hfilter _ _);
    eexists; repeat split; reflexivity.
Qed.

(** ** Landing screen: navigation by voice *)

Definition landingKeywords : list jsstring :=
  surahKeywords ++ quizKeywords ++ duaKeywords.

(** No keyword of the landing screen starts or ends with white space, so the
    [trim] of [lowerCommand] does not change which keywords occur. *)
Lemma keyword_survives_trim kw s :
  In kw landingKeywords -> includes (trim s) kw = includes s kw.
Proof.
  intros Hin. apply includes_trim.
  - intros ->. repeat (destruct Hin as [Hin|Hin]; [discriminate Hin|]). exact Hin.
  - repeat (destruct Hin as [Hin|Hin]; [now subst kw; vm_compute|]).
    destruct Hin.
  - repeat (destruct Hin as [Hin|Hin]; [now subst kw; vm_compute|]).
    destruct Hin.
Qed.

Lemma existsb_trim kws s :
  incl kws landingKeywords ->
  existsb (includes (trim s)) kws = existsb (includes s) kws.
Proof.
  induction kws as [|k ks IH]; intros Hincl; [reflexivity|].
  cbn [existsb]. rewrite keyword_survives_trim by (apply Hincl; now left).
  rewrite IH; [reflexivity|]. intros x Hx. apply Hincl. now right.
Qed.

(** What [handleLandingCommand] does, by the keyword lists: the first list
    in which a keyword occurs decides, and no keyword is a failure. *)
Lemma landing_navigation_by_lists
  (toLowerCase : jsstring -> jsstring) (snap : State) (command : jsstring)
  (w : World) :
  let cleaned := strip_punct (toLowerCase command) in
  let w' := handleLandingCommand toLowerCase snap command w in
  if existsb (includes cleaned) surahKeywords then
    w' = navigate surah w
    /\ currentScreen (state w') = surah
    /\ failedRecognitionAttempts (state w') = 0%N
  else if existsb (includes cleaned) quizKeywords then
    w' = navigate quizRules w
    /\ currentScreen (state w') = quizRules
    /\ failedRecognitionAttempts (state w') = 0%N
  else if existsb (includes cleaned) duaKeywords then
    w' = navigate duaList w
    /\ currentScreen (state w') = duaList
    /\ failedRecognitionAttempts (state w') = 0%N
  else
    currentScreen (state w') = currentScreen (state w)
    /\ failedRecognitionAttempts (state w') =
         (failedRecognitionAttempts snap + 1)%N.
Proof.
  cbv zeta. unfold handleLandingCommand, lowerCommand.
  rewrite !existsb_trim
    by (unfold landingKeywords; intros x Hx; rewrite !in_app_iff; tauto).
  destruct (existsb _ surahKeywords); [now repeat split|].
  destruct (existsb _ quizKeywords); [now repeat split|].
  destruct (existsb _ duaKeywords); [now repeat split|].
  destruct w as [s a r wl pr pt tm nt sy].
  destruct r as [rc|], a as [au|]; cbn;
    try (destruct (failedRecognitionAttempts snap + 1 <? 3)%N; cbn);
    try (unfold startListening; cbn);
    repeat match goal with
      | |- context [if ?b then _ else _] => destruct b; cbn
      end; now split.
Qed.


(** ** Landing screen: unrecognized commands *)

Definition unrecognized (toLowerCase : jsstring -> jsstring) (command : jsstring) : bool :=
  negb (existsb (includes (lowerCommand toLowerCase command)) landingKeywords).

(** The landing screen at rest: the audio element and the recognizer
    exist, nothing plays, nobody listens, no failure counted. *)
Definition quiet_audio : AudioEl :=
  {| paused := true; currentTime := 0; src := NoSrc; onended := None;
     onerror := None; onplaying := None; play_catch := None |}.

Definition landing_world : World :=
  {| state := {| currentScreen := landing; isListening := false;
                 transcription := []; isPlaying := false; currentSurah := [];
                 message := []; currentDua := None; duaMessage := [];
                 failedRecognitionAttempts := 0 |};
     audioRef := Some quiet_audio;
     recognitionRef := Some {| lang := js "ta-IN"; listening := false |};
     isWelcomeSequencePlaying := false;
     postRecitationActionInProgress := false;
     playbackTimerRef := None; timers := []; nextTimer := 1;
     speechSynthesis := Some false |}.

(** One failed attempt: an unrecognized command is handled, then the
    spoken message plays to its end. *)
Definition fail_once (w : World) : World :=
  audio_ended (handleLandingCommand ascii_lower (state w) (js "hello") w).

Definition is_listening (w : World) : bool :=
  match recognitionRef w with
  | Some r => listening r
  | None => false
  end.

Definition audio_src (w : World) : Src :=
  match audioRef w with
  | Some a => src a
  | None => NoSrc
  end.

Lemma unrecognized_no_keyword toLowerCase command :
  unrecognized toLowerCase command = true ->
  existsb (includes (lowerCommand toLowerCase command)) surahKeywords = false
  /\ existsb (includes (lowerCommand toLowerCase command)) quizKeywords = false
  /\ existsb (includes (lowerCommand toLowerCase command)) duaKeywords = false.
Proof.
  unfold unrecognized, landingKeywords. rewrite negb_true_iff, !existsb_app.
  rewrite !orb_false_iff. tauto.
Qed.

(** The landing screen after two unrecognized commands in a row. *)
Definition twice_failed : World := fail_once (fail_once landing_world).

(** C5. A landing-screen command is lowercased and stripped of '.', ','
    and '?' (the code units 46, 44 and 63, wherever they stand).  If one
    of 'சூரா', 'சுரா', 'surah' occurs in it the application goes to the
    'surah' screen; otherwise, if one of 'வினாடி வினா', 'quiz',
    'vinadi vina' occurs, to 'quizRules'; otherwise, if one of 'துஆ',
    'துவா', 'dua' occurs, to 'duaList'.  Each of these navigations resets
    the count of failed recognition attempts to zero.  When no keyword
    occurs the screen stays and the count becomes the captured count plus
    one.  After two failures: "Su.rah?" goes to the surah screen, "quiz,
    surah" too, "dua quiz" to the quiz rules, "Dua" to the dua list, each
    with the count back at zero, and "hello" stays with a count of
    three. *)
Theorem landing_navigation_priority :
  (forall (toLowerCase : jsstring -> jsstring) (snap : State)
          (command : jsstring) (w : World),
     let cleaned :=
       filter (fun c => negb (N.eqb c 46 || N.eqb c 44 || N.eqb c 63))
         (toLowerCase command) in
     let occurs := fun words : list string =>
       existsb (fun word => includes cleaned (js word)) words in
     let w' := handleLandingCommand toLowerCase snap command w in
     if occurs ["சூரா"; "சுரா"; "surah"]%string then
       w' = navigate surah w
       /\ currentScreen (state w') = surah
       /\ failedRecognitionAttempts (state w') = 0%N
     else if occurs ["வினாடி வினா"; "quiz"; "vinadi vina"]%string then
       w' = navigate quizRules w
       /\ currentScreen (state w') = quizRules
       /\ failedRecognitionAttempts (state w') = 0%N
     else if occurs ["துஆ"; "துவா"; "dua"]%string then
       w' = navigate duaList w
       /\ currentScreen (state w') = duaList
       /\ failedRecognitionAttempts (state w') = 0%N
     else
       currentScreen (state w') = currentScreen (state w)
       /\ failedRecognitionAttempts (state w') =
            (failedRecognitionAttempts snap + 1)%N)
  /\ (let after_command := fun command : string =>
        let w' := handleLandingCommand ascii_lower (state twice_failed)
                    (js command) twice_failed in
        (currentScreen (state w'), failedRecognitionAttempts (state w')) in
      currentScreen (state twice_failed) = landing
      /\ failedRecognitionAttempts (state twice_failed) = 2%N
      /\ after_command "Su.rah?"%string = (surah, 0%N)
      /\ after_command "quiz, surah"%string = (surah, 0%N)
      /\ after_command "dua quiz"%string = (quizRules, 0%N)
      /\ after_command "Dua"%string = (duaList, 0%N)
      /\ after_command "hello"%string = (landing, 3%N)).
Proof.
  split.
  - intros toLowerCase snap command w. cbv zeta.
    exact (landing_navigation_by_lists toLowerCase snap command w).
  - cbv zeta.
    repeat match goal with |- _ /\ _ => split end; vm_compute; reflexivity.
Qed.

(** C2, as the code has it.  On the landing screen an unrecognized command
    makes the count of consecutive failures one more than it was, stops
    the recognizer and plays a spoken message.  While the new count is
    below 3 (the first and the second failure in a row) the message is the
    apology and the recognizer listens again when the message has ended;
    from the third failure in a row on, the message sends the user to the
    on-screen buttons and the recognizer stays off. *)
Theorem landing_failure_policy
  (toLowerCase : jsstring -> jsstring) (w : World) (command : jsstring)
  (a : AudioEl) (r : Recognizer) :
  currentScreen (state w) = landing ->
  audioRef w = Some a ->
  recognitionRef w = Some r ->
  postRecitationActionInProgress w = false ->
  unrecognized toLowerCase command = true ->
  let n := (failedRecognitionAttempts (state w) + 1)%N in
  let w1 := handleLandingCommand toLowerCase (state w) command w in
  let w2 := audio_ended w1 in
  failedRecognitionAttempts (state w1) = n
  /\ audio_is_playing w1 = true
  /\ audio_src w1 = Speech (if (n <? 3)%N then retryMsg else useButtonsMsg) (js "ta")
  /\ is_listening w1 = false
  /\ is_listening w2 = (n <? 3)%N
  /\ audio_is_playing w2 = false
  /\ failedRecognitionAttempts (state w2) = n
  /\ currentScreen (state w2) = landing.
Proof.
  intros Hscr Ha Hr Hflag Hun. cbv zeta.
  destruct (unrecognized_no_keyword _ _ Hun) as (H1 & H2 & H3).
  unfold handleLandingCommand. rewrite H1, H2, H3.
  destruct w as [s au rc wl pr pt tm nt sy]. cbn in Hscr, Ha, Hr, Hflag.
  subst au rc pr. destruct s as [scr il tr ip cs msg cd dm fa]. cbn in Hscr.
  cbn [state failedRecognitionAttempts]. generalize (fa + 1)%N. intros n.
  subst scr.
  destruct (n <? 3)%N; destruct wl; vm_compute; repeat split; reflexivity.
Qed.

Lemma landing_failure_policy_witness :
  let n := (failedRecognitionAttempts (state landing_world) + 1)%N in
  let w1 := handleLandingCommand ascii_lower (state landing_world) (js "hello") landing_world in
  let w2 := audio_ended w1 in
  failedRecognitionAttempts (state w1) = n
  /\ audio_is_playing w1 = true
  /\ audio_src w1 = Speech (if (n <? 3)%N then retryMsg else useButtonsMsg) (js "ta")
  /\ is_listening w1 = false
  /\ is_listening w2 = (n <? 3)%N
  /\ audio_is_playing w2 = false
  /\ failedRecognitionAttempts (state w2) = n
  /\ currentScreen (state w2) = landing.
Proof.
  apply (@landing_failure_policy ascii_lower landing_world (js "hello")
           quiet_audio {| lang := js "ta-IN"; listening := false |});
    reflexivity.
Defined.

(** C2 as stated fails: after the second unrecognized command in a row the
    application apologises and listens again; only the third one makes it
    stop and point to the buttons. *)
Lemma landing_second_failure_still_retries :
  let w1 := fail_once landing_world in
  let w2 := fail_once w1 in
  let w3 := fail_once w2 in
  unrecognized ascii_lower (js "hello") = true
  /\ failedRecognitionAttempts (state w1) = 1%N /\ is_listening w1 = true
  /\ failedRecognitionAttempts (state w2) = 2%N /\ is_listening w2 = true
  /\ audio_src w2 = Speech retryMsg (js "ta")
  /\ audio_src w2 <> Speech useButtonsMsg (js "ta")
  /\ failedRecognitionAttempts (state w3) = 3%N /\ is_listening w3 = false
  /\ audio_src w3 = Speech useButtonsMsg (js "ta").
Proof.
  cbv zeta. repeat split; try (vm_compute; reflexivity).
  vm_compute. discriminate.
Qed.


(** ** End of playback *)

(** Example data.  The catalogues are imported from modules outside the
    sources at hand; these records stand for entries of theirs. *)
Definition fatiha : Surah :=
  {| s_name := js "Al-Fatiha"; s_number := 1; s_audio := js "/audio/001.mp3" |}.
Definition ikhlas : Surah :=
  {| s_name := js "Al-Ikhlas"; s_number := 112; s_audio := js "/audio/112.mp3" |}.
Definition example_surahs : list (jsstring * Surah) :=
  [(js "fatiha", fatiha); (js "al-ikhlas", ikhlas); (js "al-fatiha", fatiha);
   (js "ikhlas", ikhlas)].

Definition morning_dua : Dua :=
  {| d_name := js "காலை துஆ"; d_arabic := js "أَصْبَحْنَا";
     d_translationTamil := js "காலை நேர பிரார்த்தனை";
     d_keywords := [js "காலை"; js "Morning"] |}.
Definition sleep_dua : Dua :=
  {| d_name := js "தூங்கும் முன்"; d_arabic := js "بِاسْمِكَ";
     d_translationTamil := js "தூங்கும் முன் ஓதும் துஆ";
     d_keywords := [js "தூக்கம்"; js "sleep"] |}.
Definition example_duas : list (jsstring * Dua) :=
  [(js "morning", morning_dua); (js "sleep", sleep_dua)].

(** The surah screen at rest, and the same screen while a recitation
    plays. *)
Definition surah_world : World :=
  {| state := {| currentScreen := surah; isListening := false;
                 transcription := []; isPlaying := false; currentSurah := [];
                 message := []; currentDua := None; duaMessage := [];
                 failedRecognitionAttempts := 0 |};
     audioRef := Some quiet_audio;
     recognitionRef := Some {| lang := js "en-US"; listening := false |};
     isWelcomeSequencePlaying := false;
     postRecitationActionInProgress := false;
     playbackTimerRef := None; timers := []; nextTimer := 1;
     speechSynthesis := Some false |}.

Definition reciting_world : World :=
  audio_playing (click_surah example_surahs (js "al-fatiha") surah_world).

(** The dua player while a dua plays. *)
Definition dua_world : World :=
  {| state := {| currentScreen := duaPlayer; isListening := false;
                 transcription := []; isPlaying := true; currentSurah := [];
                 message := []; currentDua := Some morning_dua;
                 duaMessage := []; failedRecognitionAttempts := 0 |};
     audioRef :=
       Some {| paused := false; currentTime := 0;
               src := Speech (d_arabic morning_dua) (js "ar");
               onended := None; onerror := None;
               onplaying := Some CbSetPlaying; play_catch := None |};
     recognitionRef := Some {| lang := js "ta-IN"; listening := false |};
     isWelcomeSequencePlaying := false;
     postRecitationActionInProgress := false;
     playbackTimerRef := None; timers := []; nextTimer := 1;
     speechSynthesis := Some false |}.

(** One call of [handlePlaybackEnd] while no post-recitation prompt is
    pending and the welcome sequence is not playing:
    - when the audio ends by itself on the 'surah' screen with a current
      surah, playback is stopped, the post-recitation prompt is shown and
      played, and when the prompt has ended the recognizer listens; with
      no current surah nothing happens;
    - when it ends by itself on the 'duaPlayer' screen with a current dua,
      playback is stopped and the screen goes back to the dua list;
    - on a manual stop the 'surah' screen shows the stopped message and
      stays, and the 'duaPlayer' screen goes back to the dua list. *)
Theorem playback_end_behaviour (w : World) (a : AudioEl) (r : Recognizer) :
  postRecitationActionInProgress w = false ->
  isWelcomeSequencePlaying w = false ->
  audioRef w = Some a ->
  recognitionRef w = Some r ->
  let ended := handlePlaybackEnd (state w) false w in
  let stopped := handlePlaybackEnd (state w) true w in
  match currentScreen (state w) with
  | surah =>
      (if truthy_str (currentSurah (state w)) then
         isPlaying (state ended) = false
         /\ playbackTimerRef ended = None
         /\ message (state ended) = postRecitationMessage
         /\ audio_src ended = Speech postRecitationMessage (js "ta")
         /\ audio_is_playing ended = true
         /\ is_listening ended = listening r
         /\ currentScreen (state ended) = surah
         /\ is_listening (audio_ended ended) = true
         /\ isListening (state (audio_ended ended)) = true
         /\ audio_is_playing (audio_ended ended) = false
         /\ currentScreen (state (audio_ended ended)) = surah
       else ended = w)
      /\ message (state stopped) = stoppedMsg
      /\ currentScreen (state stopped) = surah
      /\ isPlaying (state stopped) = false
      /\ audio_is_playing stopped = false
      /\ is_listening stopped = listening r
  | duaPlayer =>
      (match currentDua (state w) with
       | Some _ =>
           isPlaying (state ended) = false
           /\ audio_is_playing ended = false
           /\ currentScreen (state ended) = duaList
           /\ currentDua (state ended) = None
       | None => ended = w
       end)
      /\ isPlaying (state stopped) = false
      /\ audio_is_playing stopped = false
      /\ currentScreen (state stopped) = duaList
      /\ currentDua (state stopped) = None
  | _ => ended = w
  end.
Proof.
  intros Hflag Hwel Ha Hr. cbv zeta.
  destruct w as [s au rc wl pr pt tm nt sy]. cbn in Hflag, Hwel, Ha, Hr.
  subst pr wl au rc. destruct s as [scr il tr ip cs msg cd dm fa].
  destruct scr, cs, cd, pt, sy; vm_compute; repeat split; reflexivity.
Qed.

Lemma playback_end_behaviour_witness :
  (let w := reciting_world in
   let ended := handlePlaybackEnd (state w) false w in
   let stopped := handlePlaybackEnd (state w) true w in
   (isPlaying (state ended) = false
    /\ playbackTimerRef ended = None
    /\ message (state ended) = postRecitationMessage
    /\ audio_src ended = Speech postRecitationMessage (js "ta")
    /\ audio_is_playing ended = true
    /\ is_listening ended = false
    /\ currentScreen (state ended) = surah
    /\ is_listening (audio_ended ended) = true
    /\ isListening (state (audio_ended ended)) = true
    /\ audio_is_playing (audio_ended ended) = false
    /\ currentScreen (state (audio_ended ended)) = surah)
   /\ message (state stopped) = stoppedMsg
   /\ currentScreen (state stopped) = surah
   /\ isPlaying (state stopped) = false
   /\ audio_is_playing stopped = false
   /\ is_listening stopped = false)
  /\ (let w := dua_world in
      let ended := handlePlaybackEnd (state w) false w in
      let stopped := handlePlaybackEnd (state w) true w in
      (isPlaying (state ended) = false
       /\ audio_is_playing ended = false
       /\ currentScreen (state ended) = duaList
       /\ currentDua (state ended) = None)
      /\ isPlaying (state stopped) = false
      /\ audio_is_playing stopped = false
      /\ currentScreen (state stopped) = duaList
      /\ currentDua (state stopped) = None).
Proof.
  split.
  - exact (@playback_end_behaviour reciting_world
             (match audioRef reciting_world with Some a => a | None => quiet_audio end)
             {| lang := js "en-US"; listening := false |}
             eq_refl eq_refl eq_refl eq_refl).
  - exact (@playback_end_behaviour dua_world
             (match audioRef dua_world with Some a => a | None => quiet_audio end)
             {| lang := js "ta-IN"; listening := false |}
             eq_refl eq_refl eq_refl eq_refl).
Defined.

(** The calls made while a post-recitation prompt is pending, on the surah
    screen taken by itself (the whole application is followed in
    [ShellSpec.prompt_cut_off]).  A recitation is started and ends by
    itself, so the prompt plays.
    - If the round button is pressed now (it shows the stop square, the
      [playing] event of the prompt having set [isPlaying]), no stopped
      message is shown and the prompt keeps playing while the recognizer
      starts.
    - If instead a surah is picked from the list and ends by itself, no
      prompt follows: the recognizer starts at once, the playback timer is
      left pending and [isPlaying] stays true. *)
Lemma pending_prompt_changes_playback_end :
  let prompt := audio_playing (audio_ended reciting_world) in
  let pressed := click_round_button prompt in
  let second := audio_playing (click_surah example_surahs (js "al-ikhlas") prompt) in
  let over := audio_ended second in
  currentScreen (state prompt) = surah
  /\ postRecitationActionInProgress prompt = true
  /\ isPlaying (state prompt) = true
  /\ message (state pressed) = listeningMsg
  /\ message (state pressed) <> stoppedMsg
  /\ audio_is_playing pressed = true
  /\ is_listening pressed = true
  /\ currentSurah (state second) = s_name ikhlas
  /\ audio_src second = File (s_audio ikhlas)
  /\ audio_src over = File (s_audio ikhlas)
  /\ message (state over) <> postRecitationMessage
  /\ isPlaying (state over) = true
  /\ playbackTimerRef over <> None
  /\ is_listening over = true.
Proof.
  cbv zeta. repeat split; try (vm_compute; reflexivity);
    vm_compute; discriminate.
Qed.


(** ** Content lookup by voice *)

Section Lookup.

Variable toLowerCase : jsstring -> jsstring.
Variable surahDatabase : list (jsstring * Surah).
Variable duaDatabase : list (jsstring * Dua).











Lemma playSurah_plays snap key s w :
  lookup_surah key surahDatabase = Some s ->
  let w' := playSurah surahDatabase snap key w in
  currentSurah (state w') = s_name s
  /\ message (state w') = recitingMsg s
  /\ match audioRef w with
     | Some _ => audio_src w' = File (s_audio s) /\ audio_is_playing w' = true
     | None => audioRef w' = None
     end.
Proof.
  intros Hl. cbv zeta. unfold playSurah. rewrite Hl.
  destruct w as [st a r wl pr pt tm nt sy].
  destruct snap as [[] ? ? ? ? ? ? ? ?], a, pt, sy;
    vm_compute; repeat split; reflexivity.
Qed.


End Lookup.





(** ** The buttons of the surah screen *)

Definition number_of (e : jsstring * Surah) : N := s_number (snd e).

Definition same_number (e x : jsstring * Surah) : bool :=
  N.eqb (number_of x) (number_of e).

Definition ascending (a b : jsstring * Surah) : Prop :=
  (number_of a <= number_of b)%N.

Definition strictly_ascending (a b : jsstring * Surah) : Prop :=
  (number_of a < number_of b)%N.

Definition distinct_numbers (l : list (jsstring * Surah)) : Prop :=
  NoDup (map number_of l).

(** The loop keeps an entry exactly when its number is new and no
    earlier entry has it. *)
Lemma first_of_each_number_spec seen l e :
  In e (first_of_each_number seen l) <->
  existsb (N.eqb (number_of e)) seen = false
  /\ find (same_number e) l = Some e.
Proof.
  revert seen. induction l as [|[k s] t IH]; intros seen;
    cbn [first_of_each_number find].
  - split; [intros []|intros [_ H]; discriminate].
  - change (same_number e (k, s)) with (N.eqb (s_number s) (number_of e)).
    destruct (N.eqb_spec (s_number s) (number_of e)) as [He|He].
    + destruct (existsb (N.eqb (s_number s)) seen) eqn:Hseen.
      * rewrite IH, <- He, Hseen. split; intros [H _]; discriminate.
      * cbn [In]. rewrite <- He, Hseen. split.
        -- intros [<-|H]; [now split|].
           apply IH in H. destruct H as [H _]. cbn [existsb] in H.
           now rewrite <- He, N.eqb_refl in H.
        -- intros [_ [= <-]]. now left.
    + destruct (existsb (N.eqb (s_number s)) seen) eqn:Hseen.
      * apply IH.
      * cbn [In]. rewrite IH. cbn [existsb].
        replace (number_of e =? s_number s)%N with false
          by (symmetry; apply N.eqb_neq; congruence).
        cbn [orb]. split; [|tauto].
        intros [<-|H]; [now cbn in He|exact H].
Qed.

Lemma first_of_each_number_distinct seen l :
  distinct_numbers (first_of_each_number seen l).
Proof.
  revert seen. induction l as [|[k s] t IH]; intros seen;
    cbn [first_of_each_number].
  - constructor.
  - destruct (existsb _ seen) eqn:Hseen; [apply IH|].
    unfold distinct_numbers. cbn [map]. constructor; [|apply IH].
    intros Hin. apply in_map_iff in Hin. destruct Hin as (e & He & Hin).
    apply first_of_each_number_spec in Hin. destruct Hin as [Hin _].
    cbn [existsb] in Hin. change (number_of (k, s)) with (s_number s) in He.
    now rewrite He, N.eqb_refl in Hin.
Qed.

Lemma first_of_each_number_length seen l :
  (List.length (first_of_each_number seen l) <= List.length l)%nat.
Proof.
  revert seen. induction l as [|[k s] t IH]; intros seen; cbn; [lia|].
  destruct (existsb _ seen);
    [specialize (IH seen)|specialize (IH (s_number s :: seen))]; cbn; lia.
Qed.

Lemma insert_by_number_perm x l : Permutation (x :: l) (insert_by_number x l).
Proof.
  induction l as [|y t IH]; cbn; [apply Permutation_refl|].
  destruct (_ <? _)%N; [|apply Permutation_refl].
  eapply perm_trans; [apply perm_swap|]. now apply perm_skip.
Qed.

Lemma sort_by_number_perm l : Permutation l (sort_by_number l).
Proof.
  induction l as [|x t IH]; cbn; [constructor|].
  eapply perm_trans; [apply perm_skip, IH|apply insert_by_number_perm].
Qed.

Lemma insert_by_number_sorted x l :
  StronglySorted ascending l -> StronglySorted ascending (insert_by_number x l).
Proof.
  induction 1 as [|y t Ht IH Hy]; cbn.
  - repeat constructor.
  - destruct (N.ltb_spec (s_number (snd y)) (s_number (snd x))) as [Hlt|Hge].
    + constructor; [exact IH|].
      apply (Permutation_Forall (insert_by_number_perm x t)).
      constructor; [unfold ascending, number_of; lia|exact Hy].
    + constructor; [now constructor|].
      constructor; [exact Hge|].
      eapply Forall_impl; [|exact Hy]. unfold ascending, number_of in *.
      intros z Hz. lia.
Qed.

Lemma sort_by_number_sorted l : StronglySorted ascending (sort_by_number l).
Proof.
  induction l as [|x t IH]; cbn; [constructor|].
  now apply insert_by_number_sorted.
Qed.

Lemma ascending_distinct_strict l :
  StronglySorted ascending l -> distinct_numbers l ->
  StronglySorted strictly_ascending l.
Proof.
  induction 1 as [|x t Ht IH Hx]; intros Hd; [constructor|].
  unfold distinct_numbers in Hd. cbn [map] in Hd.
  inversion Hd as [|? ? Hnin Hd']; subst.
  constructor; [now apply IH|].
  apply Forall_forall. intros y Hy.
  rewrite Forall_forall in Hx. specialize (Hx y Hy).
  unfold ascending, strictly_ascending in *.
  assert (number_of x <> number_of y).
  { intros E. apply Hnin. rewrite E. now apply in_map. }
  lia.
Qed.

Lemma find_same_number (e b : jsstring * Surah) l :
  number_of b = number_of e ->
  find (same_number b) l = find (same_number e) l.
Proof.
  intros Hb. induction l as [|x t IH]; cbn; [reflexivity|].
  unfold same_number at 1 3. now rewrite Hb, IH.
Qed.

Lemma uniqueSurahs_in (surahDatabase : list (jsstring * Surah)) e :
  In e (uniqueSurahs surahDatabase) <->
  find (same_number e) surahDatabase = Some e.
Proof.
  unfold uniqueSurahs.
  set (picked := first_of_each_number [] surahDatabase).
  pose proof (sort_by_number_perm picked) as Hperm. split.
  - intros H. apply (Permutation_in _ (Permutation_sym Hperm)) in H.
    now apply first_of_each_number_spec in H.
  - intros H. apply (Permutation_in _ Hperm).
    apply first_of_each_number_spec. now split.
Qed.

(** [uniqueSurahs]: the surah screen shows one button for each surah
    number of the catalogue, in strictly ascending order of the numbers;
    the button of a number carries the first entry of the catalogue that
    has this number (a later alias of the same surah gets no button). *)
Theorem surah_buttons (surahDatabase : list (jsstring * Surah)) :
  let buttons := uniqueSurahs surahDatabase in
  StronglySorted strictly_ascending buttons
  /\ (forall e, In e buttons <-> find (same_number e) surahDatabase = Some e)
  /\ (forall e, In e surahDatabase ->
        exists b, In b buttons /\ number_of b = number_of e)
  /\ (List.length buttons <= List.length surahDatabase)%nat.
Proof.
  cbv zeta.
  split; [|split; [apply uniqueSurahs_in|split]].
  - unfold uniqueSurahs.
    set (picked := first_of_each_number [] surahDatabase).
    apply ascending_distinct_strict; [apply sort_by_number_sorted|].
    unfold distinct_numbers.
    apply (Permutation_NoDup
             (Permutation_map number_of (sort_by_number_perm picked))).
    apply first_of_each_number_distinct.
  - intros e He.
    destruct (find (same_number e) surahDatabase) as [b|] eqn:Hb.
    + pose proof (find_some _ _ Hb) as [_ Hb2].
      unfold same_number in Hb2. apply N.eqb_eq in Hb2.
      exists b. split; [|exact Hb2]. apply uniqueSurahs_in.
      now rewrite (@find_same_number e b surahDatabase Hb2).
    + exfalso. apply (find_none _ _ Hb) in He. unfold same_number in He.
      now rewrite N.eqb_refl in He.
  - unfold uniqueSurahs.
    rewrite <- (Permutation_length (sort_by_number_perm _)).
    apply first_of_each_number_length.
Qed.

Lemma lookup_surah_unique key s db :
  NoDup (map fst db) -> In (key, s) db -> lookup_surah key db = Some s.
Proof.
  induction db as [|[k x] t IH]; [intros _ []|].
  cbn [map fst lookup_surah In]. intros Hnd Hin.
  inversion Hnd as [|? ? Hk Ht]; subst.
  destruct (str_eqb k key) eqn:Hkk.
  - apply str_eqb_eq in Hkk. subst k.
    destruct Hin as [[= ->]|Hin]; [reflexivity|].
    exfalso. apply Hk. change key with (fst (key, s)). now apply in_map.
  - destruct Hin as [[= -> ->]|Hin]; [|now apply IH].
    assert (str_eqb key key = true) by now apply str_eqb_eq. congruence.
Qed.

(** A click on a surah button always finds its surah (the catalogue is an
    object, so its keys are pairwise different): the not-found message of
    [playSurah] never comes from a button.  The surah becomes the current
    one, its recitation message is shown and, when the audio element
    exists, its file is played. *)
Theorem surah_button_plays_its_surah
  (surahDatabase : list (jsstring * Surah)) (key : jsstring) (s : Surah)
  (w : World) :
  NoDup (map fst surahDatabase) ->
  In (key, s) (uniqueSurahs surahDatabase) ->
  let w' := click_surah surahDatabase key w in
  lookup_surah key surahDatabase = Some s
  /\ currentSurah (state w') = s_name s
  /\ message (state w') = recitingMsg s
  /\ match audioRef w with
     | Some _ => audio_src w' = File (s_audio s) /\ audio_is_playing w' = true
     | None => audioRef w' = None
     end.
Proof.
  intros Hnd Hin. cbv zeta.
  assert (Hl : lookup_surah key surahDatabase = Some s).
  { apply lookup_surah_unique; [exact Hnd|].
    apply uniqueSurahs_in in Hin. now apply find_some in Hin. }
  split; [exact Hl|].
  exact (@playSurah_plays surahDatabase (state w) key s w Hl).
Qed.

Lemma surah_button_plays_its_surah_witness :
  let w' := click_surah example_surahs (js "al-ikhlas") surah_world in
  NoDup (map fst example_surahs)
  /\ uniqueSurahs example_surahs = [(js "fatiha", fatiha); (js "al-ikhlas", ikhlas)]
  /\ currentSurah (state w') = s_name ikhlas
  /\ audio_src w' = File (s_audio ikhlas).
Proof.
  cbv zeta.
  assert (Hnd : NoDup (map fst example_surahs)).
  { repeat constructor; cbn; intuition discriminate. }
  assert (Hu : uniqueSurahs example_surahs
               = [(js "fatiha", fatiha); (js "al-ikhlas", ikhlas)])
    by (vm_compute; reflexivity).
  assert (Hin : In (js "al-ikhlas", ikhlas) (uniqueSurahs example_surahs))
    by (rewrite Hu; right; now left).
  destruct (@surah_button_plays_its_surah example_surahs (js "al-ikhlas")
              ikhlas surah_world Hnd Hin) as (_ & H2 & _ & H4).
  split; [exact Hnd|]. split; [exact Hu|]. split; [exact H2|].
  exact (proj1 H4).
Defined.

(** ** The 60-second limit of a recitation *)




(** ** Going back *)

(** What both ways back share: whatever played or listened in [w] is
    stopped in [w'], and the surah survives only on the surah screen. *)
Definition halted (snap : State) (w w' : World) : Prop :=
  isPlaying (state w') = false
  /\ audio_is_playing w' = false
  /\ is_listening w' = false
  /\ playbackTimerRef w' = None
  /\ currentSurah (state w') =
       (if screen_eqb (currentScreen snap) surah
        then currentSurah (state w) else [])
  /\ failedRecognitionAttempts (state w') = failedRecognitionAttempts (state w)
  /\ postRecitationActionInProgress w' = postRecitationActionInProgress w
  /\ isWelcomeSequencePlaying w' = isWelcomeSequencePlaying w.

(** [goBack] leads to the landing screen and [goBackToDuaList] to the dua
    list, both with playback and recognition stopped, the transcription
    and the dua message emptied and no dua selected.  [goBack] also
    empties the message and puts [isListening] back to false, which
    [goBackToDuaList] leaves as they are.  Neither touches the count of
    failed attempts nor the pending post-recitation flag, and from the
    surah screen the current surah is kept. *)
Theorem going_back (snap : State) (w : World) :
  let w1 := goBack snap w in
  let w2 := goBackToDuaList snap w in
  halted snap w w1
  /\ currentScreen (state w1) = landing
  /\ transcription (state w1) = [] /\ message (state w1) = []
  /\ duaMessage (state w1) = [] /\ currentDua (state w1) = None
  /\ isListening (state w1) = false
  /\ halted snap w w2
  /\ currentScreen (state w2) = duaList
  /\ transcription (state w2) = [] /\ duaMessage (state w2) = []
  /\ currentDua (state w2) = None
  /\ message (state w2) = message (state w)
  /\ isListening (state w2) = isListening (state w).
Proof.
  cbv zeta. unfold halted.
  destruct w as [s a r wl pr pt tm nt sy].
  destruct snap as [scr ? ? ? ? ? ? ? ?].
  destruct scr, a as [[]|], r as [[]|], pt, sy;
    vm_compute; repeat split; reflexivity.
Qed.

(** ** Stopping and starting twice *)

(** [stopPlayback], [stopListening] and [startListening] can be repeated:
    the second call changes nothing.  The two stops commute, and a stop
    after a start leaves no recognizer listening. *)
Theorem stop_and_start_compose
  (snap : State) (clearState force : bool) (w : World) :
  stopPlayback snap clearState (stopPlayback snap clearState w)
  = stopPlayback snap clearState w
  /\ stopListening (stopListening w) = stopListening w
  /\ stopListening (stopPlayback snap clearState w)
     = stopPlayback snap clearState (stopListening w)
  /\ startListening snap force (startListening snap force w)
     = startListening snap force w
  /\ is_listening (stopListening (startListening snap force w)) = false.
Proof.
  destruct w as [s a r wl pr pt tm nt sy].
  destruct snap as [scr ? ? ? ? ? ? ? ?].
  repeat split.
  - destruct scr, a as [[]|], pt, sy, clearState; vm_compute; reflexivity.
  - destruct r as [[]|]; reflexivity.
  - destruct scr, a as [[]|], r as [[]|], pt, sy, clearState;
      vm_compute; reflexivity.
  - destruct scr, a as [[[] ? ? ? ? ? ?]|], r as [[]|], wl, force;
      vm_compute; reflexivity.
  - destruct scr, a as [[[] ? ? ? ? ? ?]|], r as [[]|], wl, force;
      vm_compute; reflexivity.
Qed.

(** ** Recognition errors *)

(** The message an error shows on the surah screen and on the dua list. *)
Definition error_message (e : RecognitionError) : jsstring :=
  match e with
  | network => networkErrorMsg
  | no_speech => noSpeechMsg
  | not_allowed | service_not_allowed => micDeniedMsg
  | audio_capture | aborted | other_error => retryMsg
  end.

Definition counts_as_failure (snap : State) (e : RecognitionError) : bool :=
  screen_eqb (currentScreen snap) landing
  && match e with no_speech | audio_capture => true | _ => false end.

Lemma empty_command_unrecognized (toLowerCase : jsstring -> jsstring) :
  toLowerCase [] = [] -> unrecognized toLowerCase [] = true.
Proof. intros H. unfold unrecognized, lowerCommand. rewrite H. reflexivity. Qed.

(** [onerror] of the recognizer never leaves the screen and never changes
    the current surah or dua.  On the landing screen a 'no-speech' or
    'audio-capture' error is handled as an empty command, which counts as
    one more failed attempt.  Every other error only puts [isListening]
    back to false and shows a message: on the surah screen in [message],
    on the dua list in [duaMessage], nowhere on the other screens; the
    message names the network, the silence or the refused microphone, and
    is the general apology otherwise ('aborted' included). *)
Theorem recognition_error_handling
  (toLowerCase : jsstring -> jsstring) (snap : State) (e : RecognitionError)
  (w : World) :
  toLowerCase [] = [] ->
  let w' := recognition_onerror toLowerCase snap e w in
  currentScreen (state w') = currentScreen (state w)
  /\ currentSurah (state w') = currentSurah (state w)
  /\ currentDua (state w') = currentDua (state w)
  /\ if counts_as_failure snap e then
       w' = handleLandingCommand toLowerCase snap [] (setIsListening false w)
       /\ failedRecognitionAttempts (state w')
          = (failedRecognitionAttempts snap + 1)%N
     else
       isListening (state w') = false
       /\ failedRecognitionAttempts (state w') = failedRecognitionAttempts (state w)
       /\ audioRef w' = audioRef w /\ recognitionRef w' = recognitionRef w
       /\ message (state w') =
            (if screen_eqb (currentScreen snap) surah
             then error_message e else message (state w))
       /\ duaMessage (state w') =
            (if screen_eqb (currentScreen snap) duaList
             then error_message e else duaMessage (state w)).
Proof.
  intros Hlow. cbv zeta.
  destruct (counts_as_failure snap e) eqn:Hc.
  - unfold counts_as_failure in Hc. apply andb_true_iff in Hc.
    destruct Hc as [Hscr He].
    assert (Hw : recognition_onerror toLowerCase snap e w
                 = handleLandingCommand toLowerCase snap []
                     (setIsListening false w)).
    { unfold recognition_onerror.
      destruct (currentScreen snap); try discriminate;
        destruct e; try discriminate; reflexivity. }
    rewrite Hw.
    destruct (unrecognized_no_keyword _ _ (empty_command_unrecognized _ Hlow))
      as (H1 & H2 & H3).
    unfold handleLandingCommand. rewrite H1, H2, H3.
    generalize (failedRecognitionAttempts snap + 1)%N. intros n.
    destruct w as [s a r wl pr pt tm nt sy].
    destruct snap as [scr ? ? ? ? ? ? ? ?]. cbn in Hscr.
    destruct scr; try discriminate.
    destruct (n <? 3)%N, a as [[[] ? ? ? ? ? ?]|], r as [[]|], wl;
      vm_compute; repeat split; reflexivity.
  - assert (Hr : (match currentScreen snap, e with
                  | landing, no_speech | landing, audio_capture => true
                  | _, _ => false
                  end) = false).
    { unfold counts_as_failure in Hc. destruct (currentScreen snap), e;
        try reflexivity; discriminate. }
    unfold recognition_onerror. rewrite Hr.
    destruct w as [s a r wl pr pt tm nt sy].
    destruct snap as [scr ? ? ? ? ? ? ? ?].
    destruct scr, e; vm_compute; repeat split; reflexivity.
Qed.

Lemma recognition_error_handling_witness :
  let w' := recognition_onerror ascii_lower (state landing_world) no_speech
              landing_world in
  ascii_lower [] = []
  /\ currentScreen (state w') = currentScreen (state landing_world).
Proof.
  cbv zeta. split; [reflexivity|].
  exact (proj1 (@recognition_error_handling ascii_lower (state landing_world)
                  no_speech landing_world eq_refl)).
Defined.

(** ** The recognizer across renders *)

(** The screens on which the effect of lines 551-616 keeps a recognizer
    with handlers. *)
Definition voice_screen (s : Screen) : bool :=
  match s with
  | quiz | quizRules | initial | duaPlayer => false
  | _ => true
  end.

(** When the effect runs again, for a render [after] that follows a render
    [before]: on 'quiz' and 'initial' the recognizer is dropped; on
    'quizRules' and 'duaPlayer' it is stopped and kept; on the other
    screens the object at hand is used again, and made only when there is
    none and the browser supports recognition.  A recognizer is listening
    afterwards only if it was listening before, [before] had no cleanup
    (not a voice screen) and [after] is a voice screen.  React state, the
    audio element and the timers are not touched; pending speech synthesis
    is cancelled when [before] was a voice screen. *)
Theorem recognizer_across_renders
  (before after : State) (supported : bool) (w : World) :
  let w' := recognition_effect after supported (recognition_cleanup before w) in
  match currentScreen after with
  | quiz | initial => recognitionRef w' = None
  | quizRules | duaPlayer =>
      recognitionRef w' = option_map rec_stop (recognitionRef w)
  | _ =>
      match recognitionRef w with
      | Some r =>
          recognitionRef w' =
            Some (if voice_screen (currentScreen before) then rec_stop r else r)
      | None =>
          recognitionRef w' = if supported then Some new_recognizer else None
      end
  end
  /\ (is_listening w' = true ->
        is_listening w = true
        /\ voice_screen (currentScreen before) = false
        /\ voice_screen (currentScreen after) = true)
  /\ state w' = state w /\ audioRef w' = audioRef w /\ timers w' = timers w
  /\ speechSynthesis w' =
       match speechSynthesis w with
       | Some b => Some (if voice_screen (currentScreen before) then false else b)
       | None => None
       end.
Proof.
  cbv zeta.
  destruct w as [s a r wl pr pt tm nt sy].
  destruct before as [b ? ? ? ? ? ? ? ?], after as [c ? ? ? ? ? ? ? ?].
  destruct b, c, r as [[l []]|], sy, supported;
    vm_compute; repeat split; try reflexivity; try discriminate;
    intros H; discriminate H.
Qed.


End AppSpec.

(** * The application as a whole *)

Module ShellSpec.
Import JS App Shell AppSpec.

(** What the user meets after a sequence of events: the screen, what the
    audio element is playing and in which language the recognizer is
    listening. *)
Definition report (sh : World) : Screen * option Src * option jsstring :=
  (screen sh, speaking sh, listening_in sh).

Definition tamil (text : jsstring) : option Src := Some (Speech text (js "ta")).

(** An utterance that begins and is played to its end. *)
Definition heard_out : list Event := [Playing; Ended].

(** From the launch to the end of the welcome sequence, and on to the end
    of the landing sequence by the Continue button. *)
Definition welcomed : list Event := Press welcome :: heard_out ++ heard_out.

Definition landed : list Event :=
  welcomed ++ Press landing :: Timer 1 :: heard_out ++ heard_out.

(** ** Cancellation is for good *)

(** [l'] has every mark of [l]. *)
Definition keeps_marks (l l' : list bool) : Prop :=
  forall n, nth n l false = true -> nth n l' false = true.

Lemma keeps_marks_refl l : keeps_marks l l.
Proof. intros n H; exact H. Qed.

Lemma keeps_marks_trans l1 l2 l3 :
  keeps_marks l1 l2 -> keeps_marks l2 l3 -> keeps_marks l1 l3.
Proof. intros H1 H2 n H. apply H2, H1, H. Qed.

Lemma keeps_marks_mark run l : keeps_marks l (mark run l).
Proof.
  revert run. induction l as [|b t IH]; intros run n H.
  - destruct run; exact H.
  - destruct run as [|r]; destruct n as [|m]; simpl in *; try assumption.
    + reflexivity.
    + apply IH, H.
Qed.

Lemma keeps_marks_app l : keeps_marks l (l ++ [false]).
Proof.
  intros n H. destruct (Nat.lt_ge_cases n (List.length l)) as [Hlt|Hge].
  - rewrite app_nth1 by exact Hlt. exact H.
  - rewrite nth_overflow in H by exact Hge. discriminate.
Qed.

Lemma mark_marks run l : (run < List.length l)%nat -> nth run (mark run l) false = true.
Proof.
  revert run. induction l as [|b t IH]; intros run H; simpl in H.
  - lia.
  - destruct run as [|r]; simpl.
    + reflexivity.
    + apply IH. lia.
Qed.

Lemma cancelled_playAudio run stage snap text lang sh sh' :
  playAudio run stage snap text lang sh = Some sh' ->
  cancelled sh' = cancelled sh.
Proof.
  unfold playAudio. destruct (is_cancelled run sh); [discriminate|].
  destruct (audioRef (app sh)); [|discriminate].
  intros H; injection H as <-. reflexivity.
Qed.

Lemma cancelled_welcome_finally run sh :
  cancelled (welcome_finally run sh) = cancelled sh.
Proof. unfold welcome_finally. destruct (is_cancelled run sh); reflexivity. Qed.

Lemma cancelled_play_chunk run snap queue sh :
  cancelled (play_chunk run snap queue sh) = cancelled sh.
Proof.
  unfold play_chunk. destruct queue; [reflexivity|].
  destruct (is_cancelled run sh); [reflexivity|].
  destruct (audioRef (app sh)); reflexivity.
Qed.

Ltac by_playAudio :=
  match goal with
  | |- context [playAudio ?r ?st ?sn ?t ?la ?sh] =>
      let E := fresh "E" in
      destruct (playAudio r st sn t la sh) eqn:E;
      [rewrite (cancelled_playAudio _ _ _ _ _ _ E)|]
  end.

Lemma cancelled_onEnded l sh : cancelled (onEnded l sh) = cancelled sh.
Proof.
  unfold onEnded.
  destruct (l_stage l);
    rewrite ?cancelled_welcome_finally;
    try destruct (is_cancelled (l_run l) (remove_listener l sh));
    try by_playAudio;
    rewrite ?cancelled_welcome_finally, ?cancelled_play_chunk; reflexivity.
Qed.

Lemma cancelled_onError l sh : cancelled (onError l sh) = cancelled sh.
Proof.
  unfold onError.
  destruct (l_stage l);
    rewrite ?cancelled_welcome_finally;
    try destruct (is_cancelled (l_run l) (remove_listener l sh));
    reflexivity.
Qed.

Lemma cancelled_dispatch (handler : Listener -> World -> World) :
  (forall l sh, cancelled (handler l sh) = cancelled sh) ->
  forall sh, cancelled (dispatch handler sh) = cancelled sh.
Proof.
  intros Hh sh. unfold dispatch.
  generalize (listeners sh) as ls. intros ls. revert sh.
  induction ls as [|l t IH]; intros sh; simpl.
  - reflexivity.
  - rewrite IH. destruct (is_registered l sh); [apply Hh | reflexivity].
Qed.

Lemma cancelled_run_option cb sh : cancelled (run_option cb sh) = cancelled sh.
Proof. destruct cb; reflexivity. Qed.

Lemma cancelled_run_rejection r sh : cancelled (run_rejection r sh) = cancelled sh.
Proof. destruct r; [apply cancelled_onError | reflexivity]. Qed.

Lemma cancelled_reject_play sh : cancelled (reject_play sh) = cancelled sh.
Proof.
  unfold reject_play.
  destruct (audioRef (app sh)) as [a|]; [|reflexivity].
  destruct (play_catch a); [reflexivity|].
  destruct (rejection sh); [|reflexivity].
  rewrite cancelled_run_rejection. reflexivity.
Qed.

Lemma cancelled_run_delay d sh : cancelled (run_delay d sh) = cancelled sh.
Proof.
  destruct d as [run snap|snap]; [|reflexivity].
  unfold run_delay. destruct (is_cancelled run sh); [reflexivity|].
  by_playAudio; reflexivity.
Qed.

Section Fire.
Variable toLowerCase : jsstring -> jsstring.
Variable surahDatabase : list (jsstring * Surah).
Variable duaDatabase : list (jsstring * Dua).

Lemma cancelled_fire e sh sh' :
  fire toLowerCase surahDatabase duaDatabase e sh = Some sh' ->
  cancelled sh' = cancelled sh.
Proof.
  unfold fire. intros H.
  destruct e;
    repeat match type of H with
           | context [match ?x with _ => _ end] =>
               match type of x with
               | sumbool _ _ => destruct x
               | _ => destruct x eqn:?
               end
           end;
    try discriminate; injection H as <-;
    repeat first
      [ rewrite cancelled_run_option
      | rewrite cancelled_reject_play
      | rewrite cancelled_run_delay
      | rewrite (cancelled_dispatch onEnded cancelled_onEnded)
      | rewrite (cancelled_dispatch onError cancelled_onError) ];
    reflexivity.
Qed.
End Fire.

Lemma marks_run_cleanup c sh :
  keeps_marks (cancelled sh) (cancelled (run_cleanup c sh)).
Proof.
  destruct c as [run snap|run snap|run snap|run snap u|snap]; unfold run_cleanup.
  - apply keeps_marks_mark.
  - apply keeps_marks_mark.
  - apply keeps_marks_mark.
  - destruct (audioRef (app (cancel run sh))) as [a|].
    + destruct (src_eqb (src a) u); apply keeps_marks_mark.
    + apply keeps_marks_mark.
  - apply keeps_marks_refl.
Qed.

Lemma marks_cleanups cs : forall sh,
  keeps_marks (cancelled sh)
    (cancelled (fold_left (fun sh c => run_cleanup c sh) cs sh)).
Proof.
  induction cs as [|c t IH]; intros sh; simpl.
  - apply keeps_marks_refl.
  - eapply keeps_marks_trans; [apply marks_run_cleanup | apply IH].
Qed.

Lemma marks_welcome_effect snap sh :
  keeps_marks (cancelled sh) (cancelled (welcome_effect snap sh)).
Proof.
  unfold welcome_effect. destruct (currentScreen snap); try apply keeps_marks_refl.
  unfold new_run. cbv beta iota zeta.
  match goal with |- context [playAudio ?r ?st ?sn ?t ?la ?x] =>
    destruct (playAudio r st sn t la x) eqn:E end.
  - unfold add_cleanup.
    change (cancelled (set_cleanups ?v ?x)) with (cancelled x).
    rewrite (cancelled_playAudio _ _ _ _ _ _ E). exact (keeps_marks_app (cancelled sh)).
  - unfold add_cleanup.
    change (cancelled (set_cleanups ?v ?x)) with (cancelled x).
    rewrite cancelled_welcome_finally. exact (keeps_marks_app (cancelled sh)).
Qed.

Lemma marks_landing_effect snap sh :
  keeps_marks (cancelled sh) (cancelled (landing_effect snap sh)).
Proof.
  unfold landing_effect. destruct (currentScreen snap); try apply keeps_marks_refl.
  exact (keeps_marks_app (cancelled sh)).
Qed.

Lemma marks_rules_effect snap sh :
  keeps_marks (cancelled sh) (cancelled (rules_effect snap sh)).
Proof.
  unfold rules_effect. destruct (currentScreen snap); try apply keeps_marks_refl.
  unfold new_run. cbv beta iota zeta. unfold add_cleanup.
  change (cancelled (set_cleanups ?v ?x)) with (cancelled x).
  match goal with |- context [match ?x with Some _ => _ | None => _ end] =>
    destruct x end.
  - rewrite cancelled_play_chunk. exact (keeps_marks_app (cancelled sh)).
  - exact (keeps_marks_app (cancelled sh)).
Qed.

Lemma marks_instruction_effect snap sh :
  keeps_marks (cancelled sh) (cancelled (instruction_effect snap sh)).
Proof.
  unfold instruction_effect.
  destruct (currentScreen snap); try apply keeps_marks_refl;
    unfold new_run; cbv beta iota zeta; unfold add_cleanup;
    change (cancelled (set_cleanups ?v ?x)) with (cancelled x);
    match goal with |- context [match ?x with Some _ => _ | None => _ end] =>
      destruct x end;
    exact (keeps_marks_app (cancelled sh)).
Qed.

Lemma cancelled_dua_effect snap sh :
  cancelled (dua_effect snap sh) = cancelled sh.
Proof.
  unfold dua_effect. destruct (currentScreen snap); try reflexivity.
  destruct (currentDua snap); [|reflexivity].
  unfold playDua.
  match goal with |- context [match ?x with Some _ => _ | None => _ end] =>
    destruct x end; reflexivity.
Qed.

Lemma cancelled_recognizer_effect snap sh :
  cancelled (recognizer_effect snap sh) = cancelled sh.
Proof.
  unfold recognizer_effect. destruct (listens_on (currentScreen snap)); [|reflexivity].
  match goal with |- context [if ?c then _ else _] => destruct c end; reflexivity.
Qed.

Lemma marks_commit_once sh :
  keeps_marks (cancelled sh) (cancelled (commit_once sh)).
Proof.
  unfold commit_once.
  set (old := rendered sh). set (new := state (app sh)).
  set (sh1 := fold_left _ _ _).
  assert (H1 : keeps_marks (cancelled sh) (cancelled sh1))
    by (subst sh1;
        match goal with |- keeps_marks _ (cancelled (fold_left _ ?cs ?x)) =>
          exact (marks_cleanups cs x) end).
  clearbody sh1.
  set (sh2 := if screen_changed old new then welcome_effect new sh1 else sh1).
  assert (H2 : keeps_marks (cancelled sh) (cancelled sh2)).
  { subst sh2. destruct (screen_changed old new); [|exact H1].
    eapply keeps_marks_trans; [exact H1 | apply marks_welcome_effect]. }
  clearbody sh2. clear H1 sh1.
  set (sh3 := if screen_changed old new then landing_effect new sh2 else sh2).
  assert (H3 : keeps_marks (cancelled sh) (cancelled sh3)).
  { subst sh3. destruct (screen_changed old new); [|exact H2].
    eapply keeps_marks_trans; [exact H2 | apply marks_landing_effect]. }
  clearbody sh3. clear H2 sh2.
  set (sh4 := if screen_changed old new then rules_effect new sh3 else sh3).
  assert (H4 : keeps_marks (cancelled sh) (cancelled sh4)).
  { subst sh4. destruct (screen_changed old new); [|exact H3].
    eapply keeps_marks_trans; [exact H3 | apply marks_rules_effect]. }
  clearbody sh4. clear H3 sh3.
  set (sh5 := if screen_changed old new then instruction_effect new sh4 else sh4).
  assert (H5 : keeps_marks (cancelled sh) (cancelled sh5)).
  { subst sh5. destruct (screen_changed old new); [|exact H4].
    eapply keeps_marks_trans; [exact H4 | apply marks_instruction_effect]. }
  clearbody sh5. clear H4 sh4.
  set (sh6 := if screen_changed old new || dua_changed old new
              then dua_effect new sh5 else sh5).
  assert (H6 : keeps_marks (cancelled sh) (cancelled sh6)).
  { subst sh6. destruct (screen_changed old new || dua_changed old new); [|exact H5].
    rewrite cancelled_dua_effect. exact H5. }
  clearbody sh6. clear H5 sh5.
  destruct (recognizer_deps_changed old new); [|exact H6].
  rewrite cancelled_recognizer_effect. exact H6.
Qed.

Lemma marks_commit fuel : forall sh,
  keeps_marks (cancelled sh) (cancelled (commit fuel sh)).
Proof.
  induction fuel as [|n IH]; intros sh; simpl.
  - apply keeps_marks_refl.
  - destruct (state_eqb (rendered sh) (state (app sh))).
    + apply keeps_marks_refl.
    + eapply keeps_marks_trans; [apply marks_commit_once | apply IH].
Qed.

Section Steps.
Variable toLowerCase : jsstring -> jsstring.
Variable surahDatabase : list (jsstring * Surah).
Variable duaDatabase : list (jsstring * Dua).

Lemma marks_step e sh sh' :
  step toLowerCase surahDatabase duaDatabase e sh = Some sh' ->
  keeps_marks (cancelled sh) (cancelled sh').
Proof.
  unfold step.
  destruct (fire toLowerCase surahDatabase duaDatabase e sh) as [sh1|] eqn:E;
    [|discriminate].
  rewrite <- (cancelled_fire _ _ _ _ _ E).
  generalize (marks_commit 8 sh1). generalize (commit 8 sh1). intros c Hc.
  destruct (settled c); [|discriminate].
  intros H; injection H as <-. exact Hc.
Qed.

Lemma marks_run trace : forall sh sh',
  run toLowerCase surahDatabase duaDatabase trace sh = Some sh' ->
  keeps_marks (cancelled sh) (cancelled sh').
Proof.
  induction trace as [|e t IH]; intros sh sh'; simpl.
  - intros H; injection H as <-. apply keeps_marks_refl.
  - destruct (step toLowerCase surahDatabase duaDatabase e sh) as [sh1|] eqn:E;
      [|discriminate].
    intros H. eapply keeps_marks_trans; [exact (marks_step _ _ E) | exact (IH _ _ H)].
Qed.

End Steps.

(** The run whose [cancelled] variable a cleanup sets. *)
Definition run_of (c : Cleanup) : option nat :=
  match c with
  | CleanWelcome run _ | CleanLanding run _ | CleanRules run _
  | CleanInstruction run _ _ => Some run
  | CleanRecognizer _ => None
  end.

Lemma cancelled_run_cleanup c run sh :
  run_of c = Some run -> cancelled (run_cleanup c sh) = mark run (cancelled sh).
Proof.
  destruct c as [r snap|r snap|r snap|r snap u|snap]; intros H;
    try discriminate; injection H as ->; unfold run_cleanup; try reflexivity.
  destruct (audioRef (app (cancel run sh))) as [a|]; [|reflexivity].
  destruct (src_eqb (src a) u); reflexivity.
Qed.

(** What is left of a cancelled run does nothing but detach itself. *)
Definition inert (run : nat) (sh : World) : Prop :=
  (forall l, l_run l = run -> l_stage l <> intro ->
     onEnded l sh = remove_listener l sh /\ onError l sh = remove_listener l sh)
  /\ (forall snap, run_delay (LandingDelay run snap) sh = sh)
  /\ (forall snap queue, play_chunk run snap queue sh = sh).

Lemma cancelled_inert run sh : is_cancelled run sh = true -> inert run sh.
Proof.
  intros Hc. repeat split.
  - assert (Hr : is_cancelled (l_run l) (remove_listener l sh) = true)
      by (rewrite H; exact Hc).
    unfold onEnded. destruct (l_stage l); try rewrite Hr; try reflexivity.
    + contradiction H0; reflexivity.
  - assert (Hr : is_cancelled (l_run l) (remove_listener l sh) = true)
      by (rewrite H; exact Hc).
    unfold onError, welcome_finally.
    destruct (l_stage l); try rewrite Hr; try reflexivity.
    + contradiction H0; reflexivity.
  - intros snap. unfold run_delay. rewrite Hc. reflexivity.
  - intros snap queue. unfold play_chunk. rewrite Hc. destruct queue; reflexivity.
Qed.

Section Cancellation.

Variable toLowerCase : jsstring -> jsstring.
Variable surahDatabase : list (jsstring * Surah).
Variable duaDatabase : list (jsstring * Dua).

(** Once the cleanup of an effect has run, the sequence that effect began
    is cancelled and stays so whatever happens afterwards: its listeners
    only take themselves off the audio element when an utterance ends or
    fails, its timer and its loop over the rules do nothing.  The
    listeners of the welcome introduction are the exception, see
    [welcome_cut_short]. *)
Theorem cleaned_up_sequence_is_inert
  (c : Cleanup) (n : nat) (sh sh' : World) (trace : list Event) :
  run_of c = Some n ->
  (n < List.length (cancelled sh))%nat ->
  run toLowerCase surahDatabase duaDatabase trace (run_cleanup c sh) = Some sh' ->
  is_cancelled n sh' = true /\ inert n sh'.
Proof.
  intros Hc Hn Hrun.
  assert (H : is_cancelled n sh' = true).
  { apply (@marks_run toLowerCase surahDatabase duaDatabase trace _ _ Hrun).
    rewrite (@cancelled_run_cleanup c n sh Hc). apply mark_marks, Hn. }
  split; [exact H | apply cancelled_inert, H].
Qed.

End Cancellation.

Section Sessions.

Variable toLowerCase : jsstring -> jsstring.
Variable surahDatabase : list (jsstring * Surah).
Variable duaDatabase : list (jsstring * Dua).
Variable synthesis : bool.

(** The application launched in a browser that has speech recognition,
    after the events of [trace]. *)
Definition session (trace : list Event) : option World :=
  run toLowerCase surahDatabase duaDatabase trace (mount true synthesis).

Definition outcome (trace : list Event) :
  option (Screen * option Src * option jsstring) :=
  option_map report (session trace).

Definition welcome_flag (trace : list Event) : option bool :=
  option_map (fun sh => isWelcomeSequencePlaying (app sh)) (session trace).

(** Whether anything is left that could speak or listen by itself: the
    language listened in, the listeners on the audio element, the timers
    of the effects. *)
Definition left_over (trace : list Event) : option (option jsstring * nat * nat) :=
  option_map
    (fun sh => (listening_in sh, List.length (listeners sh),
                List.length (delays sh)))
    (session trace).

(** ** The welcome sequence *)

(** The Start button leads to the welcome screen, where the Arabic
    greeting is spoken, then the Tamil introduction, and then the
    recognizer listens, in English, for "Continue";
    [isWelcomeSequencePlaying] is set from the first utterance until the
    end of the second.  If the greeting cannot be played the sequence ends
    there, without introduction and without listening; if the
    introduction cannot be played the recognizer listens all the same. *)
Theorem welcome_sequence :
  outcome [] = Some (initial, None, None)
  /\ outcome [Press welcome]
     = Some (welcome, Some (Speech arabicGreeting (js "ar")), None)
  /\ outcome (Press welcome :: heard_out)
     = Some (welcome, tamil tamilIntro, None)
  /\ outcome welcomed = Some (welcome, None, Some (js "en-US"))
  /\ welcome_flag [Press welcome] = Some true
  /\ welcome_flag (Press welcome :: heard_out) = Some true
  /\ welcome_flag welcomed = Some false
  /\ left_over [Press welcome; AudioError] = Some (None, 0%nat, 0%nat)
  /\ welcome_flag [Press welcome; AudioError] = Some false
  /\ left_over (Press welcome :: heard_out ++ [AudioError])
     = Some (Some (js "en-US"), 0%nat, 0%nat)
  /\ welcome_flag (Press welcome :: heard_out ++ [AudioError]) = Some false.
Proof.
  unfold outcome, welcome_flag, left_over, session, welcomed, heard_out.
  destruct synthesis;
    repeat match goal with |- _ /\ _ => split end; vm_compute; reflexivity.
Qed.

(** ** The landing sequence *)



(** ** A welcome sequence cut short *)

(** The listeners of the welcome introduction call
    [startListening(true)] whether or not their sequence has been
    cancelled.  So when the Continue button is pressed while the
    introduction plays, the listeners stay on the audio element, run when
    the next utterance ends, the greeting of the landing screen, and start
    the recognizer with the language of the welcome screen: the choice is
    then spoken while the recognizer listens, in English.  When the button
    is pressed before the introduction has begun to play, the rejection of
    the interrupted [play()] starts the recognizer in the same way, ahead
    of the greeting. *)
Theorem welcome_cut_short :
  let cut := [Press welcome; Playing; Ended; Playing; Press landing] in
  let early := [Press welcome; Playing; Ended; Press landing] in
  (forall l sh, l_stage l = intro ->
     onEnded l sh
     = welcome_finally (l_run l)
         (lift (startListening (l_snap l) true) (remove_listener l sh))
     /\ onError l sh = onEnded l sh)
  /\ left_over cut = Some (None, 1%nat, 1%nat)
  /\ outcome (cut ++ [Timer 1]) = Some (landing, tamil tamilGreeting, None)
  /\ outcome (cut ++ Timer 1 :: heard_out)
     = Some (landing, tamil tamilChoice, Some (js "en-US"))
  /\ outcome early = Some (landing, None, None)
  /\ outcome (early ++ [PlayRejected]) = Some (landing, None, Some (js "en-US"))
  /\ outcome (early ++ [PlayRejected; Timer 1])
     = Some (landing, tamil tamilGreeting, Some (js "en-US")).
Proof.
  cbv zeta. split.
  - intros l sh Hl. unfold onEnded, onError. rewrite Hl. split; reflexivity.
  - unfold outcome, left_over, session, heard_out.
    destruct synthesis;
    repeat match goal with |- _ /\ _ => split end; vm_compute; reflexivity.
Qed.

(** ** The quiz rules *)

Fixpoint repeat_events (n : nat) (l : list Event) : list Event :=
  match n with
  | O => []
  | S m => l ++ repeat_events m l
  end.

(** The listeners of the rules never touch the recognizer. *)
Lemma rules_listener_keeps_recognizer (l : Listener) (rest : list jsstring)
  (sh : World) :
  l_stage l = rules_chunk rest ->
  recognitionRef (app (onEnded l sh)) = recognitionRef (app sh)
  /\ isListening (state (app (onEnded l sh))) = isListening (state (app sh))
  /\ recognitionRef (app (onError l sh)) = recognitionRef (app sh)
  /\ isListening (state (app (onError l sh))) = isListening (state (app sh)).
Proof.
  intros Hl. unfold onEnded, onError, play_chunk. rewrite Hl.
  destruct (is_cancelled (l_run l) (remove_listener l sh));
    [repeat split|].
  destruct rest as [|text rest']; [repeat split|].
  destruct (audioRef (app (remove_listener l sh))); repeat split.
Qed.

(** On the rules screen the title and the four rules are spoken one after
    the other, in this order, and nothing follows the last.  A text that
    cannot be played ends the reading.  The button that starts the quiz
    stops the reading and cancels the rest.  The listeners of the rules
    leave the recognizer alone, and coming from a landing screen whose
    sequences have been heard out nothing listens while the rules are
    read or afterwards.  The listeners of a welcome introduction that was
    cut short are still on the audio element, though: they run when the
    title has been spoken and start the recognizer, in English, while the
    first rule is read. *)
Theorem rules_are_read_in_order :
  let at_rules := landed ++ [Press quizRules] in
  let cut_short :=
    [Press welcome; Playing; Ended; Playing; Press landing; Timer 1;
     Press quizRules] in
  map (fun n => outcome (at_rules ++ repeat_events n heard_out)) (seq 0 6)
  = map (fun text => Some (quizRules, text, None))
      (map tamil audioQueue ++ [None])
  /\ List.length audioQueue = 5%nat
  /\ left_over (at_rules ++ repeat_events 5 heard_out)
     = Some (None, 0%nat, 0%nat)
  /\ left_over (at_rules ++ heard_out ++ [AudioError])
     = Some (None, 0%nat, 0%nat)
  /\ outcome (at_rules ++ heard_out ++ [Press quiz]) = Some (quiz, None, None)
  /\ option_map (fun sh => existsb (fun l => negb (is_cancelled (l_run l) sh))
                             (listeners sh))
       (session (at_rules ++ heard_out ++ [Press quiz]))
     = Some false
  /\ (forall l rest sh, l_stage l = rules_chunk rest ->
        recognitionRef (app (onEnded l sh)) = recognitionRef (app sh)
        /\ isListening (state (app (onEnded l sh))) = isListening (state (app sh))
        /\ recognitionRef (app (onError l sh)) = recognitionRef (app sh)
        /\ isListening (state (app (onError l sh))) = isListening (state (app sh)))
  /\ outcome cut_short = Some (quizRules, tamil rulesTitle, None)
  /\ outcome (cut_short ++ heard_out)
     = Some (quizRules, tamil (nth 0 rules []), Some (js "en-US")).
Proof.
  cbv zeta.
  repeat match goal with
         | |- (forall _, _) /\ _ => split; [exact rules_listener_keeps_recognizer|]
         | |- _ /\ _ => split
         end;
    unfold outcome, left_over, session, landed, welcomed, heard_out;
    destruct synthesis; vm_compute; reflexivity.
Qed.

(** ** The instruction of the surah screen and of the dua list *)

Definition messages (trace : list Event) : option (jsstring * jsstring) :=
  option_map (fun sh => (message (state (app sh)), duaMessage (state (app sh))))
    (session trace).

(** Entering the surah screen or the dua list, the instruction of the
    screen is spoken and then the recognizer listens: in English on the
    surah screen, in Tamil on the dua list, the screen showing the
    listening message in [message] or in [duaMessage].  If the instruction
    cannot be played the recognizer listens at once. *)
Theorem instruction_then_listening :
  outcome (landed ++ [Press surah]) = Some (surah, tamil surahInstruction, None)
  /\ outcome (landed ++ Press surah :: heard_out)
     = Some (surah, None, Some (js "en-US"))
  /\ messages (landed ++ Press surah :: heard_out) = Some (listeningMsg, [])
  /\ left_over (landed ++ [Press surah; AudioError])
     = Some (Some (js "en-US"), 0%nat, 0%nat)
  /\ outcome (landed ++ [Press duaList])
     = Some (duaList, tamil duaInstruction, None)
  /\ outcome (landed ++ Press duaList :: heard_out)
     = Some (duaList, None, Some (js "ta-IN"))
  /\ messages (landed ++ Press duaList :: heard_out) = Some ([], listeningMsg)
  /\ left_over (landed ++ [Press duaList; AudioError])
     = Some (Some (js "ta-IN"), 0%nat, 0%nat).
Proof.
  unfold outcome, messages, left_over, session, landed, welcomed, heard_out.
  destruct synthesis;
    repeat match goal with |- _ /\ _ => split end; vm_compute; reflexivity.
Qed.

End Sessions.

(** ** A recitation and a dua, with the example catalogues *)

Definition example_session (trace : list Event) : option World :=
  session ascii_lower example_surahs example_duas true trace.

Definition example_outcome (trace : list Event) :
  option (Screen * option Src * option jsstring) :=
  option_map report (example_session trace).

Definition playing_flag (trace : list Event) : option bool :=
  option_map (fun sh => isPlaying (state (app sh))) (example_session trace).

Definition example_messages (trace : list Event) : option (jsstring * jsstring) :=
  option_map (fun sh => (message (state (app sh)), duaMessage (state (app sh))))
    (example_session trace).

Definition selected_dua (trace : list Event) : option (option Dua) :=
  option_map (fun sh => currentDua (state (app sh))) (example_session trace).

(** The surah screen once its instruction has been heard, and a surah
    chosen there by its button. *)
Definition reciting : list Event :=
  landed ++ Press surah :: heard_out ++ [SurahButton (js "fatiha")].

(** [playSurah] puts [() => setIsPlaying(true)] in [onplaying] and nothing
    takes it away.  A recitation that has begun sets [isPlaying]; its end
    clears it and speaks the prompt that follows a recitation; when the
    prompt begins to play [isPlaying] is set again, and it is still set
    when the prompt has ended and the recognizer listens.  The round
    button then is the stop button: it shows the message of a stopped
    recitation and starts nothing. *)
Theorem playing_flag_outlives_recitation :
  example_outcome reciting = Some (surah, Some (File (s_audio fatiha)), None)
  /\ playing_flag reciting = Some false
  /\ playing_flag (reciting ++ [Playing]) = Some true
  /\ example_outcome (reciting ++ heard_out)
     = Some (surah, tamil postRecitationMessage, None)
  /\ playing_flag (reciting ++ heard_out) = Some false
  /\ playing_flag (reciting ++ heard_out ++ [Playing]) = Some true
  /\ example_outcome (reciting ++ heard_out ++ heard_out)
     = Some (surah, None, Some (js "en-US"))
  /\ playing_flag (reciting ++ heard_out ++ heard_out) = Some true
  /\ example_messages (reciting ++ heard_out ++ heard_out)
     = Some (listeningMsg, [])
  /\ example_messages (reciting ++ heard_out ++ heard_out ++ [RoundButton])
     = Some (stoppedMsg, [])
  /\ playing_flag (reciting ++ heard_out ++ heard_out ++ [RoundButton])
     = Some false.
Proof.
  unfold example_outcome, playing_flag, example_messages, example_session,
    session, reciting, landed, welcomed, heard_out.
  repeat match goal with |- _ /\ _ => split end; vm_compute; reflexivity.
Qed.

(** ** Entering the landing screen *)


Definition current_surah (trace : list Event) : option jsstring :=
  option_map (fun sh => currentSurah (state (app sh))) (example_session trace).


(** ** The end of a recitation *)

Definition prompt_flag (trace : list Event) : option bool :=
  option_map (fun sh => postRecitationActionInProgress (app sh))
    (example_session trace).

Definition limit_timer (trace : list Event) : option bool :=
  option_map
    (fun sh => match playbackTimerRef (app sh) with
               | Some id => existsb (Pos.eqb id) (map fst (timers (app sh)))
               | None => false
               end)
    (example_session trace).

(** The first recitation has ended and the prompt that follows it has
    begun to play. *)
Definition prompting : list Event := reciting ++ heard_out ++ [Playing].

(** C3: the end of a recitation does not always get its prompt, nor a
    manual stop its message.  While [postRecitationActionInProgress] is
    set, [handlePlaybackEnd] only clears it and calls
    [startListening(true)], whoever called it.  The flag is set when the
    prompt starts and cleared when the prompt ends (line 133) or fails
    (lines 165 and 169), but not when the prompt is cut off.  The first
    recitation of the session goes as intended: it ends, the prompt is
    shown and spoken, and when the prompt has ended the recognizer
    listens.
    - A surah picked from the list while the prompt plays leaves the flag
      set.  When that recitation ends by itself, playback is not stopped
      and no prompt is shown or spoken: the recognizer starts at once,
      [isPlaying] stays true and the timer that limits the recitation
      stays pending.
    - The round button pressed while the prompt plays, which shows the
      stop square then, does not stop it and shows no stopped message:
      the recognizer starts while the prompt goes on playing. *)
Theorem prompt_cut_off :
  (forall (snap : State) (isManualStop : bool) (w : App.World),
     postRecitationActionInProgress w = true ->
     handlePlaybackEnd snap isManualStop w
     = startListening snap true (set_postRecitationActionInProgress false w))
  /\ example_outcome (reciting ++ heard_out)
     = Some (surah, tamil postRecitationMessage, None)
  /\ example_messages (reciting ++ heard_out) = Some (postRecitationMessage, [])
  /\ prompt_flag prompting = Some true
  /\ playing_flag prompting = Some true
  /\ example_outcome (prompting ++ [Ended])
     = Some (surah, None, Some (js "en-US"))
  /\ prompt_flag (prompting ++ [Ended]) = Some false
  /\ (let again := prompting ++ [SurahButton (js "al-ikhlas"); Playing] in
      example_outcome again = Some (surah, Some (File (s_audio ikhlas)), None)
      /\ current_surah again = Some (s_name ikhlas)
      /\ prompt_flag again = Some true
      /\ limit_timer again = Some true
      /\ example_outcome (again ++ [Ended])
         = Some (surah, None, Some (js "en-US"))
      /\ example_messages (again ++ [Ended]) = Some (listeningMsg, [])
      /\ prompt_flag (again ++ [Ended]) = Some false
      /\ playing_flag (again ++ [Ended]) = Some true
      /\ limit_timer (again ++ [Ended]) = Some true)
  /\ example_outcome (prompting ++ [RoundButton])
     = Some (surah, tamil postRecitationMessage, Some (js "en-US"))
  /\ example_messages (prompting ++ [RoundButton]) = Some (listeningMsg, [])
  /\ playing_flag (prompting ++ [RoundButton]) = Some true.
Proof.
  split.
  - intros snap isManualStop w Hflag. unfold handlePlaybackEnd.
    rewrite Hflag. reflexivity.
  - cbv zeta.
    unfold example_outcome, example_messages, prompt_flag, playing_flag,
      current_surah, limit_timer, example_session, session, prompting,
      reciting, landed, welcomed, heard_out.
    repeat match goal with |- _ /\ _ => split end; vm_compute; reflexivity.
Qed.

(** The dua list once its instruction has been heard, and a dua chosen
    there by its button. *)
Definition praying : list Event :=
  landed ++ Press duaList :: heard_out ++ [DuaButton morning_dua].

(** Choosing a dua opens the player, which speaks the Arabic text of the
    dua with the Arabic voice, the recognizer being stopped.  When the
    text has been spoken, and likewise by the stop button or by the back
    button, the list returns with no dua selected and its instruction is
    spoken again.  When the text cannot be played, the failure message is
    put in [duaMessage] while the player is on screen, and two seconds
    later the list returns with [duaMessage] empty. *)
Theorem dua_player :
  example_outcome praying
  = Some (duaPlayer, Some (Speech (d_arabic morning_dua) (js "ar")), None)
  /\ playing_flag praying = Some false
  /\ playing_flag (praying ++ [Playing]) = Some true
  /\ Forall (fun leave =>
       example_outcome (praying ++ [Playing; leave])
       = Some (duaList, tamil duaInstruction, None)
       /\ selected_dua (praying ++ [Playing; leave]) = Some None
       /\ playing_flag (praying ++ [Playing; leave]) = Some false
       /\ example_messages (praying ++ [Playing; leave]) = Some ([], []))
     [Ended; StopButton; BackToList]
  /\ option_map screen (example_session (praying ++ [AudioError]))
     = Some duaPlayer
  /\ example_messages (praying ++ [AudioError]) = Some ([], duaPlaybackFailedMsg)
  /\ playing_flag (praying ++ [AudioError]) = Some false
  /\ option_map (fun sh => map snd (delays sh))
       (example_session (praying ++ [AudioError]))
     = option_map (fun sh => [DuaReturn (rendered sh)]) (example_session praying)
  /\ example_outcome (praying ++ [AudioError; Timer 2])
     = Some (duaList, tamil duaInstruction, None)
  /\ selected_dua (praying ++ [AudioError; Timer 2]) = Some None
  /\ example_messages (praying ++ [AudioError; Timer 2]) = Some ([], []).
Proof.
  unfold example_outcome, playing_flag, example_messages, selected_dua,
    example_session, session, praying, landed, welcomed, heard_out.
  repeat match goal with
         | |- _ /\ _ => split
         | |- Forall _ _ => constructor
         end;
    vm_compute; reflexivity.
Qed.

(** The welcome sequence cleaned up while its greeting plays, the Continue
    button and the pause of the landing screen. *)
Lemma cleaned_up_sequence_is_inert_witness :
  let sh := mount true true in
  exists sh0 sh',
    run ascii_lower example_surahs example_duas [Press welcome; Playing] sh
    = Some sh0
    /\ run ascii_lower example_surahs example_duas [Press landing; Timer 1]
         (run_cleanup (CleanWelcome 0 (rendered sh0)) sh0) = Some sh'
    /\ is_cancelled 0 sh' = true /\ inert 0 sh'.
Proof.
  cbv zeta.
  destruct (run ascii_lower example_surahs example_duas [Press welcome; Playing]
              (mount true true)) as [sh0|] eqn:E0; [|vm_compute in E0; discriminate].
  destruct (run ascii_lower example_surahs example_duas [Press landing; Timer 1]
              (run_cleanup (CleanWelcome 0 (rendered sh0)) sh0)) as [sh'|] eqn:E1.
  - exists sh0, sh'. split; [reflexivity|]. split; [exact E1|].
    apply (@cleaned_up_sequence_is_inert ascii_lower example_surahs example_duas
             (CleanWelcome 0 (rendered sh0)) 0 sh0 sh' [Press landing; Timer 1]).
    + reflexivity.
    + vm_compute in E0. injection E0 as <-. vm_compute. lia.
    + exact E1.
  - exfalso. vm_compute in E0. injection E0 as <-. vm_compute in E1. discriminate.
Defined.

End ShellSpec.

Module QuizSpec.
Import JS JSFacts Quiz.

(** Example data: the question bank is imported from a module outside the
    sources at hand; this question stands for one of its entries. *)
Definition kaaba_question : QuizQuestion :=
  {| question := js "கஃபா எங்கே உள்ளது?";
     options := [js "மக்கா"; js "மதீனா"; js "ஜெருசலேம்"; js "கெய்ரோ"];
     correctAnswer := 0 |}.

(** The quiz just mounted with a bank of one question: the question is
    being read out. *)
Definition started : World := mount true [kaaba_question].

(** The states a session can be in: those an event sequence leads to from
    a mount with some shuffle of the bank. *)
Definition reachable (toLowerCase : jsstring -> jsstring)
  (quizQuestions : list QuizQuestion) (w : World) : Prop :=
  exists speech shuffled trace,
    Permutation quizQuestions shuffled
    /\ run toLowerCase trace (mount speech shuffled) = Some w.

(** ** What [stopAllActivity] keeps and what it stops *)

Lemma stopAllActivity_frame (w : World) :
  let w' := stopAllActivity w in
  isMountedRef w' = isMountedRef w
  /\ is_null (audioRef w') = is_null (audioRef w)
  /\ audio_playing w' = false
  /\ recognitionRef w' = recognitionRef w
  /\ startListeningRef w' = startListeningRef w
  /\ resultProcessedRef w' = resultProcessedRef w
  /\ selectedAnswer (state w') = selectedAnswer (state w)
  /\ attemptsLeft (state w') = attemptsLeft (state w)
  /\ score (state w') = score (state w)
  /\ isScored (state w') = isScored (state w)
  /\ sessionQuestions (state w') = sessionQuestions (state w)
  /\ currentQuestionIndex (state w') = currentQuestionIndex (state w)
  /\ gameState (state w') = gameState (state w)
  /\ status (state w') = (if isMountedRef w then idle else status (state w)).
Proof.
  destruct w as [s rd [[[] sr oe oer pc]|] rr rs tr tm nt [] sl rp pb hs];
    destruct tr, rr; repeat split.
Qed.

(** The recognizer that [recognitionRef] holds is not listening once
    [stopAllActivity] has run. *)
Lemma stopAllActivity_aborts_current (w : World) (k : nat) (r : Recognizer) :
  recognitionRef w = Some k ->
  nth_error (recognizers (stopAllActivity w)) k = Some r ->
  activity r <> rec_active.
Proof.
  intros Hk.
  assert (Hrs : recognizers (stopAllActivity w) = update_nth k abort (recognizers w)).
  { destruct w as [s rd [[[] sr oe oer pc]|] rr rs tr tm nt [] sl rp pb hs];
      cbn in Hk; subst rr; destruct tr; reflexivity. }
  rewrite Hrs. clear Hrs Hk. revert k.
  induction (recognizers w) as [|x t IH]; intros k; destruct k;
    cbn [update_nth nth_error]; try discriminate.
  - intros H. injection H as <-. unfold abort.
    destruct (activity x) eqn:Hx; cbn; congruence.
  - apply IH.
Qed.


(** The question has been read out and, 100 ms later, listening started:
    the recognizer that was started is number 3; the effect of lines
    361-435 then ran again, because [status] changed, and left the new,
    idle recognizer number 4 in [recognitionRef]. *)
Definition listening_trace : list Event := [AudioEnded; TimerFires 1].

Lemma listening_state :
  exists w,
    run ascii_lower listening_trace started = Some w
    /\ status (state w) = listening
    /\ map activity (recognizers w)
       = [rec_idle; rec_idle; rec_idle; rec_active; rec_idle]
    /\ recognitionRef w = Some 4%nat
    /\ option_map (fun r => status (handlers r)) (nth_error (recognizers w) 3) = Some idle.
Proof.
  eexists. split; [vm_compute; reflexivity|]. repeat split.
Qed.

(** C1: the recognizer stays active while feedback audio plays.  After
    listening has started, a click on an option runs [handleSelectAnswer];
    its [stopAllActivity] aborts the recognizer in [recognitionRef], which
    is not the one that is listening, and the feedback is then played. *)
Theorem recognizer_active_during_feedback :
  exists w,
    reachable ascii_lower [kaaba_question] w
    /\ run ascii_lower (listening_trace ++ [ClickOption 0]) started = Some w
    /\ status (state w) = speaking
    /\ audio_src w = tts correctLastMsg
    /\ audio_playing w = true
    /\ recognizer_listening w = true.
Proof.
  eexists. split; [|split; [vm_compute; reflexivity|repeat split]].
  exists true, [kaaba_question], (listening_trace ++ [ClickOption 0]).
  split; [apply Permutation_refl|]. vm_compute. reflexivity.
Qed.

(** ** The end of a listening session *)

Lemma handleRecognitionFailure_consumes (snap : State) (w : World) :
  selectedAnswer snap = None ->
  isMountedRef w = true ->
  let w' := handleRecognitionFailure snap w in
  attemptsLeft (state w') = (attemptsLeft snap - 1)%Z
  /\ status (state w') <> listening
  /\ selectedAnswer (state w') = selectedAnswer (state w)
  /\ score (state w') = score (state w).
Proof.
  intros Hsel Hm. cbv zeta. unfold handleRecognitionFailure, playFeedbackAudio.
  rewrite Hsel. generalize (attemptsLeft snap - 1)%Z. intros n.
  destruct w as [s rd [[[] sr oe oer pc]|] rr rs tr tm nt mt sl rp pb hs];
    cbn in Hm; subst mt;
    destruct tr, rr, (0 <? n)%Z, (current_question snap);
    repeat split; discriminate.
Qed.

(** One call of the handlers of lines 411-433.  [onerror] changes nothing.
    [onend] acts only when the component is mounted and the status its
    closure captured is 'listening': if a result was processed it puts the
    status back to 'idle'; if none was, it runs [handleRecognitionFailure],
    which, no answer being selected, takes exactly one attempt away and
    leaves a status other than 'listening'.  In every other case [onend]
    changes nothing. *)
Theorem listening_session_end (snap : State) (w : World) :
  let w' := recognition_onend snap w in
  recognition_onerror snap w = w
  /\ if isMountedRef w && status_eqb (status snap) listening then
       if resultProcessedRef w then
         w' = setStatus idle w /\ status (state w') = idle
         /\ attemptsLeft (state w') = attemptsLeft (state w)
       else
         w' = handleRecognitionFailure snap w
         /\ if is_null (selectedAnswer snap) then
              attemptsLeft (state w') = (attemptsLeft snap - 1)%Z
              /\ status (state w') <> listening
            else w' = w
     else w' = w.
Proof.
  cbv zeta. split; [reflexivity|]. unfold recognition_onend.
  destruct (isMountedRef w) eqn:Hm; [|reflexivity].
  destruct (status_eqb (status snap) listening); [|reflexivity]. cbn [andb].
  destruct (resultProcessedRef w); cbn [negb].
  - destruct w; repeat split.
  - split; [reflexivity|].
    destruct (selectedAnswer snap) eqn:Hsel; cbn [is_null].
    + unfold handleRecognitionFailure. now rewrite Hsel.
    + destruct (handleRecognitionFailure_consumes snap w Hsel Hm) as (H1 & H2 & _).
      now split.
Qed.

(** C6: a listening session that ends without a result takes no failure
    path.  The recognizer that [startListening] started is number 3; it
    was made by the render in which the status was 'idle', and that is the
    status its [onend] tests at line 414.  So when it reports an error and
    ends, [handleRecognitionFailure] is not called: no attempt is taken,
    nothing is spoken, no timer is pending, and the status stays
    'listening', under which the microphone button is not shown.  Called
    with the state of the last render, [handleRecognitionFailure] would
    have taken an attempt and spoken the apology.  Nor does [onend] put
    the status back after a processed result ("hello", which names no
    option): the invalid-answer prompt is being spoken and the status is
    'speaking'. *)
Theorem session_end_outcomes :
  exists heard silent,
    run ascii_lower (listening_trace ++ [Heard 3 (js "hello"); RecognitionEnd 3])
      started = Some heard
    /\ resultProcessedRef heard = true
    /\ status (state heard) = speaking
    /\ run ascii_lower (listening_trace ++ [RecognitionError 3; RecognitionEnd 3])
         started = Some silent
    /\ reachable ascii_lower [kaaba_question] silent
    /\ option_map (fun r => status (handlers r)) (nth_error (recognizers silent) 3)
       = Some idle
    /\ resultProcessedRef silent = false
    /\ status (state silent) = listening
    /\ status (rendered silent) = listening
    /\ attemptsLeft (state silent) = 3%Z
    /\ recognizer_listening silent = false
    /\ audio_playing silent = false
    /\ timers silent = []
    /\ run ascii_lower [ClickMic] silent = None
    /\ attemptsLeft (state (handleRecognitionFailure (rendered silent) silent))
       = 2%Z
    /\ audio_src (handleRecognitionFailure (rendered silent) silent)
       = tts notHeardMsg.
Proof.
  eexists. eexists.
  split; [vm_compute; reflexivity|]. split; [reflexivity|].
  split; [reflexivity|]. split; [vm_compute; reflexivity|].
  split.
  { exists true, [kaaba_question],
      (listening_trace ++ [RecognitionError 3; RecognitionEnd 3]).
    split; [apply Permutation_refl|]. vm_compute. reflexivity. }
  repeat match goal with |- _ /\ _ => split end; vm_compute; reflexivity.
Qed.


(** ** Spoken answers *)

(** A number is named in English (looked for in the lowercased
    transcript), in Tamil or as a digit. *)
Definition names (lower clean : jsstring) (english tamil digit : string) : bool :=
  includes lower (js english) || includes clean (js tamil)
  || includes clean (js digit).

Definition audio_onended (w : World) : option AudioCallback :=
  match audioRef w with
  | Some a => onended a
  | None => None
  end.

Lemma handleSelectAnswer_selects (snap : State) (index : Z) (w : World) :
  selectedAnswer snap = None ->
  let w' := handleSelectAnswer snap index w in
  selectedAnswer (state w') = Some index
  /\ (score (state w') = score (state w)
      \/ isScored snap = false /\ score (state w') = (score (state w) + 1)%Z)
  /\ (isScored snap = true -> score (state w') = score (state w)).
Proof.
  intros Hsel. cbv zeta. unfold handleSelectAnswer, playFeedbackAudio.
  rewrite Hsel. cbn [is_null negb].
  destruct (current_question snap) as [q|].
  - generalize (attemptsLeft snap - 1)%Z. intros n.
    destruct (index =? correctAnswer q)%Z, (isScored snap), (0 <? n)%Z;
      destruct w as [s rd [[[] sr oe oer pc]|] rr rs tr tm nt [] sl rp pb hs];
      destruct tr, rr; cbn;
      (split; [reflexivity|]); (split; [|intros; try reflexivity; discriminate]);
      first [left; reflexivity | right; split; reflexivity].
  - destruct w as [s rd [[[] sr oe oer pc]|] rr rs tr tm nt [] sl rp pb hs];
      destruct tr, rr; cbn;
      (split; [reflexivity|]); (split; [left; reflexivity|reflexivity]).
Qed.

Lemma playInvalidAnswerFeedback_prompts (w : World) (a : AudioEl) :
  audioRef w = Some a ->
  isMountedRef w = true ->
  let w' := playInvalidAnswerFeedback w in
  attemptsLeft (state w') = attemptsLeft (state w)
  /\ selectedAnswer (state w') = selectedAnswer (state w)
  /\ status (state w') = speaking
  /\ audio_src w' = tts invalidAnswerMsg
  /\ audio_playing w' = true
  /\ audio_onended w' = Some CbInvalidEnd.
Proof.
  intros Ha Hm. cbv zeta. unfold playInvalidAnswerFeedback. rewrite Ha.
  destruct w as [s rd au rr rs tr tm nt mt sl rp pb hs]. cbn in Ha, Hm.
  subst au mt. destruct a as [[] sr oe oer pc], tr, rr; repeat split.
Qed.

Lemma invalid_prompt_end_restarts (v : World) :
  isMountedRef v = true ->
  let v' := run_audio_callback CbInvalidEnd v in
  status (state v') = idle
  /\ exists id, timeoutRef v' = Some id /\ In (id, CbListen) (timers v').
Proof.
  intros Hm. cbv zeta.
  destruct v as [s rd au rr rs tr tm nt mt sl rp pb hs]. cbn in Hm. subst mt.
  destruct au as [a|]; (split; [reflexivity|]); exists nt;
    (split; [reflexivity|]); cbn; apply in_or_app; right; now left.
Qed.

(** C10, as the code has it.  The recognized text is trimmed and stripped
    of '.', ',' and '?' (the code units 46, 44 and 63, wherever they
    stand).  If it is then 'ஆப்ஷன்', or if its lowercase
    form is 'option', the recognition counts as failed and one attempt is
    taken.  Otherwise the answer is option 1 if the text names one
    ('one' in the lowercased text, 'ஒன்று' or '1'), else option 2, else
    option 3, else option 4, named in the same way.  A text that names
    none makes the application speak the invalid-answer prompt without
    taking an attempt; when the prompt has ended the status is 'idle'
    again and a timer is pending that calls the current [startListening].
    (The component is mounted, no answer is selected in the captured
    state, the captured question exists and the audio element is
    there.) *)
Theorem spoken_answer_parsing
  (toLowerCase : jsstring -> jsstring) (snap : State)
  (recognizedText : jsstring) (w : World) (q : QuizQuestion) (a : AudioEl) :
  isMountedRef w = true ->
  selectedAnswer snap = None ->
  current_question snap = Some q ->
  audioRef w = Some a ->
  let clean :=
    filter (fun c => negb (N.eqb c 46 || N.eqb c 44 || N.eqb c 63))
      (trim recognizedText) in
  let lower := toLowerCase clean in
  let w' := recognition_onresult toLowerCase snap recognizedText w in
  resultProcessedRef w' = true
  /\ if str_eqb lower (js "option") || str_eqb clean (js "ஆப்ஷன்") then
       attemptsLeft (state w') = (attemptsLeft snap - 1)%Z
       /\ selectedAnswer (state w') = selectedAnswer (state w)
     else if names lower clean "one" "ஒன்று" "1" then
       selectedAnswer (state w') = Some 0%Z
     else if names lower clean "two" "இரண்டு" "2" then
       selectedAnswer (state w') = Some 1%Z
     else if names lower clean "three" "மூன்று" "3" then
       selectedAnswer (state w') = Some 2%Z
     else if names lower clean "four" "நான்கு" "4" then
       selectedAnswer (state w') = Some 3%Z
     else
       attemptsLeft (state w') = attemptsLeft (state w)
       /\ selectedAnswer (state w') = selectedAnswer (state w)
       /\ status (state w') = speaking
       /\ audio_src w' = tts invalidAnswerMsg
       /\ audio_playing w' = true
       /\ audio_onended w' = Some CbInvalidEnd
       /\ (let v := run_audio_callback CbInvalidEnd w' in
           status (state v) = idle
           /\ exists id, timeoutRef v = Some id /\ In (id, CbListen) (timers v))
       /\ (forall v, isMountedRef v = true ->
             run_timer_callback CbListen v =
             match startListeningRef v with
             | Some current => startListening current v
             | None => v
             end).
Proof.
  intros Hm Hsel Hq Ha. cbv zeta.
  change (filter (fun c => negb (N.eqb c 46 || N.eqb c 44 || N.eqb c 63))
            (trim recognizedText))
    with (strip_punct (trim recognizedText)).
  unfold recognition_onresult, names.
  rewrite Hm, Hsel, Hq. cbn [negb is_null orb].
  set (w0 := setTranscript (youSaid recognizedText)
               (set_resultProcessedRef true w)).
  assert (Hm0 : isMountedRef w0 = true) by (destruct w; exact Hm).
  assert (Ha0 : audioRef w0 = Some a) by (destruct w; exact Ha).
  assert (Hsel0 : selectedAnswer (state w0) = selectedAnswer (state w))
    by (destruct w; reflexivity).
  assert (Hatt0 : attemptsLeft (state w0) = attemptsLeft (state w))
    by (destruct w; reflexivity).
  assert (Hrp0 : resultProcessedRef w0 = true) by (destruct w; reflexivity).
  destruct (str_eqb _ (js "option") || str_eqb _ (js "ஆப்ஷன்")).
  { destruct (handleRecognitionFailure_consumes snap w0 Hsel Hm0)
      as (H1 & _ & H3 & _).
    split; [|split; [exact H1|congruence]].
    unfold handleRecognitionFailure, playFeedbackAudio. rewrite Hsel, Hm0, Hq.
    cbn [is_null negb orb]. clear - Hrp0. generalize (attemptsLeft snap - 1)%Z.
    intros n. destruct w0 as [s rd [[[] sr oe oer pc]|] rr rs tr tm nt [] sl rp pb hs];
      cbn in Hrp0; subst rp; destruct tr, rr, (0 <? n)%Z; reflexivity. }
  assert (Hsa : forall i,
             resultProcessedRef (handleSelectAnswer snap i w0) = true).
  { intros i. unfold handleSelectAnswer, playFeedbackAudio. rewrite Hsel, Hq.
    cbn [is_null negb]. clear - Hrp0. generalize (attemptsLeft snap - 1)%Z.
    intros n.
    destruct w0 as [s rd [[[] sr oe oer pc]|] rr rs tr tm nt [] sl rp pb hs];
      cbn in Hrp0; subst rp;
      destruct tr, rr, (0 <? n)%Z, (i =? correctAnswer q)%Z, (isScored snap);
      reflexivity. }
  unfold answer_index.
  repeat match goal with
    | |- context [if (includes ?x ?a || includes ?y ?b || includes ?z ?c)
                  then _ else _] =>
        destruct (includes x a || includes y b || includes z c);
        [split; [apply Hsa | now apply handleSelectAnswer_selects] |]
    end.
  change (-1 <? -1)%Z with false. cbv iota.
  destruct (playInvalidAnswerFeedback_prompts w0 Ha0 Hm0)
    as (H1 & H2 & H3 & H4 & H5 & H6).
  assert (Hm' : isMountedRef (playInvalidAnswerFeedback w0) = true).
  { unfold playInvalidAnswerFeedback. rewrite Ha0. clear - Hm0.
    destruct w0 as [s rd [[[] sr oe oer pc]|] rr rs tr tm nt mt sl rp pb hs];
      cbn in Hm0; subst mt; destruct tr, rr; reflexivity. }
  split.
  { unfold playInvalidAnswerFeedback. rewrite Ha0. clear - Hrp0 Hm0.
    destruct w0 as [s rd [[[] sr oe oer pc]|] rr rs tr tm nt mt sl rp pb hs];
      cbn in Hrp0, Hm0; subst rp mt; destruct tr, rr; reflexivity. }
  repeat (split; [congruence|]).
  split; [exact (invalid_prompt_end_restarts _ Hm')|].
  intros v Hv. cbn [run_timer_callback]. now rewrite Hv.
Qed.


(** ** The parts of a session that hold handler by handler *)

(** A new session holds the first five questions of the shuffled bank:
    min(5, size of the bank) questions, all of them from the bank, and
    starts at question 0 with score 0. *)
Lemma new_session_questions
  (quizQuestions shuffled : list QuizQuestion) (w : World) :
  Permutation quizQuestions shuffled ->
  let s := state (startNewQuiz shuffled w) in
  sessionQuestions s = firstn 5 shuffled
  /\ List.length (sessionQuestions s) = Nat.min 5 (List.length quizQuestions)
  /\ incl (sessionQuestions s) quizQuestions
  /\ score s = 0%Z
  /\ currentQuestionIndex s = 0%nat
  /\ gameState s = playing.
Proof.
  intros Hperm. cbv zeta.
  assert (Hs : sessionQuestions (state (startNewQuiz shuffled w)) = firstn 5 shuffled).
  { destruct w as [s rd [[[] sr oe oer pc]|] rr rs tr tm nt [] sl rp pb hs];
      destruct tr, rr; reflexivity. }
  rewrite Hs. split; [reflexivity|]. split.
  { rewrite length_firstn. now rewrite (Permutation_length Hperm). }
  split.
  { intros q Hq. apply (Permutation_in _ (Permutation_sym Hperm)).
    rewrite <- (firstn_skipn 5 shuffled). apply in_or_app. now left. }
  destruct w as [s rd [[[] sr oe oer pc]|] rr rs tr tm nt [] sl rp pb hs];
    destruct tr, rr; repeat split.
Qed.

Lemma new_session_questions_witness :
  let s := state (startNewQuiz [kaaba_question] started) in
  Permutation [kaaba_question] [kaaba_question]
  /\ sessionQuestions s = firstn 5 [kaaba_question]
  /\ List.length (sessionQuestions s) = Nat.min 5 (List.length [kaaba_question])
  /\ incl (sessionQuestions s) [kaaba_question]
  /\ score s = 0%Z
  /\ currentQuestionIndex s = 0%nat
  /\ gameState s = playing.
Proof.
  split; [apply Permutation_refl|].
  exact (@new_session_questions [kaaba_question] [kaaba_question] started
           (Permutation_refl _)).
Defined.

(** When a question comes up, the effect of lines 274-286 gives it three
    attempts, no selected answer and no score yet, and reads it out. *)
Lemma question_starts_fresh (snap : State) (w : World) :
  let w' := question_effect snap w in
  match gameState snap, current_question snap with
  | playing, Some q =>
      attemptsLeft (state w') = 3%Z
      /\ selectedAnswer (state w') = None
      /\ isCorrect (state w') = None
      /\ isScored (state w') = false
      /\ score (state w') = score (state w)
      /\ match audioRef w with
         | Some _ => audio_src w' = tts (question q) /\ audio_playing w' = true
         | None => audioRef w' = None
         end
  | _, _ => w' = w
  end.
Proof.
  cbv zeta. unfold question_effect, current_question.
  destruct (gameState snap); [|reflexivity].
  destruct (nth_error (sessionQuestions snap) (currentQuestionIndex snap))
    as [q|] eqn:Hq.
  - assert (Hlen : (0 <? List.length (sessionQuestions snap))%nat = true).
    { apply Nat.ltb_lt. destruct (sessionQuestions snap); [|cbn; lia].
      destruct (currentQuestionIndex snap); discriminate. }
    rewrite Hlen.
    destruct w as [s rd [[[] sr oe oer pc]|] rr rs tr tm nt [] sl rp pb hs];
      destruct tr, rr; repeat split.
  - now destruct (0 <? _)%nat.
Qed.

(** One call of [handleSelectAnswer] adds at most one to the score, and
    nothing when its closure holds an answer already or [isScored]. *)
Lemma answer_scores_at_most_once (snap : State) (index : Z) (w : World) :
  let w' := handleSelectAnswer snap index w in
  match selectedAnswer snap with
  | Some _ => w' = w
  | None =>
      selectedAnswer (state w') = Some index
      /\ if isScored snap then score (state w') = score (state w)
         else score (state w') = score (state w)
              \/ score (state w') = (score (state w) + 1)%Z
  end.
Proof.
  cbv zeta. destruct (selectedAnswer snap) eqn:Hsel.
  - unfold handleSelectAnswer. now rewrite Hsel.
  - destruct (handleSelectAnswer_selects snap index w Hsel) as (H1 & H2 & H3).
    split; [exact H1|]. destruct (isScored snap); [now apply H3|].
    destruct H2 as [H2|[_ H2]]; [now left|now right].
Qed.

(** ** The percentage of the scorecard *)

Definition nearest_percent (score n p : Z) : bool :=
  ((2 * n * p <=? 200 * score + n) && (200 * score + n <? 2 * n * (p + 1)))%Z.

(** For the lengths a session can have and scores up to 100, the doubles
    of line 439 give the integer nearest to the exact percentage. *)
Lemma round_percent_nearest (score n : Z) :
  (0 < n <= 5)%Z -> (0 <= score <= 100)%Z ->
  let p := round_percent score n in
  (2 * n * p <= 200 * score + n < 2 * n * (p + 1))%Z.
Proof.
  intros Hn Hs. cbv zeta.
  assert (H : forallb
                (fun n => forallb
                   (fun sc => nearest_percent (Z.of_nat sc) (Z.of_nat n)
                                (round_percent (Z.of_nat sc) (Z.of_nat n)))
                   (seq 0 101))
                (seq 1 5) = true) by (vm_compute; reflexivity).
  rewrite forallb_forall in H.
  specialize (H (Z.to_nat n) ltac:(apply in_seq; lia)).
  rewrite forallb_forall in H.
  specialize (H (Z.to_nat score) ltac:(apply in_seq; lia)).
  rewrite !Z2Nat.id in H by lia.
  unfold nearest_percent in H. apply andb_true_iff in H. destruct H as [H1 H2].
  apply Z.leb_le in H1. apply Z.ltb_lt in H2. lia.
Qed.

Lemma scorePercent_round (s : State) :
  let n := Z.of_nat (List.length (sessionQuestions s)) in
  if (0 <? n)%Z then scorePercent s = round_percent (score s) n
  else scorePercent s = 0%Z.
Proof.
  cbv zeta. unfold scorePercent.
  destruct (sessionQuestions s) as [|q t]; [reflexivity|].
  cbn [List.length].
  replace (0 <? Z.of_nat (S (List.length t)))%Z with true
    by (symmetry; apply Z.ltb_lt; lia).
  reflexivity.
Qed.

(** In a session, which has at most five questions, and for a score up to
    100, [scorePercent] is the integer nearest to 100 * score / length,
    halves going up; without questions it is 0.  Line 439 computes in
    doubles, the quotient first: for 23 of 40 the quotient times 100 is
    just below 57.5 and the result is 57, where the exact percentage
    57.5 would go up to 58. *)
Lemma scorePercent_nearest (s : State) :
  let n := Z.of_nat (List.length (sessionQuestions s)) in
  let p := scorePercent s in
  (n <= 5)%Z -> (0 <= score s <= 100)%Z ->
  (if (0 <? n)%Z then
     (2 * n * p <= 200 * score s + n < 2 * n * (p + 1))%Z
   else p = 0%Z)
  /\ round_percent 23 40 = 57%Z
  /\ nearest_percent 23 40 58 = true
  /\ double_mul (double_div (double 23) (double 40)) (double 100)
     = SpecFloat.S754_finite false 8092405580431359 (-47).
Proof.
  cbv zeta. intros Hn Hs.
  split; [|repeat split; vm_compute; reflexivity].
  pose proof (scorePercent_round s) as Hr. cbv zeta in Hr.
  destruct (0 <? Z.of_nat (List.length (sessionQuestions s)))%Z eqn:Hpos;
    [|exact Hr].
  apply Z.ltb_lt in Hpos. rewrite Hr.
  apply round_percent_nearest; lia.
Qed.

(** Two right answers out of three questions. *)
Lemma scorePercent_nearest_witness :
  let s :=
    {| gameState := finished;
       sessionQuestions := [kaaba_question; kaaba_question; kaaba_question];
       currentQuestionIndex := 2; selectedAnswer := None; isCorrect := None;
       score := 2; attemptsLeft := 3; isScored := false; status := idle;
       transcript := []; questionTrigger := 2; questionsArray := 1 |} in
  scorePercent s = 67%Z
  /\ (2 * 3 * scorePercent s <= 200 * 2 + 3 < 2 * 3 * (scorePercent s + 1))%Z.
Proof.
  cbv zeta. split; [vm_compute; reflexivity|].
  exact (proj1 (@scorePercent_nearest
                  {| gameState := finished;
                     sessionQuestions := [kaaba_question; kaaba_question; kaaba_question];
                     currentQuestionIndex := 2; selectedAnswer := None;
                     isCorrect := None; score := 2; attemptsLeft := 3;
                     isScored := false; status := idle; transcript := [];
                     questionTrigger := 2; questionsArray := 1 |}
                  ltac:(vm_compute; discriminate)
                  ltac:(split; vm_compute; discriminate))).
Defined.

Lemma nth_error_update_nth {A} (f : A -> A) (l : list A) (k : nat) (x : A) :
  nth_error l k = Some x -> nth_error (update_nth k f l) k = Some (f x).
Proof.
  revert k. induction l as [|y t IH]; intros [|k]; cbn; try discriminate.
  - now intros [= ->].
  - apply IH.
Qed.

(** [startListening] does nothing unless the state it captured has status
    'idle' and no selected answer (and the component is mounted and has a
    recognizer); otherwise it starts the recognizer in [recognitionRef]
    and sets the status to 'listening', or puts the status back to 'idle'
    when [start()] throws. *)
Lemma startListening_guard (snap : State) (w : World) :
  let w' := startListening snap w in
  if status_eqb (status snap) idle && is_null (selectedAnswer snap)
     && isMountedRef w
  then
    match recognitionRef w with
    | None => w' = w
    | Some k =>
        match nth_error (recognizers w) k with
        | Some r =>
            match activity r with
            | rec_idle =>
                status (state w') = listening
                /\ resultProcessedRef w' = false
                /\ option_map activity (nth_error (recognizers w') k)
                   = Some rec_active
            | _ => status (state w') = idle
            end
        | None => status (state w') = listening
        end
    end
  else w' = w.
Proof.
  cbv zeta. unfold startListening.
  destruct (status_eqb (status snap) idle), (selectedAnswer snap);
    cbn [is_null andb negb orb]; rewrite ?orb_true_r; try reflexivity.
  destruct w as [s rd au rr rs tr tm nt [] sl rp pb hs];
    cbn [isMountedRef negb orb recognitionRef]; [|reflexivity].
  destruct rr as [k|]; cbn [is_null recognitionRef recognizers];
    [|reflexivity].
  cbn. destruct (nth_error rs k) as [r|] eqn:Hr; [|reflexivity].
  destruct (activity r) eqn:Hact; cbn; try reflexivity.
  repeat split. now rewrite (nth_error_update_nth _ _ _ Hr).
Qed.

(** Every routine that speaks has run [stopAllActivity] by the time it
    sets the status to 'speaking': the timer in [timeoutRef] is no longer
    pending and the recognizer in [recognitionRef] is not listening. *)
Definition quiet (w : World) : Prop :=
  match timeoutRef w with
  | Some id => ~ In id (map fst (timers w))
  | None => True
  end
  /\ match recognitionRef w with
     | Some k =>
         match nth_error (recognizers w) k with
         | Some r => activity r <> rec_active
         | None => True
         end
     | None => True
     end.

Lemma stopAllActivity_quiet (w : World) : quiet (stopAllActivity w).
Proof.
  split.
  - destruct w as [s rd [[[] sr oe oer pc]|] rr rs [id|] tm nt [] sl rp pb hs];
      destruct rr; cbn; trivial;
      intros Hin; apply in_map_iff in Hin; destruct Hin as [[i cb] [Hi Hf]];
      apply filter_In in Hf; destruct Hf as [_ Hf]; cbn in Hi, Hf; subst i;
      now rewrite Pos.eqb_refl in Hf.
  - destruct (recognitionRef (stopAllActivity w)) as [k|] eqn:Hk; [|trivial].
    destruct (nth_error _ k) as [r|] eqn:Hr; [|trivial].
    apply (@stopAllActivity_aborts_current w k r); [|exact Hr].
    destruct (stopAllActivity_frame w) as (_ & _ & _ & Href & _). congruence.
Qed.

Definition speaks_quietly (w : World) : Prop :=
  status (state w) = speaking /\ quiet w.

Lemma quiet_say text cb (v : World) :
  quiet v -> speaks_quietly (say text cb (setStatus speaking v)).
Proof.
  intros Hv. unfold say.
  destruct v as [s rd au rr rs tr tm nt mt sl rp pb hs].
  destruct au; split; try exact Hv; reflexivity.
Qed.

Lemma quiet_speaking (v : World) :
  quiet v -> speaks_quietly (setStatus speaking v).
Proof. intros Hv. destruct v. split; [reflexivity|exact Hv]. Qed.

Lemma speaking_routines_stop_first
  (snap : State) (type : FeedbackType) (q : QuizQuestion) (w : World) :
  match audioRef w with
  | Some _ =>
      speaks_quietly (playFeedbackAudio snap type w)
      /\ speaks_quietly (playQuestionAudio q w)
      /\ speaks_quietly (playInvalidAnswerFeedback w)
  | None =>
      playFeedbackAudio snap type w = w
      /\ playQuestionAudio q w = w
      /\ playInvalidAnswerFeedback w = w
  end
  /\ (if is_null (selectedAnswer snap) && isMountedRef w
      then quiet (handleRecognitionFailure snap w)
      else handleRecognitionFailure snap w = w).
Proof.
  assert (Hatt : forall n v, quiet v -> quiet (setAttemptsLeft n v)).
  { intros n v Hv. destruct v. exact Hv. }
  assert (Hfb : forall v, audioRef v <> None ->
                  speaks_quietly (playFeedbackAudio snap type v)).
  { intros v Hv. unfold playFeedbackAudio.
    destruct (audioRef v); [|contradiction].
    destruct (current_question snap).
    - apply quiet_say, stopAllActivity_quiet.
    - apply quiet_speaking, stopAllActivity_quiet. }
  split.
  - destruct (audioRef w) as [a|] eqn:Ha.
    + split; [apply Hfb; congruence|].
      split; [unfold playQuestionAudio; rewrite Ha;
              apply quiet_say, stopAllActivity_quiet|].
      unfold playInvalidAnswerFeedback; rewrite Ha.
      apply quiet_say, stopAllActivity_quiet.
    + unfold playFeedbackAudio, playQuestionAudio, playInvalidAnswerFeedback.
      rewrite Ha. repeat split.
  - unfold handleRecognitionFailure.
    destruct (selectedAnswer snap); [reflexivity|].
    destruct (isMountedRef w); [|reflexivity]. cbn [is_null andb negb orb].
    set (v := setAttemptsLeft _ (stopAllActivity w)).
    assert (Hv : quiet v) by apply Hatt, stopAllActivity_quiet.
    destruct (0 <? attemptsLeft snap - 1)%Z.
    + destruct (audioRef v) eqn:Hav; [|exact Hv].
      now apply quiet_say.
    + unfold playFeedbackAudio. destruct (audioRef v); [|exact Hv].
      destruct (current_question snap).
      * apply quiet_say, stopAllActivity_quiet.
      * apply quiet_speaking, stopAllActivity_quiet.
Qed.

(** The world a trace leads to from the first question being read out. *)
Definition after (trace : list Event) : World :=
  match run ascii_lower trace started with
  | Some w => w
  | None => started
  end.

Definition listening_world : World := after listening_trace.

(** The state captured by the handlers of the recognizer that listens. *)
Definition captured : State := rendered (after [AudioEnded]).

Definition the_audio (w : World) : AudioEl :=
  match audioRef w with
  | Some a => a
  | None => fresh_audio
  end.

Lemma spoken_answer_parsing_witness :
  let w := listening_world in
  let w' := recognition_onresult ascii_lower captured (js " இரண்டு.") w in
  let w'' := recognition_onresult ascii_lower captured (js "Op.tion?") w in
  option_map handlers (nth_error (recognizers w) 3) = Some captured
  /\ isMountedRef w = true
  /\ selectedAnswer captured = None
  /\ current_question captured = Some kaaba_question
  /\ audioRef w = Some (the_audio w)
  /\ (resultProcessedRef w' = true
      /\ selectedAnswer (state w') = Some 1%Z)
  /\ (resultProcessedRef w'' = true
      /\ attemptsLeft (state w'') = (attemptsLeft captured - 1)%Z
      /\ selectedAnswer (state w'') = selectedAnswer (state w))
  /\ attemptsLeft (state w'') = 2%Z.
Proof.
  cbv zeta.
  split; [vm_compute; reflexivity|].
  assert (H1 : isMountedRef listening_world = true) by (vm_compute; reflexivity).
  assert (H2 : selectedAnswer captured = None) by (vm_compute; reflexivity).
  assert (H3 : current_question captured = Some kaaba_question)
    by (vm_compute; reflexivity).
  assert (H4 : audioRef listening_world = Some (the_audio listening_world))
    by (vm_compute; reflexivity).
  split; [exact H1|]. split; [exact H2|]. split; [exact H3|].
  split; [exact H4|].
  split; [|split; [|vm_compute; reflexivity]].
  - exact (@spoken_answer_parsing ascii_lower captured (js " இரண்டு.")
             listening_world kaaba_question (the_audio listening_world)
             H1 H2 H3 H4).
  - exact (@spoken_answer_parsing ascii_lower captured (js "Op.tion?")
             listening_world kaaba_question (the_audio listening_world)
             H1 H2 H3 H4).
Defined.

(** C10 as stated fails on capital letters.  "Option" is neither
    'option' nor 'ஆப்ஷன்' and contains none of the twelve number words,
    yet it counts as a failed recognition and takes an attempt;
    "Four." does not contain 'four', yet it selects option 4. *)
Lemma capital_letters_are_accepted :
  let number_words :=
    [js "one"; js "ஒன்று"; js "1"; js "two"; js "இரண்டு"; js "2";
     js "three"; js "மூன்று"; js "3"; js "four"; js "நான்கு"; js "4"] in
  let clean := strip_punct (trim (js "Option")) in
  let w1 := after (listening_trace ++ [Heard 3 (js "Option")]) in
  let w2 := after (listening_trace ++ [Heard 3 (js "Four.")]) in
  str_eqb clean (js "option") = false
  /\ str_eqb clean (js "ஆப்ஷன்") = false
  /\ existsb (includes clean) number_words = false
  /\ attemptsLeft (state listening_world) = 3%Z
  /\ attemptsLeft (state w1) = 2%Z
  /\ audio_src w1 = tts notHeardMsg
  /\ audio_src w1 <> tts invalidAnswerMsg
  /\ existsb (includes (strip_punct (trim (js "Four.")))) number_words = false
  /\ selectedAnswer (state w2) = Some 3%Z
  /\ audio_src w2 <> tts invalidAnswerMsg.
Proof.
  cbv zeta. repeat split; try (vm_compute; reflexivity);
    vm_compute; discriminate.
Qed.

(** ** Score *)

(** C9: one question counted twice.  Listening has started; the correct
    option is clicked, which scores the question and plays the feedback;
    the recognizer that is still listening then hears "option one" and its
    [onresult], whose closure captured [selectedAnswer] null and
    [isScored] false, runs [handleSelectAnswer] again.  The session ends
    with a score of 2 out of 1 question, 200 percent. *)
Theorem question_scored_twice :
  exists w,
    reachable ascii_lower [kaaba_question] w
    /\ run ascii_lower
         (listening_trace
          ++ [ClickOption 0; Heard 3 (js "option one"); AudioEnded; TimerFires 2])
         started = Some w
    /\ gameState (state w) = finished
    /\ List.length (sessionQuestions (state w)) = 1%nat
    /\ score (state w) = 2%Z
    /\ scorePercent (state w) = 200%Z
    /\ score (state (after (listening_trace ++ [ClickOption 0]))) = 1%Z.
Proof.
  eexists. split; [|split; [vm_compute; reflexivity|repeat split]].
  exists true, [kaaba_question],
    (listening_trace
     ++ [ClickOption 0; Heard 3 (js "option one"); AudioEnded; TimerFires 2]).
  split; [apply Permutation_refl|]. vm_compute. reflexivity.
Qed.


(** ** Which recognizer listens, and what its handlers captured

    The effect of lines 361-435 makes a new recognizer whenever [status]
    (or another of its dependencies) changes.  The invariant below says
    what follows for every state of every session: the recognizer in
    [recognitionRef] is never the one that listens, and the handlers of
    any recognizer that was started captured the status 'idle'. *)

(** A handler keeps a recognizer when it leaves its handlers alone and
    does not start it. *)
Definition kept (r r' : Recognizer) : Prop :=
  handlers r' = handlers r /\ (activity r = rec_idle -> activity r' = rec_idle).

(** [calm w w']: going from [w] to [w'] no recognizer was started or
    replaced, and the closures of the last render are still current. *)
Record calm (w w' : World) : Prop := {
  calm_ref : recognitionRef w' = recognitionRef w;
  calm_speech : hasSpeechRecognition w' = hasSpeechRecognition w;
  calm_rendered : rendered w' = rendered w;
  calm_listen : startListeningRef w' = startListeningRef w;
  calm_recs : Forall2 kept (recognizers w) (recognizers w')
}.

Lemma kept_all (l : list Recognizer) : Forall2 kept l l.
Proof. induction l; constructor; [now split|assumption]. Qed.

Lemma kept_chain (l1 l2 l3 : list Recognizer) :
  Forall2 kept l1 l2 -> Forall2 kept l2 l3 -> Forall2 kept l1 l3.
Proof.
  intros H12. revert l3. induction H12 as [|a b l1 l2 [Ha1 Ha2] _ IH];
    intros l3 H23; inversion H23 as [|? c ? l3' [Hb1 Hb2] Hrest]; subst;
    constructor.
  - split; [congruence|auto].
  - now apply IH.
Qed.

Lemma kept_abort (k : nat) (l : list Recognizer) :
  Forall2 kept l (update_nth k abort l).
Proof.
  revert k. induction l as [|r t IH]; intros [|k]; cbn; constructor;
    try apply kept_all; try apply IH; try (now split).
  unfold abort. destruct (activity r) eqn:Hr; split; cbn; congruence.
Qed.

Lemma kept_nth (l l' : list Recognizer) (k : nat) (r' : Recognizer) :
  Forall2 kept l l' -> nth_error l' k = Some r' ->
  exists r, nth_error l k = Some r /\ kept r r'.
Proof.
  intros H. revert k. induction H as [|a b l l' Hab _ IH]; intros [|k]; cbn;
    try discriminate.
  - intros [= <-]. now exists a.
  - apply IH.
Qed.

Lemma kept_nth_forward (l l' : list Recognizer) (k : nat) (r : Recognizer) :
  Forall2 kept l l' -> nth_error l k = Some r ->
  exists r', nth_error l' k = Some r' /\ kept r r'.
Proof.
  intros H. revert k. induction H as [|a b l l' Hab _ IH]; intros [|k]; cbn;
    try discriminate.
  - intros [= <-]. now exists b.
  - apply IH.
Qed.

Lemma calm_refl (w : World) : calm w w.
Proof. split; try reflexivity. apply kept_all. Qed.

Lemma calm_trans (w1 w2 w3 : World) : calm w1 w2 -> calm w2 w3 -> calm w1 w3.
Proof.
  intros [] []. split; try congruence. eapply kept_chain; eassumption.
Qed.

(** The primitives that do not touch recognizers. *)
Lemma calm_on_state f (w : World) : calm w (on_state f w).
Proof. split; try reflexivity. apply kept_all. Qed.

Lemma calm_set_audioRef a (w : World) : calm w (set_audioRef a w).
Proof. split; try reflexivity. apply kept_all. Qed.

Lemma calm_set_timeoutRef t (w : World) : calm w (set_timeoutRef t w).
Proof. split; try reflexivity. apply kept_all. Qed.

Lemma calm_set_timers t n (w : World) : calm w (set_timers t n w).
Proof. split; try reflexivity. apply kept_all. Qed.

Lemma calm_set_isMountedRef b (w : World) : calm w (set_isMountedRef b w).
Proof. split; try reflexivity. apply kept_all. Qed.

Lemma calm_set_resultProcessedRef b (w : World) :
  calm w (set_resultProcessedRef b w).
Proof. split; try reflexivity. apply kept_all. Qed.

Lemma calm_set_playbackTimeout t (w : World) : calm w (set_playbackTimeout t w).
Proof. split; try reflexivity. apply kept_all. Qed.

Lemma calm_abort_current k (w : World) :
  recognitionRef w = Some k ->
  calm w (set_recognition (Some k) (update_nth k abort (recognizers w)) w).
Proof.
  intros Hk. split; try reflexivity; [cbn; congruence|apply kept_abort].
Qed.

(** One step of the tactic: peel the outermost call off the final world. *)
Ltac calm_step :=
  match goal with
  | |- calm ?w ?w => apply calm_refl
  | H : calm ?w ?v |- calm ?w ?v => exact H
  | |- calm _ (match ?x with _ => _ end) => destruct x eqn:?
  | |- calm _ (on_state ?f ?v) =>
      apply (@calm_trans _ v); [|apply calm_on_state]
  | |- calm _ (set_audioRef ?a ?v) =>
      apply (@calm_trans _ v); [|apply calm_set_audioRef]
  | |- calm _ (set_timeoutRef ?a ?v) =>
      apply (@calm_trans _ v); [|apply calm_set_timeoutRef]
  | |- calm _ (set_timers ?a ?n ?v) =>
      apply (@calm_trans _ v); [|apply calm_set_timers]
  | |- calm _ (set_isMountedRef ?a ?v) =>
      apply (@calm_trans _ v); [|apply calm_set_isMountedRef]
  | |- calm _ (set_resultProcessedRef ?a ?v) =>
      apply (@calm_trans _ v); [|apply calm_set_resultProcessedRef]
  | |- calm _ (set_playbackTimeout ?a ?v) =>
      apply (@calm_trans _ v); [|apply calm_set_playbackTimeout]
  end.

Ltac calm_setters :=
  unfold scorecard_cleanup, say, detach_handlers, setTrackedTimeout,
    setGameState, setSessionQuestions, setCurrentQuestionIndex,
    setSelectedAnswer, setIsCorrect, setScore, setAttemptsLeft, setIsScored,
    setStatus, setTranscript, setQuestionTrigger, setTimeout, clearTimeout;
  cbn [fst snd].

Lemma calm_stopAllActivity (w : World) : calm w (stopAllActivity w).
Proof.
  unfold stopAllActivity. calm_setters.
  set (w1 := match timeoutRef w with Some id => _ | None => w end).
  assert (H1 : calm w w1) by (unfold w1; repeat calm_step).
  assert (H2 : calm w (match recognitionRef w1 with
                       | Some k => set_recognition (Some k)
                                     (update_nth k abort (recognizers w1)) w1
                       | None => w1 end)).
  { destruct (recognitionRef w1) as [k|] eqn:Hk; [|exact H1].
    eapply calm_trans; [exact H1|now apply calm_abort_current]. }
  repeat calm_step.
Qed.

Ltac calm_step1 :=
  first
    [ calm_step
    | match goal with
      | |- calm _ (stopAllActivity ?v) =>
          apply (@calm_trans _ v); [|apply calm_stopAllActivity]
      end ].

Lemma calm_proceedToNext snap (w : World) : calm w (proceedToNext snap w).
Proof. unfold proceedToNext. calm_setters. repeat calm_step1. Qed.

Lemma calm_playFeedbackAudio snap type (w : World) :
  calm w (playFeedbackAudio snap type w).
Proof. unfold playFeedbackAudio. calm_setters. repeat calm_step1. Qed.

Lemma calm_playQuestionAudio q (w : World) : calm w (playQuestionAudio q w).
Proof. unfold playQuestionAudio. calm_setters. repeat calm_step1. Qed.

Lemma calm_playInvalidAnswerFeedback (w : World) :
  calm w (playInvalidAnswerFeedback w).
Proof. unfold playInvalidAnswerFeedback. calm_setters. repeat calm_step1. Qed.

Lemma calm_startNewQuiz shuffled (w : World) : calm w (startNewQuiz shuffled w).
Proof. unfold startNewQuiz. calm_setters. repeat calm_step1. Qed.

Ltac calm_step2 :=
  first
    [ calm_step1
    | match goal with
      | |- calm _ (playFeedbackAudio ?s ?t ?v) =>
          apply (@calm_trans _ v); [|apply calm_playFeedbackAudio]
      | |- calm _ (playQuestionAudio ?q ?v) =>
          apply (@calm_trans _ v); [|apply calm_playQuestionAudio]
      | |- calm _ (playInvalidAnswerFeedback ?v) =>
          apply (@calm_trans _ v); [|apply calm_playInvalidAnswerFeedback]
      | |- calm _ (proceedToNext ?s ?v) =>
          apply (@calm_trans _ v); [|apply calm_proceedToNext]
      | |- calm _ (startNewQuiz ?s ?v) =>
          apply (@calm_trans _ v); [|apply calm_startNewQuiz]
      end ].

Lemma calm_handleSelectAnswer snap index (w : World) :
  calm w (handleSelectAnswer snap index w).
Proof. unfold handleSelectAnswer. calm_setters. repeat calm_step2. Qed.

Lemma calm_handleRecognitionFailure snap (w : World) :
  calm w (handleRecognitionFailure snap w).
Proof. unfold handleRecognitionFailure. calm_setters. repeat calm_step2. Qed.

Lemma calm_run_audio_callback cb (w : World) : calm w (run_audio_callback cb w).
Proof.
  unfold run_audio_callback. calm_setters. repeat calm_step2.
Qed.

Lemma calm_question_effect snap (w : World) : calm w (question_effect snap w).
Proof. unfold question_effect. calm_setters. repeat calm_step2. Qed.

Lemma calm_scorecard_effect snap (w : World) : calm w (scorecard_effect snap w).
Proof. unfold scorecard_effect. calm_setters. repeat calm_step2. Qed.

Lemma calm_scorecard_cleanup (w : World) : calm w (scorecard_cleanup w).
Proof. calm_setters. repeat calm_step2. Qed.

Lemma calm_unmount (w : World) : calm w (unmount w).
Proof. unfold unmount. calm_setters. repeat calm_step2. Qed.

Ltac calm_step3 :=
  first
    [ calm_step2
    | match goal with
      | |- calm _ (handleSelectAnswer ?s ?i ?v) =>
          apply (@calm_trans _ v); [|apply calm_handleSelectAnswer]
      | |- calm _ (handleRecognitionFailure ?s ?v) =>
          apply (@calm_trans _ v); [|apply calm_handleRecognitionFailure]
      | |- calm _ (run_audio_callback ?c ?v) =>
          apply (@calm_trans _ v); [|apply calm_run_audio_callback]
      | |- calm _ (unmount ?v) =>
          apply (@calm_trans _ v); [|apply calm_unmount]
      end ].

Lemma calm_recognition_onresult lower snap text (w : World) :
  calm w (recognition_onresult lower snap text w).
Proof. unfold recognition_onresult. calm_setters. repeat calm_step3. Qed.

Lemma calm_recognition_onend snap (w : World) : calm w (recognition_onend snap w).
Proof. unfold recognition_onend. calm_setters. repeat calm_step3. Qed.

Lemma calm_run_option cb (w : World) : calm w (run_option cb w).
Proof. unfold run_option. repeat calm_step3. Qed.


(** The invariant.  [in_step] is its form between an event and the
    render that follows: the recognizer in [recognitionRef] may have been
    started, but then [status] differs from the rendered one, so the
    effect is about to replace it. *)
Definition ref_fresh (w : World) : Prop :=
  forall k, recognitionRef w = Some k ->
    exists r, nth_error (recognizers w) k = Some r
              /\ activity r = rec_idle
              /\ status (handlers r) = status (rendered w).

Definition ref_replaceable (w : World) : Prop :=
  forall k, recognitionRef w = Some k ->
    exists r, nth_error (recognizers w) k = Some r
              /\ (activity r = rec_idle
                  /\ status (handlers r) = status (rendered w)
                  \/ status (state w) <> status (rendered w)).

Definition started_saw_idle (w : World) : Prop :=
  forall k r, nth_error (recognizers w) k = Some r ->
    activity r <> rec_idle -> status (handlers r) = idle.

Definition listen_current (w : World) : Prop :=
  forall s, startListeningRef w = Some s -> status s = status (rendered w).

Definition no_speech_no_ref (w : World) : Prop :=
  hasSpeechRecognition w = false -> recognitionRef w = None.

Definition stale (w : World) : Prop :=
  no_speech_no_ref w /\ ref_fresh w /\ listen_current w /\ started_saw_idle w.

Definition in_step (w : World) : Prop :=
  no_speech_no_ref w /\ ref_replaceable w /\ listen_current w
  /\ started_saw_idle w.

Lemma stale_in_step (w : World) : stale w -> in_step w.
Proof.
  intros (H0 & H1 & H2 & H3). repeat split; try assumption.
  intros k Hk. destruct (H1 k Hk) as (r & Hr & Hi & Hs). exists r. tauto.
Qed.

Lemma started_saw_idle_kept (l l' : list Recognizer) :
  Forall2 kept l l' ->
  (forall k r, nth_error l k = Some r -> activity r <> rec_idle ->
               status (handlers r) = idle) ->
  forall k r, nth_error l' k = Some r -> activity r <> rec_idle ->
              status (handlers r) = idle.
Proof.
  intros Hk H k r' Hr' Hact.
  destruct (kept_nth k Hk Hr') as (r & Hr & He & Hidle).
  rewrite He. apply (H k r Hr). intros Hi. apply Hact. now apply Hidle.
Qed.

Lemma stale_calm (w w' : World) : stale w -> calm w w' -> stale w'.
Proof.
  intros (H0 & H1 & H2 & H3) [Cr Cs Cd Cl Ck]. repeat split.
  - intros Hs. rewrite Cr. apply H0. congruence.
  - intros k Hk. rewrite Cr in Hk. destruct (H1 k Hk) as (r & Hr & Hi & Hst).
    destruct (kept_nth_forward k Ck Hr) as (r' & Hr' & He & Hidle).
    exists r'. rewrite Cd, He. auto.
  - intros s Hs. rewrite Cl in Hs. rewrite Cd. now apply H2.
  - exact (started_saw_idle_kept Ck H3).
Qed.

Lemma nth_error_update_nth_other {A} (f : A -> A) (l : list A) (k j : nat) :
  j <> k -> nth_error (update_nth k f l) j = nth_error l j.
Proof.
  revert k j. induction l as [|x t IH]; intros [|k] [|j] Hne; cbn;
    try reflexivity; try contradiction.
  apply IH. congruence.
Qed.

(** [startListening] with a closure of the current render: the started
    recognizer saw 'idle', and the status now differs from the rendered
    one. *)
Lemma in_step_startListening (snap : State) (w : World) :
  stale w -> status snap = status (rendered w) ->
  in_step (startListening snap w).
Proof.
  intros Hst Hsnap. pose proof Hst as (H0 & H1 & H2 & H3).
  unfold startListening.
  destruct (negb (isMountedRef w) || is_null (recognitionRef w)
            || negb (status_eqb (status snap) idle)
            || negb (is_null (selectedAnswer snap))) eqn:Hguard;
    [now apply stale_in_step|].
  apply orb_false_iff in Hguard. destruct Hguard as [Hguard _].
  apply orb_false_iff in Hguard. destruct Hguard as [_ Hidle].
  apply negb_false_iff in Hidle.
  assert (Hsn : status snap = idle) by (destruct (status snap); now try discriminate).
  set (w1 := setStatus listening (setTranscript [] (set_resultProcessedRef false w))).
  assert (Hc : calm w w1) by (unfold w1; calm_setters; repeat calm_step).
  assert (Hst1 : stale w1) by (eapply stale_calm; eassumption).
  destruct (recognitionRef w1) as [k|] eqn:Hk; [|now apply stale_in_step].
  pose proof Hst1 as (G0 & G1 & G2 & G3).
  destruct (G1 k Hk) as (r & Hr & Hact & Hrs).
  rewrite Hr, Hact.
  assert (Hrend : rendered w1 = rendered w) by apply Hc.
  repeat split.
  - intros Hs. exfalso. specialize (G0 Hs). congruence.
  - intros j Hj. cbn in Hj. injection Hj as <-.
    exists (with_activity rec_active r). split.
    + cbn. now apply nth_error_update_nth.
    + right. cbn. rewrite Hrend in *. rewrite <- Hsnap, Hsn. discriminate.
  - exact G2.
  - intros j r' Hj Hne. cbn in Hj.
    destruct (Nat.eq_dec j k) as [->|Hjk].
    + rewrite (nth_error_update_nth _ _ _ Hr) in Hj. injection Hj as <-.
      cbn. rewrite Hrs, Hrend, <- Hsnap. exact Hsn.
    + rewrite nth_error_update_nth_other in Hj by exact Hjk.
      now apply (G3 j r').
Qed.


Lemma status_eqb_eq (a b : Status) : status_eqb a b = true -> a = b.
Proof. destruct a, b; now try discriminate. Qed.

Lemma recognition_deps_same_status (a b : State) :
  recognition_deps_changed a b = false -> status a = status b.
Proof.
  unfold recognition_deps_changed. rewrite negb_false_iff, !andb_true_iff.
  intros [[[[[_ H] _] _] _] _]. now apply status_eqb_eq.
Qed.

Lemma listen_deps_same_status (a b : State) :
  listen_deps_changed a b = false -> status a = status b.
Proof.
  unfold listen_deps_changed. rewrite negb_false_iff, andb_true_iff.
  intros [H _]. now apply status_eqb_eq.
Qed.

(** What a render and its effects, short of the recognition effect, do
    to the fields the invariant reads. *)
Definition before_recognition_effect (w : World) : World :=
  let old := rendered w in
  let new := state w in
  let w := set_rendered new w in
  let w :=
    if shows_question new then
      match audioRef w with
      | None => set_audioRef (Some fresh_audio) w
      | Some _ => w
      end
    else set_audioRef None w in
  let w := if score_deps_changed old new then scorecard_cleanup w else w in
  let w := if listen_deps_changed old new
           then set_startListeningRef (Some new) w else w in
  let w := if question_deps_changed old new then question_effect new w else w in
  if score_deps_changed old new then scorecard_effect new w else w.

Lemma commit_once_split (w : World) :
  commit_once w =
  if recognition_deps_changed (rendered w) (state w)
  then recognition_effect (state w) (before_recognition_effect w)
  else before_recognition_effect w.
Proof. reflexivity. Qed.

Lemma before_recognition_effect_fields (w : World) :
  let u := before_recognition_effect w in
  recognitionRef u = recognitionRef w
  /\ hasSpeechRecognition u = hasSpeechRecognition w
  /\ rendered u = state w
  /\ startListeningRef u =
       (if listen_deps_changed (rendered w) (state w)
        then Some (state w) else startListeningRef w)
  /\ Forall2 kept (recognizers w) (recognizers u).
Proof.
  cbv zeta. unfold before_recognition_effect.
  set (old := rendered w). set (new := state w).
  set (w1 := set_rendered new w).
  set (w3 := if score_deps_changed old new then scorecard_cleanup _ else _).
  assert (H13 : calm w1 w3).
  { unfold w3. calm_setters. repeat calm_step3. }
  set (w4 := if listen_deps_changed old new
             then set_startListeningRef (Some new) w3 else w3).
  set (u := if score_deps_changed old new then scorecard_effect new _ else _).
  assert (H4u : calm w4 u).
  { unfold u.
    destruct (score_deps_changed old new), (question_deps_changed old new);
      repeat first
        [ calm_step3
        | match goal with
          | |- calm _ (scorecard_effect ?s ?v) =>
              apply (@calm_trans _ v); [|apply calm_scorecard_effect]
          | |- calm _ (question_effect ?s ?v) =>
              apply (@calm_trans _ v); [|apply calm_question_effect]
          end ]. }
  destruct H13 as [A1 A2 A3 A4 A5], H4u as [B1 B2 B3 B4 B5].
  assert (H34 : recognitionRef w4 = recognitionRef w3
                /\ hasSpeechRecognition w4 = hasSpeechRecognition w3
                /\ rendered w4 = rendered w3
                /\ recognizers w4 = recognizers w3
                /\ startListeningRef w4 =
                     (if listen_deps_changed old new
                      then Some new else startListeningRef w3)).
  { unfold w4. destruct (listen_deps_changed old new); repeat split. }
  destruct H34 as (C1 & C2 & C3 & C4 & C5).
  repeat split.
  - rewrite B1, C1, A1. reflexivity.
  - rewrite B2, C2, A2. reflexivity.
  - rewrite B3, C3, A3. reflexivity.
  - rewrite B4, C5, A4. reflexivity.
  - eapply kept_chain; [exact A5|]. rewrite <- C4. exact B5.
Qed.

Lemma nth_error_snoc {A} (l : list A) (x y : A) (k : nat) :
  nth_error (l ++ [x]) k = Some y ->
  nth_error l k = Some y \/ y = x.
Proof.
  intros H. destruct (Nat.lt_ge_cases k (List.length l)) as [Hlt|Hge].
  - left. now rewrite nth_error_app1 in H.
  - right. rewrite nth_error_app2 in H by exact Hge.
    destruct (k - List.length l)%nat as [|n]; cbn in H.
    + congruence.
    + destruct n; discriminate.
Qed.

(** A render restores the invariant. *)
Lemma stale_commit_once (w : World) : in_step w -> stale (commit_once w).
Proof.
  intros (H0 & H1 & H2 & H3). rewrite commit_once_split.
  destruct (before_recognition_effect_fields w) as (Fr & Fs & Fd & Fl & Fk).
  set (u := before_recognition_effect w) in *.
  assert (Hlisten : listen_current u).
  { intros s Hs. rewrite Fl in Hs. rewrite Fd.
    destruct (listen_deps_changed (rendered w) (state w)) eqn:Hl.
    - now injection Hs as <-.
    - rewrite <- (listen_deps_same_status _ _ Hl). now apply H2. }
  assert (Hstarted : started_saw_idle u) by exact (started_saw_idle_kept Fk H3).
  destruct (recognition_deps_changed (rendered w) (state w)) eqn:Hrc.
  - unfold recognition_effect.
    destruct (hasSpeechRecognition u) eqn:Hsp.
    + repeat split.
      * intros Hs. cbn in Hs. congruence.
      * intros k Hk. cbn in Hk. injection Hk as <-.
        eexists. split; [cbn; rewrite nth_error_app2, Nat.sub_diag by lia;
                         reflexivity|].
        split; [reflexivity|]. cbn. now rewrite Fd.
      * exact Hlisten.
      * intros k r Hr Hact. cbn in Hr.
        destruct (nth_error_snoc _ _ _ Hr) as [Hin| ->].
        -- now apply (Hstarted k r).
        -- now contradiction Hact.
    + repeat split; try assumption.
      * intros _. rewrite Fr. apply H0. congruence.
      * intros k Hk. rewrite Fr, H0 in Hk by congruence. discriminate.
  - pose proof (recognition_deps_same_status _ _ Hrc) as Hsame.
    repeat split; try assumption.
    + intros Hs. rewrite Fr. apply H0. congruence.
    + intros k Hk. rewrite Fr in Hk.
      destruct (H1 k Hk) as (r & Hr & [[Hi Hst]|Hne]); [|now symmetry in Hsame].
      destruct (kept_nth_forward k Fk Hr) as (r' & Hr' & He & Hidle).
      exists r'. rewrite Fd, He, <- Hsame. auto.
Qed.

Lemma state_eqb_eq (a b : State) : state_eqb a b = true -> a = b.
Proof. unfold state_eqb. now destruct (State_eq_dec a b). Qed.

Lemma stale_commit (n : nat) (w : World) : in_step w -> stale (commit (S n) w).
Proof.
  assert (Hst : forall m v, stale v -> stale (commit m v)).
  { induction m as [|m IH]; intros v Hv; cbn [commit]; [exact Hv|].
    destruct (state_eqb (rendered v) (state v)); [exact Hv|].
    apply IH, stale_commit_once, stale_in_step, Hv. }
  intros Hw. cbn [commit].
  destruct (state_eqb (rendered w) (state w)) eqn:He.
  - apply state_eqb_eq in He. destruct Hw as (H0 & H1 & H2 & H3).
    repeat split; try assumption.
    intros k Hk. destruct (H1 k Hk) as (r & Hr & [[Hi Hs]|Hne]).
    + now exists r.
    + rewrite He in Hne. now contradiction Hne.
  - apply Hst, stale_commit_once, Hw.
Qed.


Lemma kept_with_activity (l : list Recognizer) (k : nat) (r : Recognizer)
  (a : Activity) :
  nth_error l k = Some r ->
  activity r <> rec_idle \/ a = rec_idle ->
  Forall2 kept l (update_nth k (with_activity a) l).
Proof.
  revert k. induction l as [|x t IH]; intros [|k]; cbn; try discriminate.
  - intros [= ->] Ha. constructor; [|apply kept_all].
    split; [reflexivity|]. cbn. destruct Ha as [Ha| ->]; [contradiction|reflexivity].
  - intros Hr Ha. constructor; [now split|]. now apply IH.
Qed.

Lemma calm_set_activity (w : World) (k : nat) (r : Recognizer) (a : Activity) :
  nth_error (recognizers w) k = Some r ->
  activity r <> rec_idle \/ a = rec_idle ->
  calm w (set_activity k a w).
Proof.
  intros Hr Ha. split; try reflexivity. cbn. now apply kept_with_activity with r.
Qed.

Lemma stale_recognition_effect (snap : State) (w : World) :
  stale w -> status snap = status (rendered w) ->
  stale (recognition_effect snap w).
Proof.
  intros (H0 & H1 & H2 & H3) Hs. unfold recognition_effect.
  destruct (hasSpeechRecognition w) eqn:Hsp; [|now repeat split].
  repeat split.
  - intros Hf. cbn in Hf. congruence.
  - intros k Hk. cbn in Hk. injection Hk as <-.
    eexists. split; [cbn; rewrite nth_error_app2, Nat.sub_diag by lia;
                     reflexivity|].
    split; [reflexivity|exact Hs].
  - exact H2.
  - intros k r Hr Hact. cbn in Hr.
    destruct (nth_error_snoc _ _ _ Hr) as [Hin| ->].
    + now apply (H3 k r).
    + now contradiction Hact.
Qed.

Section Sessions.

Variable toLowerCase : jsstring -> jsstring.

(** Every event leaves the invariant in its in-step form. *)
Lemma in_step_fire (e : Event) (w w1 : World) :
  stale w -> fire toLowerCase e w = Some w1 -> in_step w1.
Proof.
  intros Hst Hfire.
  assert (Hcalm : forall v, calm w v -> in_step v).
  { intros v Hv. apply stale_in_step. eapply stale_calm; eassumption. }
  destruct e as [index| |shuffled| | | |id|k text|k|k]; cbn [fire] in Hfire.
  - destruct (current_question (rendered w)); [|discriminate].
    destruct (_ && _); [|discriminate]. injection Hfire as <-.
    apply Hcalm, calm_handleSelectAnswer.
  - destruct (_ && _); [|discriminate]. injection Hfire as <-.
    apply in_step_startListening; [exact Hst|reflexivity].
  - destruct (gameState (rendered w)); [discriminate|].
    destruct (isMountedRef w); [|discriminate]. injection Hfire as <-.
    apply Hcalm, calm_startNewQuiz.
  - destruct (isMountedRef w); [|discriminate]. injection Hfire as <-.
    apply Hcalm. repeat calm_step3.
  - destruct (audioRef w) as [a|]; [|discriminate].
    destruct (paused a); [discriminate|]. injection Hfire as <-.
    apply Hcalm. eapply calm_trans; [apply calm_set_audioRef|apply calm_run_option].
  - destruct (audioRef w) as [a|]; [|discriminate].
    destruct (paused a); [discriminate|]. injection Hfire as <-.
    apply Hcalm. eapply calm_trans; [apply calm_set_audioRef|].
    eapply calm_trans; apply calm_run_option.
  - destruct (timer_callback id (timers w)) as [cb|]; [|discriminate].
    injection Hfire as <-.
    assert (Hc : calm w (clearTimeout id w)) by (calm_setters; repeat calm_step).
    assert (Hv : stale (clearTimeout id w)) by (eapply stale_calm; eassumption).
    destruct cb as [|snap|]; cbn [run_timer_callback].
    + destruct (isMountedRef _); [|now apply Hcalm].
      destruct (startListeningRef (clearTimeout id w)) as [snap|] eqn:Hl;
        [|now apply Hcalm].
      apply in_step_startListening; [exact Hv|].
      destruct Hv as (_ & _ & Hlc & _). now apply Hlc.
    + apply Hcalm. eapply calm_trans; [exact Hc|apply calm_proceedToNext].
    + apply Hcalm. eapply calm_trans; [exact Hc|]. repeat calm_step.
  - destruct (nth_error (recognizers w) k) as [r|] eqn:Hr; [|discriminate].
    destruct (activity r) eqn:Hact; try discriminate. injection Hfire as <-.
    apply Hcalm. eapply calm_trans; [|apply calm_recognition_onresult].
    apply calm_set_activity with r; [exact Hr|left; congruence].
  - destruct (nth_error (recognizers w) k) as [r|] eqn:Hr; [|discriminate].
    destruct (activity r) eqn:Hact; try discriminate. injection Hfire as <-.
    apply Hcalm. unfold recognition_onerror.
    apply calm_set_activity with r; [exact Hr|left; congruence].
  - destruct (nth_error (recognizers w) k) as [r|] eqn:Hr; [|discriminate].
    destruct (activity r) eqn:Hact; try discriminate; injection Hfire as <-;
      apply Hcalm; (eapply calm_trans; [|apply calm_recognition_onend]);
      apply calm_set_activity with r; auto.
Qed.

Lemma stale_step (e : Event) (w w' : World) :
  stale w -> step toLowerCase e w = Some w' -> stale w'.
Proof.
  intros Hst Hstep. unfold step in Hstep.
  destruct (fire toLowerCase e w) as [w1|] eqn:Hfire; [|discriminate].
  assert (Hs : stale (commit 8 w1)).
  { apply stale_commit. eapply in_step_fire; eassumption. }
  generalize dependent (commit 8 w1). intros v Hstep Hv.
  destruct (settled v); [|discriminate].
  injection Hstep as <-. exact Hv.
Qed.

Lemma stale_run (trace : list Event) (w w' : World) :
  stale w -> run toLowerCase trace w = Some w' -> stale w'.
Proof.
  revert w. induction trace as [|e rest IH]; intros w Hst Hrun; cbn in Hrun.
  - now injection Hrun as <-.
  - destruct (step toLowerCase e w) as [w1|] eqn:Hstep; [|discriminate].
    eapply IH; [|exact Hrun]. eapply stale_step; eassumption.
Qed.

Lemma stale_mount (speech : bool) (shuffled : list QuizQuestion) :
  stale (mount speech shuffled).
Proof.
  unfold mount.
  set (w0 := set_startListeningRef (Some initial_state) _).
  assert (H0 : stale w0).
  { repeat split; try discriminate.
    - intros s Hs. cbn in Hs. now injection Hs as <-.
    - intros [|k] r Hr; discriminate. }
  apply stale_commit, stale_in_step.
  set (w1 := scorecard_effect initial_state _).
  assert (Hc : calm w0 w1).
  { unfold w1.
    eapply calm_trans; [|apply calm_scorecard_effect].
    eapply calm_trans; [|apply calm_question_effect].
    repeat calm_step3. }
  apply stale_recognition_effect; [eapply stale_calm; eassumption|].
  destruct Hc as [_ _ Hr _ _]. now rewrite Hr.
Qed.

Lemma update_nth_same {A} (f : A -> A) (l : list A) (k : nat) (x : A) :
  nth_error l k = Some x -> f x = x -> update_nth k f l = l.
Proof.
  revert k. induction l as [|y t IH]; intros [|k]; cbn; try discriminate.
  - intros [= ->] Hf. now rewrite Hf.
  - intros Hk Hf. now rewrite (IH k Hk Hf).
Qed.

(** In every state of every session: the recognizer in [recognitionRef]
    is idle, so [stopAllActivity] stops no recognizer; and the handlers of
    a recognizer that listens, or still owes its [end] event, captured
    the status 'idle', so its [onend] does nothing. *)
Theorem listening_recognizer_is_out_of_reach
  (quizQuestions : list QuizQuestion) (w : World) :
  reachable toLowerCase quizQuestions w ->
  (forall k, recognitionRef w = Some k ->
     exists r, nth_error (recognizers w) k = Some r /\ activity r = rec_idle)
  /\ recognizers (stopAllActivity w) = recognizers w
  /\ (forall k r, nth_error (recognizers w) k = Some r ->
        activity r <> rec_idle ->
        status (handlers r) = idle
        /\ forall v, recognition_onend (handlers r) v = v).
Proof.
  intros (speech & shuffled & trace & _ & Hrun).
  assert (Hst : stale w) by (eapply stale_run; [apply stale_mount|exact Hrun]).
  destruct Hst as (H0 & H1 & H2 & H3).
  assert (Href : forall k, recognitionRef w = Some k ->
             exists r, nth_error (recognizers w) k = Some r
                       /\ activity r = rec_idle).
  { intros k Hk. destruct (H1 k Hk) as (r & Hr & Hi & _). now exists r. }
  split; [exact Href|]. split.
  - assert (Hrs : recognizers (stopAllActivity w) =
                  match recognitionRef w with
                  | Some k => update_nth k abort (recognizers w)
                  | None => recognizers w
                  end).
    { destruct w as [s rd [[[] sr oe oer pc]|] rr rs tr tm nt [] sl rp pb hs];
        destruct tr, rr; reflexivity. }
    rewrite Hrs. destruct (recognitionRef w) as [k|] eqn:Hk; [|reflexivity].
    destruct (Href k eq_refl) as (r & Hr & Hi).
    apply update_nth_same with r; [exact Hr|]. unfold abort. now rewrite Hi.
  - intros k r Hr Hact. pose proof (H3 k r Hr Hact) as Hs.
    split; [exact Hs|]. intros v. unfold recognition_onend. rewrite Hs.
    cbn. now rewrite andb_false_r.
Qed.

End Sessions.

Lemma listening_recognizer_is_out_of_reach_witness :
  let w := after (listening_trace ++ [ClickOption 0]) in
  reachable ascii_lower [kaaba_question] w
  /\ recognitionRef w = Some 5%nat
  /\ map activity (recognizers w)
     = [rec_idle; rec_idle; rec_idle; rec_active; rec_idle; rec_idle]
  /\ recognizers (stopAllActivity w) = recognizers w.
Proof.
  cbv zeta.
  assert (Hr : reachable ascii_lower [kaaba_question]
                 (after (listening_trace ++ [ClickOption 0]))).
  { exists true, [kaaba_question], (listening_trace ++ [ClickOption 0]).
    split; [apply Permutation_refl|]. vm_compute. reflexivity. }
  split; [exact Hr|]. split; [vm_compute; reflexivity|].
  split; [vm_compute; reflexivity|].
  exact (proj1 (proj2 (listening_recognizer_is_out_of_reach Hr))).
Defined.



(** ** Wrong answers *)

Definition tracked_timer (cb : TimerCallback) (w : World) : Prop :=
  exists id, timeoutRef w = Some id /\ In (id, cb) (timers w).

Lemma tracked_after_feedback (type : FeedbackType) (snap : State) (v : World) :
  isMountedRef v = true ->
  tracked_timer (match type with
                 | incorrect => CbListen
                 | _ => CbProceedToNext snap
                 end)
    (run_audio_callback (CbFeedbackEnd type snap) v).
Proof.
  intros Hm. destruct v as [s rd au rr rs tr tm nt mt sl rp pb hs].
  cbn in Hm. subst mt.
  destruct au as [a|], type; exists nt; (split; [reflexivity|]);
    cbn; apply in_or_app; right; now left.
Qed.

(** An answer other than the correct one, clicked or spoken, takes one
    attempt, whether or not the question has an option of that index
    (a spoken "four" on a question with three options is such an answer).
    While attempts remain the feedback asks to try again, and when it has
    ended the selection is cleared and listening is scheduled; with no
    attempt left the feedback names the correct option, the selection
    stays, and the end of the feedback schedules the next question.  The
    score does not change. *)
Theorem wrong_answer_policy
  (snap : State) (index : Z) (q : QuizQuestion) (a : AudioEl) (w : World) :
  selectedAnswer snap = None ->
  current_question snap = Some q ->
  index <> correctAnswer q ->
  audioRef w = Some a ->
  isMountedRef w = true ->
  let left := (attemptsLeft snap - 1)%Z in
  let type := if (0 <? left)%Z then incorrect else final_incorrect in
  let w1 := handleSelectAnswer snap index w in
  let w2 := run_audio_callback (CbFeedbackEnd type snap) w1 in
  selectedAnswer (state w1) = Some index
  /\ isCorrect (state w1) = Some false
  /\ attemptsLeft (state w1) = left
  /\ score (state w1) = score (state w)
  /\ status (state w1) = speaking
  /\ audio_playing w1 = true
  /\ audio_onended w1 = Some (CbFeedbackEnd type snap)
  /\ attemptsLeft (state w2) = left
  /\ score (state w2) = score (state w)
  /\ if (0 <? left)%Z then
       audio_src w1 = tts incorrectMsg
       /\ selectedAnswer (state w2) = None
       /\ isCorrect (state w2) = None
       /\ status (state w2) = idle
       /\ tracked_timer CbListen w2
     else
       audio_src w1 = tts (finalIncorrectMsg (correct_option_text q))
       /\ selectedAnswer (state w2) = Some index
       /\ tracked_timer (CbProceedToNext snap) w2.
Proof.
  intros Hsel Hq Hne Ha Hm. cbv zeta.
  assert (Hmw : isMountedRef (handleSelectAnswer snap index w) = true).
  { unfold handleSelectAnswer, playFeedbackAudio. rewrite Hsel, Hq.
    apply Z.eqb_neq in Hne. rewrite Hne.
    destruct w as [s rd au rr rs tr tm nt mt sl rp pb hs].
    cbn in Ha, Hm. subst au mt.
    destruct (0 <? attemptsLeft snap - 1)%Z, a as [[] sr oe oer pc], tr, rr;
      reflexivity. }
  pose proof (fun type => @tracked_after_feedback type snap _ Hmw) as Htr.
  revert Htr.
  unfold handleSelectAnswer, playFeedbackAudio. rewrite Hsel, Hq.
  apply Z.eqb_neq in Hne. rewrite Hne. cbn [is_null negb].
  generalize (attemptsLeft snap - 1)%Z. intros n.
  generalize (correct_option_text q). intros txt.
  destruct w as [s rd au rr rs tr tm nt mt sl rp pb hs].
  cbn in Ha, Hm. subst au mt.
  destruct (0 <? n)%Z; intros Htr;
    [specialize (Htr incorrect)|specialize (Htr final_incorrect)];
    cbv iota in Htr;
    repeat match goal with |- _ /\ _ => split end;
    first [exact Htr
          |destruct a as [[] sr oe oer pc], tr, rr; reflexivity].
Qed.

Lemma wrong_answer_policy_witness :
  let w := after [AudioEnded] in
  let w1 := handleSelectAnswer captured 1 w in
  selectedAnswer captured = None
  /\ current_question captured = Some kaaba_question
  /\ audioRef w = Some (the_audio w)
  /\ isMountedRef w = true
  /\ selectedAnswer (state w1) = Some 1%Z
  /\ attemptsLeft (state w1) = (attemptsLeft captured - 1)%Z
  /\ status (state w1) = speaking.
Proof.
  cbv zeta.
  assert (H1 : selectedAnswer captured = None) by (vm_compute; reflexivity).
  assert (H2 : current_question captured = Some kaaba_question)
    by (vm_compute; reflexivity).
  assert (H3 : 1%Z <> correctAnswer kaaba_question) by discriminate.
  assert (H4 : audioRef (after [AudioEnded]) = Some (the_audio (after [AudioEnded])))
    by (vm_compute; reflexivity).
  assert (H5 : isMountedRef (after [AudioEnded]) = true)
    by (vm_compute; reflexivity).
  destruct (@wrong_answer_policy captured 1 kaaba_question
              (the_audio (after [AudioEnded])) (after [AudioEnded])
              H1 H2 H3 H4 H5) as (G1 & _ & G3 & _ & G5 & _).
  repeat split; assumption.
Defined.

(** ** After the component has unmounted *)

(** Once [isMountedRef] is false, the recognizer's handlers, a failed
    recognition, [startListening], the listening timer and the scorecard
    timer change nothing at all, and the end of any speech only detaches
    the audio handlers: no state is set and no timer is made.
    [stopAllActivity] still stops what it stops but leaves the status. *)
Theorem unmounted_component_is_inert
  (toLowerCase : jsstring -> jsstring) (snap : State) (text : jsstring)
  (cb : AudioCallback) (w : World) :
  isMountedRef w = false ->
  recognition_onresult toLowerCase snap text w = w
  /\ recognition_onend snap w = w
  /\ recognition_onerror snap w = w
  /\ handleRecognitionFailure snap w = w
  /\ startListening snap w = w
  /\ run_timer_callback CbListen w = w
  /\ run_timer_callback CbPlayScore w = w
  /\ run_audio_callback cb w = detach_handlers w
  /\ state (run_audio_callback cb w) = state w
  /\ timers (run_audio_callback cb w) = timers w
  /\ state (stopAllActivity w) = state w.
Proof.
  intros Hm.
  destruct w as [s rd au rr rs tr tm nt mt sl rp pb hs]. cbn in Hm. subst mt.
  repeat match goal with |- _ /\ _ => split end; try reflexivity.
  - unfold handleRecognitionFailure. cbn [isMountedRef negb].
    now rewrite orb_true_r.
  - destruct cb as [[] ?| | | |], au; reflexivity.
  - destruct cb as [[] ?| | | |], au; reflexivity.
  - destruct cb as [[] ?| | | |], au; reflexivity.
  - destruct au as [[[] ? ? ? ?]|], tr, rr; reflexivity.
Qed.

Lemma unmounted_component_is_inert_witness :
  let w := unmount listening_world in
  isMountedRef w = false
  /\ recognition_onresult ascii_lower captured (js "option one") w = w.
Proof.
  cbv zeta.
  assert (Hm : isMountedRef (unmount listening_world) = false)
    by (vm_compute; reflexivity).
  split; [exact Hm|].
  exact (proj1 (@unmounted_component_is_inert ascii_lower captured
                  (js "option one") CbQuestionEnd (unmount listening_world) Hm)).
Defined.

(** ** The scorecard is shown, not spoken *)

(** The world in which the scorecard effect runs during a render: the
    audio element has been attached or removed with the view, and the
    effects listed before it have run. *)
Definition before_scorecard_effect (w : World) : World :=
  let old := rendered w in
  let new := state w in
  let w := set_rendered new w in
  let w :=
    if shows_question new then
      match audioRef w with
      | None => set_audioRef (Some fresh_audio) w
      | Some _ => w
      end
    else set_audioRef None w in
  let w := if score_deps_changed old new then scorecard_cleanup w else w in
  let w := if listen_deps_changed old new
           then set_startListeningRef (Some new) w else w in
  if question_deps_changed old new then question_effect new w else w.

(** The effect of lines 288-324 never speaks.  It needs the game to be
    finished and an audio element; but the scorecard view renders no
    [audio] element, so in a render of that view [audioRef.current] is
    null by the time the effect runs.  Hence every render commits as if
    the component had no scorecard effect, and mounting does too. *)
Theorem scorecard_is_never_spoken (w : World) :
  let u := before_scorecard_effect w in
  (gameState (state w) = finished -> audioRef u = None)
  /\ scorecard_effect (state w) u = u
  /\ commit_once w =
       (if recognition_deps_changed (rendered w) (state w)
        then recognition_effect (state w) u else u)
  /\ (forall v, scorecard_effect initial_state v = v).
Proof.
  cbv zeta.
  assert (Hnone : gameState (state w) = finished ->
                  audioRef (before_scorecard_effect w) = None).
  { intros Hfin. unfold before_scorecard_effect, shows_question, question_effect.
    rewrite Hfin.
    destruct (score_deps_changed _ _), (listen_deps_changed _ _),
      (question_deps_changed _ _);
      destruct w as [s rd au rr rs tr tm nt mt sl rp pb hs];
      destruct pb; reflexivity. }
  assert (Heff : scorecard_effect (state w) (before_scorecard_effect w)
                 = before_scorecard_effect w).
  { assert (Hs : forall snap v,
               (gameState snap = finished -> audioRef v = None) ->
               scorecard_effect snap v = v).
    { intros snap v H. unfold scorecard_effect.
      destruct (gameState snap); [reflexivity|].
      now rewrite (H eq_refl). }
    apply Hs. exact Hnone. }
  split; [exact Hnone|]. split; [exact Heff|]. split; [|reflexivity].
  transitivity
    (let u := before_scorecard_effect w in
     let u := if score_deps_changed (rendered w) (state w)
              then scorecard_effect (state w) u else u in
     if recognition_deps_changed (rendered w) (state w)
     then recognition_effect (state w) u else u); [reflexivity|].
  cbv zeta. rewrite Heff. now destruct (score_deps_changed _ _).
Qed.

(** ** From one question to the next *)

Definition at_last_question (snap : State) : bool :=
  negb (Z.of_nat (currentQuestionIndex snap)
        <? Z.of_nat (List.length (sessionQuestions snap)) - 1)%Z.

(** [proceedToNext] first stops everything.  When its closure stood at the
    last question (or held no question at all) it finishes the game,
    leaving the index alone; otherwise it adds one to the index and to the
    question trigger and the game goes on.  When the index in the state is
    the one the closure captured, the new index is that of a question of
    the session.  Score and session are not touched. *)
Theorem next_question_or_scorecard (snap : State) (w : World) :
  let w' := proceedToNext snap w in
  quiet w'
  /\ audio_playing w' = false
  /\ score (state w') = score (state w)
  /\ sessionQuestions (state w') = sessionQuestions (state w)
  /\ status (state w') = (if isMountedRef w then idle else status (state w))
  /\ if at_last_question snap then
       currentQuestionIndex (state w') = currentQuestionIndex (state w)
       /\ questionTrigger (state w') = questionTrigger (state w)
       /\ gameState (state w') =
            (if isMountedRef w then finished else gameState (state w))
     else
       currentQuestionIndex (state w') = S (currentQuestionIndex (state w))
       /\ questionTrigger (state w') = S (questionTrigger (state w))
       /\ gameState (state w') = gameState (state w)
       /\ (currentQuestionIndex (state w) = currentQuestionIndex snap ->
           (currentQuestionIndex (state w')
            < List.length (sessionQuestions snap))%nat).
Proof.
  cbv zeta. unfold at_last_question, proceedToNext.
  pose proof (stopAllActivity_quiet w) as Hq.
  pose proof (stopAllActivity_frame w) as
    (Hm & _ & Hp & _ & _ & _ & _ & _ & Hsc & _ & Hsq & Hi & Hg & Hst).
  cbv zeta in Hm, Hp, Hsc, Hsq, Hi, Hg, Hst.
  assert (Htrig : questionTrigger (state (stopAllActivity w))
                  = questionTrigger (state w)).
  { destruct w as [s rd [[[] sr oe oer pc]|] rr rs tr tm nt [] sl rp pb hs];
      destruct tr, rr; reflexivity. }
  revert Hq Hm Hp Hsc Hsq Hi Hg Hst Htrig.
  generalize (stopAllActivity w). intros v Hq Hm Hp Hsc Hsq Hi Hg Hst Htrig.
  destruct (Z.ltb_spec (Z.of_nat (currentQuestionIndex snap))
              (Z.of_nat (List.length (sessionQuestions snap)) - 1)) as [Hlt|Hge];
    cbn [negb].
  - destruct v as [s rd au rr rs tr tm nt mt sl rp pb hs].
    split; [exact Hq|]. cbn in *.
    repeat split; try assumption; try congruence.
    intros E. rewrite Hi, E. lia.
  - rewrite Hm. destruct (isMountedRef w);
      destruct v as [s rd au rr rs tr tm nt mt sl rp pb hs];
      (split; [exact Hq|]); cbn in *; repeat split; assumption.
Qed.

(** ** Bounds of the percentage *)

(** In a session of at most five questions and for a score between 0 and
    the number of questions, [scorePercent] lies between 0 and 100 and
    grows with the score; it is 100 only for a full score and 0 only for
    no score.  The scorecard celebrates (confetti, the golden trophy) from
    75 percent on, that is when 200 * score >= 149 * questions: with five
    questions, from four right answers on. *)
Theorem scorePercent_bounds (s : State) :
  let n := Z.of_nat (List.length (sessionQuestions s)) in
  (n <= 5)%Z ->
  (0 <= score s <= n)%Z ->
  (0 <= scorePercent s <= 100)%Z
  /\ (0 < n -> (scorePercent s = 100 <-> score s = n))%Z
  /\ (0 < n -> (scorePercent s = 0 <-> score s = 0))%Z
  /\ (0 < n -> (75 <= scorePercent s <-> 149 * n <= 200 * score s))%Z
  /\ (n = 5 -> (75 <= scorePercent s <-> 4 <= score s))%Z
  /\ forall s' : State,
       sessionQuestions s' = sessionQuestions s ->
       (score s <= score s' <= n)%Z -> (scorePercent s <= scorePercent s')%Z.
Proof.
  cbv zeta. intros Hn5 Hs.
  pose proof (scorePercent_round s) as Hr. cbv zeta in Hr.
  assert (Hmono : forall s' : State,
             sessionQuestions s' = sessionQuestions s ->
             (score s <= score s'
              <= Z.of_nat (List.length (sessionQuestions s)))%Z ->
             (scorePercent s <= scorePercent s')%Z).
  { intros s' Hq Hle.
    pose proof (scorePercent_round s') as Hr'. cbv zeta in Hr'.
    rewrite Hq in Hr'.
    destruct (0 <? Z.of_nat (List.length (sessionQuestions s)))%Z eqn:Hn;
      [|lia].
    apply Z.ltb_lt in Hn. rewrite Hr, Hr'.
    pose proof (@round_percent_nearest (score s)
                  (Z.of_nat (List.length (sessionQuestions s)))
                  ltac:(lia) ltac:(lia)) as H1.
    pose proof (@round_percent_nearest (score s')
                  (Z.of_nat (List.length (sessionQuestions s)))
                  ltac:(lia) ltac:(lia)) as H2.
    cbv zeta in H1, H2. nia. }
  destruct (0 <? Z.of_nat (List.length (sessionQuestions s)))%Z eqn:Hn.
  - apply Z.ltb_lt in Hn. rewrite Hr.
    pose proof (@round_percent_nearest (score s)
                  (Z.of_nat (List.length (sessionQuestions s)))
                  ltac:(lia) ltac:(lia)) as Hb.
    cbv zeta in Hb.
    split; [nia|]. split; [intros H5; split; intros; nia|].
    split; [intros H5; split; intros; nia|].
    split; [intros _; split; intros; nia|].
    split; [intros E; rewrite E in *; split; intros; nia|].
    rewrite <- Hr. exact Hmono.
  - apply Z.ltb_ge in Hn.
    split; [lia|]. split; [lia|]. split; [lia|]. split; [lia|].
    split; [lia|exact Hmono].
Qed.

Lemma scorePercent_bounds_witness :
  let s := state (after (listening_trace ++ [ClickOption 0])) in
  (Z.of_nat (List.length (sessionQuestions s)) <= 5)%Z
  /\ (0 <= score s <= Z.of_nat (List.length (sessionQuestions s)))%Z
  /\ (0 <= scorePercent s <= 100)%Z.
Proof.
  cbv zeta.
  assert (H5 : (Z.of_nat (List.length (sessionQuestions
                   (state (after (listening_trace ++ [ClickOption 0]))))) <= 5)%Z)
    by (vm_compute; discriminate).
  assert (H : (0 <= score (state (after (listening_trace ++ [ClickOption 0])))
               <= Z.of_nat (List.length (sessionQuestions
                     (state (after (listening_trace ++ [ClickOption 0]))))))%Z)
    by (split; vm_compute; discriminate).
  split; [exact H5|]. split; [exact H|].
  exact (proj1 (@scorePercent_bounds _ H5 H)).
Defined.

End QuizSpec.
